(** * TALLSorts: input validation, training set-up and reporting helpers

    A shallow embedding of [TALLSorts/tallsorts.py].  Python values are
    modelled as follows.

    - A pandas [DataFrame] is a list of column labels together with a list
      of rows, each row carrying its index label and its cells.
    - A Python [dict] whose iteration order matters (the subtype objects)
      is an association list; dictionaries only used as maps are [gmap]s.
    - [df.loc[label]] is a row (a Series) when the label indexes one row
      of the frame, and the frame of its rows when it indexes several.
    - A call that may leave through [sys.exit()] or through an exception
      returns an [outcome].
    - Numbers are exact rationals; the IEEE special values that the code
      can produce (a division by zero, a missing cell) are explicit
      constructors.  Rounding of floating point arithmetic is outside the
      model, and so is the wrap-around of 64-bit integer arithmetic: a
      statement that depends on a sum of counts assumes that the sums lie
      in the signed 64-bit range. *)

From Stdlib Require Import QArith.
From stdpp Require Import gmap strings list fin_maps pretty.


(** ** Outcomes of a call *)

(** Python exceptions that the modelled code can raise.
    [LabelsNotInIndex] is the [KeyError] of [df.loc[labels]]: it carries
    the labels that the index does not have, in the order of [labels]; the
    text of its message, which lists them, is not modelled. *)
Inductive exn :=
| KeyError (key : string)
| LabelsNotInIndex (missing : list string)
| ValueError (what : string)
| IndexError
| ZeroDivisionError.

(** The fatal input errors: each one is a [message(...)] followed by
    [sys.exit()] in the source. *)
Inductive error :=
| MissingParentColumn
| DuplicateHierarchyLabel (label : string)
| DanglingParent (parent : string)
| SampleNotInSheet (sample : string)
| DuplicateSheetLabel (label : string)
| LabelNotInHierarchy (label : string)
| NegativeForParent (sample cur_label parent : string).

Inductive outcome (A : Type) :=
| Ret (a : A)
| Exit (e : error)
| Raise (x : exn).
Arguments Ret {A} a.
Arguments Exit {A} e.
Arguments Raise {A} x.

#[global] Instance outcome_ret : MRet outcome := @Ret.
#[global] Instance outcome_bind : MBind outcome := λ A B f m,
  match m with
  | Ret a => f a
  | Exit e => Exit e
  | Raise x => Raise x
  end.

(** The text handed to [message] before each [sys.exit()]. *)
Definition render (e : error) : string :=
  match e with
  | MissingParentColumn =>
      "Error: Hierarchy file does not contain 'Parent' as a column title. Exiting."
  | DuplicateHierarchyLabel l =>
      "Error: Label '" +:+ l +:+
      "' appears at least twice in the first column of the hierarchy file. Exiting."
  | DanglingParent p =>
      "Error: " +:+ p +:+
      " is listed as a parent label, but does not exist as its own label. Exiting."
  | SampleNotInSheet s =>
      "Error: Sample '" +:+ s +:+
      "' is in the counts matrix but not in the sample sheet. Exiting."
  | DuplicateSheetLabel l =>
      "Error: Label '" +:+ l +:+
      "' appears at least twice in the headers of the sample-sheet file. Exiting."
  | LabelNotInHierarchy l =>
      "Error: Subtype label '" +:+ l +:+
      "' is in the sample sheet but not in the hierarchy. Exiting."
  | NegativeForParent s c p =>
      "Error: Sample '" +:+ s +:+ "' is positive for '" +:+ c +:+
      "' but negative for its parent '" +:+ p +:+ "'. Exiting."
  end.

(** [for x in xs: body(x)], stopping at the first exit or exception. *)
Fixpoint for_each {A : Type} (body : A → outcome unit) (xs : list A) : outcome unit :=
  match xs with
  | [] => Ret tt
  | x :: xs' => _ ← body x; for_each body xs'
  end.

(** ** Data frames *)

(** [L] is the type of the column labels and [C] the type of the cells. *)
Record Frame (L C : Type) := {
  columns : list L;
  rows : list (string * list C)
}.
Arguments columns {L C} f.
Arguments rows {L C} f.

(** Column labels are strings everywhere except after the relabelling of
    gene symbols in [run]. *)
Abbreviation DataFrame := (Frame string).

(** [df.index] *)
Definition index {L C} (df : Frame L C) : list string := (rows df).*1.

(** The cell of a row under a column label (the first column so named). *)
Fixpoint row_get {C} (cols : list string) (cells : list C) (c : string) : option C :=
  match cols, cells with
  | c' :: cols', v :: cells' => if decide (c' = c) then Some v else row_get cols' cells' c
  | _, _ => None
  end.

(** [df[c]]: the cells of column [c], one per row. *)
Definition column {C} (df : DataFrame C) (c : string) : list C :=
  omap (λ r, row_get (columns df) r.2 c) (rows df).

(** ** [value_counts] *)

(** The distinct elements of a list, in order of first occurrence. *)
Fixpoint uniq (seen l : list string) : list string :=
  match l with
  | [] => []
  | x :: l' => if decide (x ∈ seen) then uniq seen l' else x :: uniq (x :: seen) l'
  end.

Definition occurrences (x : string) (l : list string) : nat :=
  length (filter (λ y, y = x) l).

(** Stable insertion sort: [before x y] tells whether [x] may stand in
    front of an element [y] that came after it in the input. *)
Fixpoint insert_by {A : Type} (before : A → A → bool) (x : A) (l : list A) : list A :=
  match l with
  | [] => [x]
  | y :: l' => if before x y then x :: y :: l' else y :: insert_by before x l'
  end.

Definition sort_by {A : Type} (before : A → A → bool) (l : list A) : list A :=
  foldr (insert_by before) [] l.

(** [labels.value_counts()]: each distinct label with its number of
    occurrences, most frequent first.  Equally frequent labels stand here
    in order of first occurrence; pandas does not promise an order among
    them, and nothing below depends on it. *)
Definition value_counts (l : list string) : list (string * nat) :=
  sort_by (λ p q, bool_decide (q.2 ≤ p.2)%nat)
          ((λ x, (x, occurrences x l)) <$> uniq [] l).

(** [vc[vc > 1]] *)
Definition duplicate_labels (l : list string) : list (string * nat) :=
  filter (λ p, 1 < p.2)%nat (value_counts l).

(** ** [check_hierarchy] *)

(** The cells of the hierarchy table are strings; an empty parent entry is
    the empty string. *)

(** Python truthiness of a string. *)
Definition truthy_str (s : string) : bool := negb (bool_decide (s = "")).

Definition check_hierarchy (hierarchy : DataFrame string) : outcome unit :=
  if decide ("Parent" ∈ columns hierarchy) then
    match duplicate_labels (index hierarchy) with
    | (l, _) :: _ => Exit (DuplicateHierarchyLabel l)
    | [] =>
        for_each (λ i,
          if truthy_str i && negb (bool_decide (i ∈ index hierarchy))
          then Exit (DanglingParent i) else Ret tt)
          (column hierarchy "Parent")
    end
  else Exit MissingParentColumn.

(** The three defects that [check_hierarchy] looks for. *)
Definition hierarchy_defect (h : DataFrame string) : Prop :=
  "Parent" ∉ columns h ∨
  ¬ NoDup (index h) ∨
  ∃ p, p ∈ column h "Parent" ∧ p ≠ "" ∧ p ∉ index h.

(** The parent recorded for a label by the hierarchy table, if any. *)
Definition parent_of (hierarchy : DataFrame string) (l : string) : option string :=
  r ← list_find (λ r, r.1 = l) (rows hierarchy);
  p ← row_get (columns hierarchy) r.2.2 "Parent";
  if truthy_str p then Some p else None.

(** The [n]-th ancestor of a label according to the table. *)
Fixpoint climb (hierarchy : DataFrame string) (n : nat) (l : string) : option string :=
  match n with
  | O => Some l
  | S n' => p ← parent_of hierarchy l; climb hierarchy n' p
  end.

(** The parent references form a cycle: some label is its own ancestor. *)
Definition cyclic (hierarchy : DataFrame string) : Prop :=
  ∃ l n, l ∈ index hierarchy ∧ (0 < n)%nat ∧ climb hierarchy n l = Some l.

(** A two-label cycle: A has parent B and B has parent A. *)
Definition hierarchy_AB_cycle : DataFrame string :=
  {| columns := ["Parent"]; rows := [("A", ["B"]); ("B", ["A"])] |}.

(** ** Subtype objects *)

(** A node of the hierarchy, as [check_training_inputs] and
    [fit_classifier] read it: [parent] holds the label of the parent
    object ([None] for a root) and [children] the labels of the child
    objects. *)
Record SubtypeClass := {
  label : string;
  level : Z;
  parent : option string;
  children : list string
}.

(** The dictionary [subtypeObjects], in insertion order. *)
Definition SubtypeObjects := list (string * SubtypeClass).

Fixpoint dict_get {V : Type} (d : list (string * V)) (k : string) : option V :=
  match d with
  | [] => None
  | (k', v) :: d' => if decide (k' = k) then Some v else dict_get d' k
  end.

(** [d[k]] *)
Definition subscript {V : Type} (d : list (string * V)) (k : string) : outcome V :=
  match dict_get d k with
  | Some v => Ret v
  | None => Raise (KeyError k)
  end.

(** [max(zs)] on Python integers. *)
Definition py_max (zs : list Z) : outcome Z :=
  match zs with
  | [] => Raise (ValueError "max() arg is an empty sequence")
  | z :: zs' => Ret (foldl Z.max z zs')
  end.

(** [a] is a proper ancestor of [l]: the parent of [l], or an ancestor of
    that parent. *)
Inductive ancestor (objs : SubtypeObjects) : string → string → Prop :=
| ancestor_parent l o p :
    dict_get objs l = Some o → parent o = Some p → ancestor objs l p
| ancestor_step l o p a :
    dict_get objs l = Some o → parent o = Some p → ancestor objs p a →
    ancestor objs l a.

(** The invariant of the hierarchy's data model: levels start at 1, the
    parent of an object is itself an object, one level up. *)
Definition well_formed (objs : SubtypeObjects) : Prop :=
  ∀ l o, dict_get objs l = Some o →
    (1 ≤ level o)%Z ∧
    ∀ p, parent o = Some p →
      ∃ po, dict_get objs p = Some po ∧ level o = (level po + 1)%Z.

(** ** [check_training_inputs] *)

(** [v > 0.5] *)
Definition is_positive (v : Q) : bool := negb (Qle_bool v (1 # 2)).

(** [row[row > 0.5].index]: the labels of the cells above one half. *)
Definition positive_labels (cols : list string) (cells : list Q) : list string :=
  (filter (λ p, is_positive p.2 = true) (zip cols cells)).*1.

(** The loop [for level in range(max_levels)] for one positive label. *)
Fixpoint check_parents (subtypeObjects : SubtypeObjects) (positive : list string)
    (sample : string) (n : nat) (cur_label : string) : outcome unit :=
  match n with
  | O => Ret tt
  | S n' =>
      o ← subscript subtypeObjects cur_label;
      match parent o with
      | None => Ret tt
      | Some p =>
          if bool_decide (p ∈ positive)
          then check_parents subtypeObjects positive sample n' p
          else Exit (NegativeForParent sample cur_label p)
      end
  end.

(** [true_classifications[true_classifications > 0.5].index] for
    [true_classifications = sample_sheet.loc[sample]].  When [sample]
    labels one row of the sheet the selection is that row, a Series, and
    the result lists the columns whose cell is above one half; when it
    labels several rows the selection is a DataFrame, and the result is the
    index of that frame: the label [sample], once per row. *)
Definition positive_index (sample_sheet : DataFrame Q) (sample : string) : list string :=
  match filter (λ r, r.1 = sample) (rows sample_sheet) with
  | [r] => positive_labels (columns sample_sheet) r.2
  | found => found.*1
  end.

(** The body of [for sample in sample_sheet.index]. *)
Definition check_row (subtypeObjects : SubtypeObjects) (sample_sheet : DataFrame Q)
    (max_levels : nat) (sample : string) : outcome unit :=
  let positive := positive_index sample_sheet sample in
  for_each (check_parents subtypeObjects positive sample max_levels) positive.

(** The body of the loop for a sample that labels the single row [r]. *)
Definition check_series (subtypeObjects : SubtypeObjects) (cols : list string)
    (max_levels : nat) (r : string * list Q) : outcome unit :=
  let positive := positive_labels cols r.2 in
  for_each (check_parents subtypeObjects positive r.1 max_levels) positive.

Definition check_training_inputs {C : Type} (X : DataFrame C)
    (sample_sheet : DataFrame Q) (subtypeObjects : SubtypeObjects) : outcome unit :=
  _ ← for_each (λ i,
         if bool_decide (i ∈ index sample_sheet) then Ret tt
         else Exit (SampleNotInSheet i)) (index X);
  _ ← match duplicate_labels (columns sample_sheet) with
      | (l, _) :: _ => Exit (DuplicateSheetLabel l)
      | [] => Ret tt
      end;
  _ ← for_each (λ i,
         if bool_decide (i ∈ subtypeObjects.*1) then Ret tt
         else Exit (LabelNotInHierarchy i)) (columns sample_sheet);
  max_levels ← py_max ((λ o, level o.2) <$> subtypeObjects);
  for_each (check_row subtypeObjects sample_sheet (Z.to_nat max_levels))
           (index sample_sheet).

(** [p] is the parent of [l]. *)
Definition parent_step (objs : SubtypeObjects) (l p : string) : Prop :=
  ∃ o, dict_get objs l = Some o ∧ parent o = Some p.

(** The row of a sample breaks ancestor-positivity: it is positive for a
    label and not for one of the ancestors of that label. *)
Definition row_violation (objs : SubtypeObjects) (cols : list string)
    (r : string * list Q) : Prop :=
  ∃ l a, l ∈ positive_labels cols r.2 ∧ ancestor objs l a ∧
         a ∉ positive_labels cols r.2.

(** The first element of [xs] that is not in [ys]. *)
Definition first_missing (xs ys : list string) : option string :=
  snd <$> list_find (λ x, x ∉ ys) xs.

(** A sufficient test for [well_formed], by computation. *)
Definition well_formed_check (objs : SubtypeObjects) : bool :=
  forallb (λ lo : string * SubtypeClass,
             bool_decide (1 ≤ level lo.2)%Z &&
             match parent lo.2 with
             | None => true
             | Some p =>
                 match dict_get objs p with
                 | Some po => bool_decide (level lo.2 = level po + 1)%Z
                 | None => false
                 end
             end) objs.

(** ** [gen_logreg_params] *)

(** Floating point values: an exact rational or an IEEE special value. *)
Inductive flt :=
| Fin (q : Q)
| PInf
| NInf
| NaN.

(** A keyword argument of [LogisticRegression]. *)
Inductive param :=
| PInt (z : Z)
| PFloat (x : flt)
| PStr (s : string).

(** What the code asks of a cell of the parameter table: its truth value
    and the conversions [int], [float] and [str]. *)
Class PyValue (C : Type) := {
  truthy : C → bool;
  py_int : C → option Z;
  py_float : C → option flt;
  py_str : C → string
}.

(** A conversion that fails raises [ValueError]. *)
Definition converted {A : Type} (o : option A) : outcome A :=
  match o with
  | Some a => Ret a
  | None => Raise (ValueError "could not convert")
  end.

Inductive modifier := to_int | to_float | to_str.

Definition apply_modifier {C} `{PyValue C} (m : modifier) (v : C) : outcome param :=
  match m with
  | to_int => z ← converted (py_int v); Ret (PInt z)
  | to_float => x ← converted (py_float v); Ret (PFloat x)
  | to_str => Ret (PStr (py_str v))
  end.

Definition default_params : gmap string param :=
  list_to_map
    [("random_state", PInt 0); ("max_iter", PInt 10000);
     ("tol", PFloat (Fin (1 # 10000))); ("penalty", PStr "l1");
     ("solver", PStr "saga"); ("C", PFloat (Fin (2 # 10)));
     ("class_weight", PStr "balanced")].

Definition param_modifiers : gmap string modifier :=
  list_to_map
    [("random_state", to_int); ("max_iter", to_int); ("tol", to_float);
     ("penalty", to_str); ("solver", to_str); ("C", to_float);
     ("class_weight", to_str)].

(** A loop threading an accumulator, stopping at the first exit or
    exception. *)
Fixpoint foldM {A B : Type} (f : B → A → outcome B) (b : B) (xs : list A) : outcome B :=
  match xs with
  | [] => Ret b
  | x :: xs' => b' ← f b x; foldM f b' xs'
  end.

(** The body of [for property in row.index]: the cell [pv.2] stands under
    the column [pv.1]. *)
Definition set_property {C} `{PyValue C} (ps : gmap string param) (pv : string * C)
    : outcome (gmap string param) :=
  if truthy pv.2 then
    m ← match param_modifiers !! pv.1 with
        | Some m => Ret m
        | None => Raise (KeyError pv.1)
        end;
    x ← apply_modifier m pv.2;
    Ret (<[pv.1 := x]> ps)
  else Ret ps.

(** The rows of a table that the label [l] indexes. *)
Definition rows_of {C} (df : DataFrame C) (l : string) : list (string * list C) :=
  filter (λ r, r.1 = l) (rows df).

(** [logreg_params[label]] once the body of [for label in subtypeObjects]
    has run: a copy of the defaults, updated in place from
    [row = training_params.loc[label]] when the label is in the index.
    When the label indexes one row, [row] is a Series and the loop runs
    over its cells.  When it indexes several rows, [row] is a DataFrame:
    [row.index] repeats the label, and [row[label]] asks for a column of
    that name, which raises [KeyError] when there is none and otherwise
    gives a column whose truth value [if] refuses (the text of that
    [ValueError] is not modelled). *)
Definition label_params {C} `{PyValue C} (training_params : DataFrame C) (l : string)
    : outcome (gmap string param) :=
  match rows_of training_params l with
  | [] => Ret default_params
  | [row] => foldM set_property default_params (zip (columns training_params) row.2)
  | _ =>
      if bool_decide (l ∈ columns training_params)
      then Raise (ValueError "The truth value of a Series is ambiguous")
      else Raise (KeyError l)
  end.

Definition gen_logreg_params {C} `{PyValue C} (training_params : option (DataFrame C))
    (subtypeObjects : SubtypeObjects) : outcome (gmap string (gmap string param)) :=
  match training_params with
  | None => Ret (foldl (λ m i, <[i := default_params]> m) ∅ subtypeObjects.*1)
  | Some tp =>
      foldM (λ logreg_params l,
               ps ← label_params tp l; Ret (<[l := ps]> logreg_params))
            ∅ subtypeObjects.*1
  end.

(** The value that a cell [v] under the column [p] gives to the keyword
    [p]: [param_modifiers[p](v)], when that is defined. *)
Definition coerced {C} `{PyValue C} (p : string) (v : C) : option param :=
  m ← param_modifiers !! p;
  match apply_modifier m v with
  | Ret x => Some x
  | _ => None
  end.


(** No label of the hierarchy indexes more than one row of the table. *)
Definition single_rows {C} (tp : DataFrame C) (objs : SubtypeObjects) : Prop :=
  ∀ l, l ∈ objs.*1 → (length (rows_of tp l) ≤ 1)%nat.

(** Every truthy cell of the rows of the hierarchy's labels stands under a
    known keyword and converts. *)
Definition convertible {C} `{PyValue C} (tp : DataFrame C) (objs : SubtypeObjects) : Prop :=
  ∀ l row, l ∈ objs.*1 → row ∈ rows_of tp l →
    Forall (λ pv, truthy pv.2 = true → is_Some (coerced pv.1 pv.2)) (zip (columns tp) row.2).


(** ** The annotation source *)

Record Gene := {
  gene_id : string;
  gene_name : string;
  biotype : string;
  contig : string
}.

#[global] Instance Gene_eq_dec : EqDecision Gene.
Proof. solve_decision. Defined.

(** The queries made on [EnsemblRelease(110)]; [None] stands for the
    exception a query raises when it finds nothing. *)
Record EnsemblRelease := {
  gene_by_id : string → option Gene;
  gene_ids : string → list string;
  genes_by_name : string → option (list Gene)
}.

(** ** [filter_genes] *)

(** [x >= t] for a finite threshold [t]. *)
Definition flt_ge (x : flt) (t : Q) : bool :=
  match x with
  | Fin q => Qle_bool t q
  | PInf => true
  | NInf | NaN => false
  end.

(** [ensembl_data.gene_by_id(i)] *)
Definition lookup_gene (ensembl_data : EnsemblRelease) (i : string) : outcome Gene :=
  match gene_by_id ensembl_data i with
  | Some g => Ret g
  | None => Raise (ValueError "Gene not found")
  end.

(** [[x for x in xs if test(x)]] with a test that may raise. *)
Fixpoint filterM {A : Type} (test : A → outcome bool) (xs : list A) : outcome (list A) :=
  match xs with
  | [] => Ret []
  | x :: xs' =>
      b ← test x; rest ← filterM test xs';
      Ret (if b : bool then x :: rest else rest)
  end.

(** The steps of [filter_genes] that consult the annotation only. *)
Definition annotation_filter (ensembl_data : EnsemblRelease) (candidate_genes : list string)
    : outcome (list string) :=
  let not_found := filter (λ i, gene_by_id ensembl_data i = None) candidate_genes in
  let candidate_genes := filter (λ i, i ∉ not_found) candidate_genes in
  xist ← match genes_by_name ensembl_data "XIST" with
         | None => Raise (ValueError "No results found for query")
         | Some [] => Raise IndexError
         | Some (g :: _) => Ret (gene_id g)
         end;
  let Y := gene_ids ensembl_data "Y" ++ [xist] in
  let candidate_genes := filter (λ i, i ∉ Y) candidate_genes in
  let categories_to_keep := ["protein_coding"] in
  candidate_genes ← filterM (λ i, g ← lookup_gene ensembl_data i;
                                   Ret (bool_decide (biotype g ∈ categories_to_keep)))
                            candidate_genes;
  MT ← filterM (λ i, g ← lookup_gene ensembl_data i;
                     Ret (bool_decide (contig g = "MT"))) candidate_genes;
  Ret (filter (λ i, i ∉ MT) candidate_genes).

(** What it takes for an identifier to survive the annotation steps, given
    the identifier [xist] of the first gene named XIST. *)
Definition annotation_keeps (db : EnsemblRelease) (xist g : string) : Prop :=
  (g ∉ gene_ids db "Y") ∧ g ≠ xist ∧
  ∃ G, gene_by_id db g = Some G ∧ biotype G = "protein_coding" ∧ contig G ≠ "MT".

(** [X.sum(axis=1)], for totals in the signed 64-bit range: beyond it the
    sum of an int64 frame wraps around. *)
Definition row_sums (X : DataFrame Q) : list Q :=
  (λ r, foldr Qplus 0%Q r.2) <$> rows X.

(** [min(qs)]: the first of the smallest elements. *)
Definition py_min (qs : list Q) : outcome Q :=
  match qs with
  | [] => Raise (ValueError "min() arg is an empty sequence")
  | q :: qs' => Ret (foldl (λ a b, if Qle_bool a b then a else b) q qs')
  end.

(** [5/m * 1e6] on Python numbers. *)
Definition cpm_threshold_of (m : Q) : outcome Q :=
  if Qeq_bool m 0 then Raise ZeroDivisionError else Ret (5 / m * 1000000)%Q.

(** [(X_cpm >= t).sum(axis=0)] at column position [j]. *)
Definition samples_reaching (X_cpm : DataFrame flt) (t : Q) (j : nat) : nat :=
  length (filter (λ r, default false ((λ v, flt_ge v t) <$> r.2 !! j) = true) (rows X_cpm)).

(** [X.columns[(X_cpm >= t).sum(axis=0) >= min_subtype]] *)
Definition to_remain (X : DataFrame Q) (X_cpm : DataFrame flt) (t : Q) (min_subtype : nat)
    : list string :=
  (filter (λ jc, min_subtype ≤ samples_reaching X_cpm t jc.1)%nat
          (imap (λ j c, (j, c)) (columns X))).*2.

(** The abundance step of [filter_genes]; [cpm] is [conorm.cpm] on the
    samples-by-genes orientation. *)
Definition abundance_filter (cpm : DataFrame Q → DataFrame flt) (X : DataFrame Q)
    (min_subtype : nat) (candidate_genes : list string) : outcome (list string) :=
  let X_cpm := cpm X in
  m ← py_min (row_sums X);
  cpm_threshold ← cpm_threshold_of m;
  let remain := to_remain X X_cpm cpm_threshold min_subtype in
  Ret (filter (λ i, i ∈ remain) candidate_genes).

Definition filter_genes (ensembl_data : EnsemblRelease) (cpm : DataFrame Q → DataFrame flt)
    (X : DataFrame Q) (min_subtype : nat) : outcome (list string) :=
  candidate_genes ← annotation_filter ensembl_data (columns X);
  candidate_genes ← abundance_filter cpm X min_subtype candidate_genes;
  Ret (sort_by String.leb candidate_genes).

(** ** [fit_classifier] *)

(** The calls into the fitting libraries and the model store that
    completed, with their arguments.  The fitting of a scaler and the
    saving of the model are taken to succeed; whether the fitting of a
    classifier does is up to [logistic_fit] below. *)
Inductive event :=
| FitScaler (parent_label : string) (samples genes : list string)
| FitClassifier (l : string) (params : gmap string param)
                (samples : list string) (y_train : list bool)
| SaveModel (path : string).

(** The collaborators of [fit_classifier] that live outside this file.
    [logistic_fit params X_subset y_train] tells how the fitting of a
    [LogisticRegression] with the keyword arguments [params] on [X_train]
    and [y_train] ends, [X_train] being [X_subset] scaled with the scaler
    of the parent. *)
Record Collaborators := {
  ensembl_data : EnsemblRelease;
  conorm_cpm : DataFrame Q → DataFrame flt;
  genSubtypeObjsFromHierarchy : DataFrame string → outcome SubtypeObjects;
  logistic_fit : gmap string param → DataFrame Q → list bool → outcome unit
}.

(** The fields of [ui] that [run] and [fit_classifier] read; [gene_filter]
    is [ui.filter].  [C] is the type of the cells of the counts and [P] that
    of the cells of the parameter table. *)
Record UserInput (C P : Type) := {
  samples : DataFrame C;
  sample_sheet : DataFrame Q;
  hierarchy : DataFrame string;
  training_params : option (DataFrame P);
  destination : string;
  gene_filter : bool;
  gene_labels : string;
  mode : string;
  model_path : option string
}.
Arguments samples {C P} u.
Arguments sample_sheet {C P} u.
Arguments hierarchy {C P} u.
Arguments training_params {C P} u.
Arguments destination {C P} u.
Arguments gene_filter {C P} u.
Arguments gene_labels {C P} u.
Arguments mode {C P} u.
Arguments model_path {C P} u.

(** [df[c]], raising [KeyError] when no column is labelled [c]. *)
Definition get_column {C} (df : DataFrame C) (c : string) : outcome (list C) :=
  if bool_decide (c ∈ columns df) then Ret (column df c) else Raise (KeyError c).

(** [xs ← mapM f l]: a list comprehension whose body may raise. *)
Fixpoint mapM {A B : Type} (f : A → outcome B) (xs : list A) : outcome (list B) :=
  match xs with
  | [] => Ret []
  | x :: xs' => y ← f x; ys ← mapM f xs'; Ret (y :: ys)
  end.

(** [df.loc[labels]]: for each label the rows it indexes; when the index
    lacks some of the labels, one [KeyError] for all of them. *)
Definition loc {C} (df : DataFrame C) (labels : list string) : outcome (DataFrame C) :=
  match filter (λ s, s ∉ index df) labels with
  | [] => Ret {| columns := columns df;
                 rows := concat ((λ s, filter (λ r, r.1 = s) (rows df)) <$> labels) |}
  | missing => Raise (LabelsNotInIndex missing)
  end.

(** [df[genes]]: the columns labelled by [genes], in that order. *)
Definition select_columns {C} (df : DataFrame C) (genes : list string) : DataFrame C :=
  {| columns := genes;
     rows := (λ r, (r.1, omap (row_get (columns df) r.2) genes)) <$> rows df |}.

(** [sample_sheet.index[sample_sheet[l] == 1]] *)
Definition samples_equal_one (sample_sheet : DataFrame Q) (l : string)
    : outcome (list string) :=
  if bool_decide (l ∈ columns sample_sheet) then
    Ret (filter (λ r, default false ((λ v, Qeq_bool v 1) <$> row_get (columns sample_sheet) r.2 l) = true)
                (rows sample_sheet)).*1
  else Raise (KeyError l).

(** [min(ns)] on counts. *)
Definition py_min_nat (ns : list nat) : outcome nat :=
  match ns with
  | [] => Raise (ValueError "min() arg is an empty sequence")
  | n :: ns' => Ret (foldl Nat.min n ns')
  end.

(** [sum(sample_sheet.loc[X.index][l] == 1)] *)
Definition count_equal_one {C} (sample_sheet : DataFrame Q) (X : DataFrame C) (l : string)
    : outcome nat :=
  sheet ← loc sample_sheet (index X);
  col ← get_column sheet l;
  Ret (length (filter (λ v, Qeq_bool v 1 = true) col)).

Definition create_scalers (world : Collaborators) (sample_sheet : DataFrame Q)
    (subtypeObjects : SubtypeObjects) (X : DataFrame Q) (parent_label : string)
    (filter_flag : bool) : outcome event :=
  Xc ← (if decide (parent_label = "Level0") then
          Ret (X, (filter (λ o, level o.2 = 1%Z) subtypeObjects).*1)
        else
          subset_samples ← samples_equal_one sample_sheet parent_label;
          X' ← loc X subset_samples;
          o ← subscript subtypeObjects parent_label;
          Ret (X', children o));
  let X := Xc.1 in
  let children_labels := Xc.2 in
  X ← (if filter_flag then
         counts ← mapM (count_equal_one sample_sheet X) children_labels;
         min_subtype ← py_min_nat counts;
         genes ← filter_genes (ensembl_data world) (conorm_cpm world) X min_subtype;
         Ret (select_columns X genes)
       else Ret X);
  Ret (FitScaler parent_label (index X) (columns X)).

Definition performing_training (world : Collaborators) (sample_sheet : DataFrame Q)
    (subtypeObjects : SubtypeObjects) (scalers : list (string * event))
    (logreg_params : gmap string (gmap string param)) (X : DataFrame Q) (l : string)
    : outcome event :=
  params ← match logreg_params !! l with
           | Some ps => Ret ps
           | None => Raise (KeyError l)
           end;
  o ← subscript subtypeObjects l;
  let parent_label := default "Level0" (parent o) in
  X_subset ← (if decide (parent_label = "Level0") then Ret X
              else subset_samples ← samples_equal_one sample_sheet parent_label;
                   loc X subset_samples);
  _ ← subscript scalers parent_label;
  sheet ← loc sample_sheet (index X_subset);
  col ← get_column sheet l;
  let y_train := (λ v, Qeq_bool v 1) <$> col in
  _ ← logistic_fit world params X_subset y_train;
  Ret (FitClassifier l params (index X_subset) y_train).

(** One phase of [Parallel(...)(delayed(task)(x) for x in xs)]: the
    events of the tasks that completed, and how the phase ended.  The
    tasks run here one after the other, in the order of [xs], as they do
    with one worker; with several workers ([n_jobs] is
    [ui.training_cores]) the order of the events inside a phase, and
    which of several failures ends it, are not fixed. *)
Fixpoint run_tasks {A : Type} (task : A → outcome event) (xs : list A)
    : list event * outcome unit :=
  match xs with
  | [] => ([], Ret tt)
  | x :: xs' =>
      match task x with
      | Ret ev => let r := run_tasks task xs' in (ev :: r.1, r.2)
      | Exit e => ([], Exit e)
      | Raise y => ([], Raise y)
      end
  end.

(** The label a scaler event is stored under in [scalers]. *)
Definition scaler_entry (ev : event) : string * event :=
  match ev with
  | FitScaler p _ _ => (p, ev)
  | FitClassifier l _ _ _ => (l, ev)
  | SaveModel p => (p, ev)
  end.

(** The validation that opens [fit_classifier]. *)
Definition training_setup {C} `{PyValue C} (world : Collaborators) (ui : UserInput Q C)
    : outcome (SubtypeObjects * gmap string (gmap string param)) :=
  _ ← check_hierarchy (hierarchy ui);
  subtypeObjects ← genSubtypeObjsFromHierarchy world (hierarchy ui);
  _ ← check_training_inputs (samples ui) (sample_sheet ui) subtypeObjects;
  logreg_params ← gen_logreg_params (training_params ui) subtypeObjects;
  Ret (subtypeObjects, logreg_params).

(** [fit_classifier]: the fitting and saving events that took place and
    how the call ended; [Ret tt] is the [sys.exit()] that follows the
    saving of the model. *)
Definition fit_classifier {C} `{PyValue C} (world : Collaborators) (ui : UserInput Q C)
    : list event * outcome unit :=
  match training_setup world ui with
  | Exit e => ([], Exit e)
  | Raise x => ([], Raise x)
  | Ret (subtypeObjects, logreg_params) =>
      let X := samples ui in
      let parent_labels :=
        "Level0" :: (sort_by (λ a b, bool_decide (level a.2 ≤ level b.2)%Z)
                       (filter (λ o, children o.2 ≠ []) subtypeObjects)).*1 in
      let phase_a :=
        run_tasks (λ p, create_scalers world (sample_sheet ui) subtypeObjects X p
                          (gene_filter ui)) parent_labels in
      match phase_a.2 with
      | Ret _ =>
          let scalers := scaler_entry <$> phase_a.1 in
          let phase_b :=
            run_tasks (performing_training world (sample_sheet ui) subtypeObjects scalers
                         logreg_params X) subtypeObjects.*1 in
          match phase_b.2 with
          | Ret _ =>
              (phase_a.1 ++ phase_b.1 ++ [SaveModel (destination ui +:+ "/custom.pkl.gz")],
               Ret tt)
          | stop => (phase_a.1 ++ phase_b.1, stop)
          end
      | stop => (phase_a.1, stop)
      end
  end.


(** ** The abundance step, in the words of its description *)

#[global] Instance Qeq_decision (x y : Q) : Decision (x == y)%Q := Qeq_dec x y.

#[global] Instance Qle_decision (x y : Q) : Decision (x <= y)%Q.
Proof.
  destruct (Qlt_le_dec y x) as [Hlt|Hle]; [right; by apply Qlt_not_le|by left].
Defined.



(** The row [r] of the sheet has the entry 1 under the label [l]. *)
Definition marked_one (sheet : DataFrame Q) (l : string) (r : string * list Q) : Prop :=
  match row_get (columns sheet) r.2 l with
  | Some v => (v == 1)%Q
  | None => False
  end.

#[global] Instance marked_one_dec sheet l r : Decision (marked_one sheet l r).
Proof. unfold marked_one. destruct (row_get _ _ _); apply _. Defined.



(** A counts-per-million value is at least [t]. *)
Definition at_least (t : Q) (v : flt) : Prop :=
  match v with
  | Fin q => (t <= q)%Q
  | PInf => True
  | NInf | NaN => False
  end.

#[global] Instance at_least_dec t v : Decision (at_least t v).
Proof. destruct v; apply _. Defined.

(** The sample of the row [r] has a value of at least [t] in the column
    at position [j]. *)
Definition reaches (t : Q) (j : nat) (r : string * list flt) : Prop :=
  match r.2 !! j with
  | Some v => at_least t v
  | None => False
  end.

#[global] Instance reaches_dec t j r : Decision (reaches t j r).
Proof. unfold reaches. destruct (_ !! _); apply _. Defined.



(** ** [convert_symbols_to_ensembl] *)

(** A value of the dictionary [confirmed], later a column label: the first
    pass stores the identifier [z[0].gene_id], the elimination loop stores
    the gene object [y[0]] itself. *)
Inductive col_label :=
| Name (s : string)
| GeneObject (g : Gene).

Definition upper_ascii (c : Ascii.ascii) : Ascii.ascii :=
  let n := Ascii.nat_of_ascii c in
  if (97 <=? n)%nat && (n <=? 122)%nat then Ascii.ascii_of_nat (n - 32) else c.

(** [s.upper()] on ASCII text. *)
Fixpoint upper (s : string) : string :=
  match s with
  | EmptyString => EmptyString
  | String c s' => String (upper_ascii c) (upper s')
  end.

(** [g in confirmed.values()]: a gene object equals another gene object
    with the same identifier, and never a string. *)
Definition same_gene (g : Gene) (v : col_label) : Prop :=
  match v with
  | GeneObject g' => gene_id g' = gene_id g
  | Name _ => False
  end.

#[global] Instance same_gene_dec g v : Decision (same_gene g v).
Proof. destruct v; simpl; apply _. Defined.

Definition in_values (confirmed : gmap string col_label) (g : Gene) : Prop :=
  map_Exists (λ _ v, same_gene g v) confirmed.

(** The dictionaries and lists that the first loop fills. *)
Record first_pass_state := {
  fp_confirmed : gmap string col_label;
  fp_unconfirmed : list string;
  fp_nonexistent : list string
}.

Definition first_pass_step (db : EnsemblRelease) (st : first_pass_state) (i : string)
    : first_pass_state :=
  match genes_by_name db (upper i) with
  | Some [g] =>
      {| fp_confirmed := <[i := Name (gene_id g)]> (fp_confirmed st);
         fp_unconfirmed := fp_unconfirmed st;
         fp_nonexistent := fp_nonexistent st |}
  | Some _ =>
      {| fp_confirmed := fp_confirmed st;
         fp_unconfirmed := fp_unconfirmed st ++ [i];
         fp_nonexistent := fp_nonexistent st |}
  | None =>
      {| fp_confirmed := fp_confirmed st;
         fp_unconfirmed := fp_unconfirmed st;
         fp_nonexistent := fp_nonexistent st ++ [i] |}
  end.

Definition first_pass (db : EnsemblRelease) (symb_list : list string) : first_pass_state :=
  foldl (first_pass_step db)
        {| fp_confirmed := ∅; fp_unconfirmed := []; fp_nonexistent := [] |} symb_list.

(** The state of one pass of the [while] loop: [confirmed], [fixed] and
    [unconfirmed2]. *)
Record pass_state := {
  confirmed : gmap string col_label;
  fixed : nat;
  unconfirmed2 : list string
}.

(** The body of [for i in unconfirmed]. *)
Definition eliminate (db : EnsemblRelease) (st : pass_state) (i : string)
    : outcome pass_state :=
  match genes_by_name db (upper i) with
  | None => Raise (ValueError "No results found for query")
  | Some z =>
      let y := filter (λ g, ¬ in_values (confirmed st) g) z in
      match y with
      | [g] => Ret {| confirmed := <[i := GeneObject g]> (confirmed st);
                      fixed := S (fixed st);
                      unconfirmed2 := unconfirmed2 st |}
      | _ => Ret {| confirmed := confirmed st;
                    fixed := fixed st;
                    unconfirmed2 := unconfirmed2 st ++ [i] |}
      end
  end.

(** One execution of the body of [while fixed > 0]. *)
Definition elimination_pass (db : EnsemblRelease) (c : gmap string col_label)
    (unconfirmed : list string) : outcome pass_state :=
  foldM (eliminate db) {| confirmed := c; fixed := 0; unconfirmed2 := [] |} unconfirmed.

(** [while fixed > 0: ...], with [fuel] bounding the number of passes;
    [None] when the fuel runs out before the loop ends. *)
Fixpoint elimination_loop (db : EnsemblRelease) (fuel : nat) (c : gmap string col_label)
    (unconfirmed : list string) (fixed_before : nat)
    : option (outcome (gmap string col_label * list string)) :=
  match fixed_before with
  | O => Some (Ret (c, unconfirmed))
  | S _ =>
      match fuel with
      | O => None
      | S fuel' =>
          match elimination_pass db c unconfirmed with
          | Ret st => elimination_loop db fuel' (confirmed st) (unconfirmed2 st) (fixed st)
          | Exit e => Some (Exit e)
          | Raise x => Some (Raise x)
          end
      end
  end.

(** The result is the pair of ['confirmed'] and ['unconfirmed']. *)
Definition convert_symbols_to_ensembl (db : EnsemblRelease) (fuel : nat)
    (symb_list : list string) : option (outcome (gmap string col_label * list string)) :=
  let st := first_pass db symb_list in
  match elimination_loop db fuel (fp_confirmed st) (fp_unconfirmed st) 1 with
  | Some (Ret (c, unconfirmed)) => Some (Ret (c, unconfirmed ++ fp_nonexistent st))
  | other => other
  end.

(** What the first loop maintains, [processed] being the symbols seen so
    far: an unconfirmed symbol names no gene or several, a confirmed one
    names exactly one. *)
Definition first_pass_invariant (db : EnsemblRelease) (st : first_pass_state)
    (processed : list string) : Prop :=
  (∀ i, i ∈ fp_unconfirmed st →
     ∃ z, genes_by_name db (upper i) = Some z ∧ length z ≠ 1%nat) ∧
  (∀ i, i ∈ dom (fp_confirmed st) → ∃ g, genes_by_name db (upper i) = Some [g]) ∧
  (size (fp_confirmed st) + length (fp_unconfirmed st) + length (fp_nonexistent st)
   ≤ length processed)%nat ∧
  ∀ s, s ∈ processed →
    s ∈ dom (fp_confirmed st) ∨ s ∈ fp_unconfirmed st ∨ s ∈ fp_nonexistent st.

(** The states in which the condition of [while fixed > 0] is evaluated:
    the one left by the first loop, with [fixed = 1], and the one left by
    each pass entered with [fixed > 0]. *)
Inductive loop_state (db : EnsemblRelease) (symb_list : list string)
    : gmap string col_label → list string → nat → Prop :=
| loop_start :
    loop_state db symb_list (fp_confirmed (first_pass db symb_list))
               (fp_unconfirmed (first_pass db symb_list)) 1
| loop_next c unconfirmed fixed_before st :
    loop_state db symb_list c unconfirmed (S fixed_before) →
    elimination_pass db c unconfirmed = Ret st →
    loop_state db symb_list (confirmed st) (unconfirmed2 st) (fixed st).

(** What the elimination loop maintains about the symbols still to be
    placed: the annotation knows each of them, and one that is already a
    key of [confirmed] has no candidate gene left. *)
Definition placed_or_open (db : EnsemblRelease) (c : gmap string col_label)
    (open : list string) : Prop :=
  ∀ i, i ∈ open →
    ∃ z, genes_by_name db (upper i) = Some z ∧
         (i ∈ dom c → Forall (in_values c) z).

(** The invariant of the loop: [nonexistent] is the list left by the first
    loop. *)
Definition loop_invariant (db : EnsemblRelease) (symb_list nonexistent : list string)
    (c : gmap string col_label) (unconfirmed : list string) : Prop :=
  placed_or_open db c unconfirmed ∧
  (size c + length unconfirmed + length nonexistent ≤ length symb_list)%nat ∧
  ∀ s, s ∈ symb_list → s ∈ dom c ∨ s ∈ unconfirmed ∨ s ∈ nonexistent.

(** ** [run] *)

(** [df.fillna(0)]; a missing cell is [None]. *)
Definition fillna {L} (df : Frame L (option Q)) (v : Q) : Frame L (option Q) :=
  {| columns := columns df;
     rows := (λ r : string * list (option Q),
                (r.1, (λ c, Some (default v c)) <$> r.2)) <$> rows df |}.

(** [df.drop(labels, axis=1)] for labels that all occur among the columns. *)
Definition drop_columns {C} (df : DataFrame C) (labels : list string) : DataFrame C :=
  {| columns := filter (λ c, c ∉ labels) (columns df);
     rows := (λ r : string * list C,
                (r.1, (filter (λ p, p.1 ∉ labels) (zip (columns df) r.2)).*2))
             <$> rows df |}.

(** What [run] hands over, and to whom. *)
Inductive dispatch :=
| RunPredictions (model : option string) (X : Frame col_label (option Q))
| FitClassifierCall (X : Frame col_label (option Q))
| NoDispatch.

(** [ui.samples] when the line [ui.samples = ui.samples.fillna(0)] is
    reached. *)
Definition samples_before_fillna {P} (db : EnsemblRelease) (fuel : nat)
    (ui : UserInput (option Q) P) : option (outcome (Frame col_label (option Q))) :=
  if decide (gene_labels ui = "symbol") then
    match convert_symbols_to_ensembl db fuel (columns (samples ui)) with
    | Some (Ret (c, unconfirmed)) =>
        let X := drop_columns (samples ui) unconfirmed in
        Some (cols ← mapM (λ i, match c !! i with
                                | Some v => Ret v
                                | None => Raise (KeyError i)
                                end) (columns X);
              Ret {| columns := cols; rows := rows X |})
    | Some (Exit e) => Some (Exit e)
    | Some (Raise x) => Some (Raise x)
    | None => None
    end
  else Some (Ret {| columns := Name <$> columns (samples ui); rows := rows (samples ui) |}).

Definition run {P} (db : EnsemblRelease) (fuel : nat) (ui : UserInput (option Q) P)
    : option (outcome dispatch) :=
  match samples_before_fillna db fuel ui with
  | Some (Ret X0) =>
      let X := fillna X0 0 in
      Some (Ret (if decide (mode ui = "test") then RunPredictions (model_path ui) X
                 else if decide (mode ui = "train") then FitClassifierCall X
                 else NoDispatch))
  | Some (Exit e) => Some (Exit e)
  | Some (Raise x) => Some (Raise x)
  | None => None
  end.

(** The cell in row [i] and column [j], by position. *)
Definition cell {L C} (df : Frame L C) (i j : nat) : option C :=
  r ← rows df !! i; r.2 !! j.

(** ** [gen_multicall_csv] *)

Inductive csv_cell :=
| Text (s : string)
| Number (q : Q).

Inductive file_op :=
| OpenForWriting (path : string)
| WriteRow (cells : list csv_cell).

(** [max(ns)] on lengths. *)
Definition py_max_nat (ns : list nat) : outcome nat :=
  match ns with
  | [] => Raise (ValueError "max() arg is an empty sequence")
  | n :: ns' => Ret (foldl Nat.max n ns')
  end.

(** The header row: an empty cell, then [call_k] and [proba] for each [k]. *)
Definition multicall_header (max_multicall : nat) : list csv_cell :=
  Text "" :: concat ((λ k, [Text ("call_" +:+ pretty (S k)); Text "proba"])
                       <$> seq 0 max_multicall).

(** The row of one sample; [round3] is [round(_, 3)]. *)
Definition multicall_row (round3 : Q → Q) (max_multicall : nat) (sample : string)
    (calls : list (string * Q)) : list csv_cell :=
  let to_write := Text sample :: concat ((λ call, [Text call.1; Number (round3 call.2)]) <$> calls) in
  to_write ++ replicate (2 * max_multicall - length to_write) (Text "").

(** The rows written by [for sample in sample_order], up to the first
    sample that is not a key of [multi_calls]. *)
Fixpoint multicall_rows (round3 : Q → Q) (max_multicall : nat)
    (multi_calls : gmap string (list (string * Q))) (sample_order : list string)
    : list file_op * outcome unit :=
  match sample_order with
  | [] => ([], Ret tt)
  | sample :: rest =>
      match multi_calls !! sample with
      | None => ([], Raise (KeyError sample))
      | Some calls =>
          let r := multicall_rows round3 max_multicall multi_calls rest in
          (WriteRow (multicall_row round3 max_multicall sample calls) :: r.1, r.2)
      end
  end.

(** The operations on the file system, and how the call ended ([Ret tt]
    for [return None]). *)
Definition gen_multicall_csv (round3 : Q → Q) (multi_calls : gmap string (list (string * Q)))
    (sample_order : list string) (path : string) : list file_op * outcome unit :=
  if decide (multi_calls = ∅) then ([], Ret tt)
  else
    match py_max_nat ((λ kv, length kv.2) <$> map_to_list multi_calls) with
    | Ret max_multicall =>
        let r := multicall_rows round3 max_multicall multi_calls sample_order in
        (OpenForWriting path :: WriteRow (multicall_header max_multicall) :: r.1, r.2)
    | Exit e => ([], Exit e)
    | Raise x => ([], Raise x)
    end.

(** ** Concrete inputs *)

(** Modelled from the spec: [genSubtypeObjsFromHierarchy] of
    [TALLSorts/stages/subtype_class.py], which is not part of this file.
    One object per row of the table, in table order; a root has level 1
    and a child the level of its parent plus one; [children] lists the
    labels whose parent entry is the label.  Meant for tables without a
    cycle. *)
Fixpoint depth (h : DataFrame string) (fuel : nat) (l : string) : Z :=
  match fuel with
  | O => 1
  | S fuel' =>
      match parent_of h l with
      | Some p => 1 + depth h fuel' p
      | None => 1
      end
  end.

Definition build_subtype_objects (h : DataFrame string) : outcome SubtypeObjects :=
  Ret ((λ r : string * list string,
          (r.1, {| label := r.1;
                   level := depth h (length (rows h)) r.1;
                   parent := parent_of h r.1;
                   children := (filter (λ r', parent_of h r'.1 = Some r.1) (rows h)).*1 |}))
       <$> rows h).

(** Cells holding Python integers. *)
#[global] Instance int_cell : PyValue Z := {|
  truthy z := negb (z =? 0)%Z;
  py_int z := Some z;
  py_float z := Some (Fin (inject_Z z));
  py_str z := pretty z
|}.

(** A two-level hierarchy: roots A and B, and A1 below A. *)
Definition hierarchy_A_B_A1 : DataFrame string :=
  {| columns := ["Parent"]; rows := [("A", [""]); ("B", [""]); ("A1", ["A"])] |}.

Definition objects_A_B_A1 : SubtypeObjects :=
  [("A", {| label := "A"; level := 1; parent := None; children := ["A1"] |});
   ("B", {| label := "B"; level := 1; parent := None; children := [] |});
   ("A1", {| label := "A1"; level := 2; parent := Some "A"; children := [] |})].

(** A flat hierarchy: two roots. *)
Definition hierarchy_A_B : DataFrame string :=
  {| columns := ["Parent"]; rows := [("A", [""]); ("B", [""])] |}.

Definition counts_s1_s2 : DataFrame Q :=
  {| columns := ["G1"; "G2"]; rows := [("s1", [10; 90]%Q); ("s2", [50; 50]%Q)] |}.

(** [s1] is positive for A and A1, [s2] for B. *)
Definition sheet_s1_s2 : DataFrame Q :=
  {| columns := ["A"; "B"; "A1"];
     rows := [("s1", [1; 0; 1]%Q); ("s2", [0; 1; 0]%Q)] |}.

(** [s3] is positive for A1 but not for A. *)
Definition sheet_s3_bad : DataFrame Q :=
  {| columns := ["A"; "B"; "A1"];
     rows := [("s1", [1; 0; 1]%Q); ("s2", [0; 1; 0]%Q); ("s3", [0; 0; 1]%Q)] |}.

(** A small annotation source, given by its table of genes. *)
Definition annotation_of (genes : list Gene) : EnsemblRelease :=
  {| gene_by_id i := snd <$> list_find (λ g, gene_id g = i) genes;
     gene_ids c := gene_id <$> filter (λ g, contig g = c) genes;
     genes_by_name n :=
       match filter (λ g, gene_name g = n) genes with
       | [] => None
       | found => Some found
       end |}.

Definition example_genes : list Gene :=
  [ {| gene_id := "ENSG1"; gene_name := "TAL1"; biotype := "protein_coding"; contig := "1" |};
    {| gene_id := "ENSG2"; gene_name := "KDM5D"; biotype := "protein_coding"; contig := "Y" |};
    {| gene_id := "ENSG3"; gene_name := "XIST"; biotype := "lncRNA"; contig := "X" |};
    {| gene_id := "ENSG4"; gene_name := "MT-CO1"; biotype := "protein_coding"; contig := "MT" |};
    {| gene_id := "ENSG5"; gene_name := "FOXP3"; biotype := "protein_coding"; contig := "X" |};
    {| gene_id := "ENSG6"; gene_name := "MALAT1"; biotype := "lncRNA"; contig := "11" |};
    {| gene_id := "ENSG8"; gene_name := "LMO2"; biotype := "protein_coding"; contig := "11" |} ].

(** Counts per million in exact arithmetic: each count over the total of
    its sample, times a million. *)
Definition exact_cpm (X : DataFrame Q) : DataFrame flt :=
  {| columns := columns X;
     rows := (λ r : string * list Q,
                let total := foldr Qplus 0%Q r.2 in
                (r.1, (λ v, if Qeq_bool total 0 then NaN
                            else Fin (v / total * 1000000)%Q) <$> r.2))
             <$> rows X |}.

(** What is modelled of [LogisticRegression.fit] in scikit-learn: it
    refuses a [y_train] with a single class. *)
Definition sklearn_fit (params : gmap string param) (X_train : DataFrame Q)
    (y_train : list bool) : outcome unit :=
  if bool_decide (true ∈ y_train ∧ false ∈ y_train) then Ret tt
  else Raise (ValueError "This solver needs samples of at least 2 classes in the data").

Definition example_world : Collaborators :=
  {| ensembl_data := annotation_of example_genes;
     conorm_cpm := exact_cpm;
     genSubtypeObjsFromHierarchy := build_subtype_objects;
     logistic_fit := sklearn_fit |}.

(** Counts of two samples over the seven annotated genes and one unknown
    identifier; each sample totals 1000. *)
Definition example_counts : DataFrame Q :=
  {| columns := ["ENSG1"; "ENSG2"; "ENSG3"; "ENSG4"; "ENSG5"; "ENSG6"; "ENSG7"; "ENSG8"];
     rows := [("s1", [400; 100; 100; 100; 200; 50; 47; 3]%Q);
              ("s2", [0; 300; 100; 100; 300; 100; 100; 0]%Q)] |}.

(** The same counts with a sample [s9] that no label sheet mentions. *)
Definition example_counts_s9 : DataFrame Q :=
  {| columns := columns example_counts;
     rows := rows example_counts ++ [("s9", [1; 1; 1; 1; 1; 1; 1; 1]%Q)] |}.

(** A label sheet of the flat hierarchy that also lists a sample [s3]
    absent from the counts. *)
Definition sheet_flat_s3 : DataFrame Q :=
  {| columns := ["A"; "B"];
     rows := [("s1", [1; 0]%Q); ("s2", [0; 1]%Q); ("s3", [1; 0]%Q)] |}.

Definition training_input (X : DataFrame Q) (sheet : DataFrame Q)
    (h : DataFrame string) : UserInput Q Z :=
  {| samples := X; sample_sheet := sheet; hierarchy := h;
     training_params := None; destination := "out"; gene_filter := true;
     gene_labels := "ensembl"; mode := "train"; model_path := None |}.

(** Counts of three samples, and a sheet in which [s1] is positive for A
    and A1, [s2] for A only and [s3] for B: every label has samples of
    both classes in its context. *)
Definition example_counts_3 : DataFrame Q :=
  {| columns := columns example_counts;
     rows := rows example_counts ++ [("s3", [100; 200; 100; 100; 300; 100; 100; 0]%Q)] |}.

Definition sheet_s1_s2_s3 : DataFrame Q :=
  {| columns := ["A"; "B"; "A1"];
     rows := [("s1", [1; 0; 1]%Q); ("s2", [1; 0; 0]%Q); ("s3", [0; 1; 0]%Q)] |}.

(** A parameter table with integer cells: the row of A1 sets [max_iter]
    to 500, the row of A sets it to 0, and B has no row. *)
Definition example_params : DataFrame Z :=
  {| columns := ["max_iter"; "random_state"];
     rows := [("A1", [500; 7]%Z); ("A", [0; 3]%Z)] |}.


(** Counts with two missing cells, to be used for prediction. *)
Definition counts_with_gaps : DataFrame (option Q) :=
  {| columns := ["ENSG1"; "ENSG5"];
     rows := [("s1", [Some 4%Q; None]); ("s2", [None; Some 7%Q])] |}.

Definition prediction_input : UserInput (option Q) Z :=
  {| samples := counts_with_gaps; sample_sheet := sheet_s1_s2;
     hierarchy := hierarchy_A_B_A1; training_params := None;
     destination := "out"; gene_filter := true; gene_labels := "ensembl";
     mode := "test"; model_path := None |}.

(** An annotation in which the name AMBI is carried by two genes. *)
Definition ambiguous_genes : list Gene :=
  [ {| gene_id := "ENSG1"; gene_name := "TAL1"; biotype := "protein_coding"; contig := "1" |};
    {| gene_id := "ENSG10"; gene_name := "AMBI"; biotype := "protein_coding"; contig := "2" |};
    {| gene_id := "ENSG11"; gene_name := "AMBI"; biotype := "lncRNA"; contig := "3" |} ].

Definition example_symbols : list string := ["tal1"; "AMBI"; "ambi"; "NOPE"].

(** ** Reading the checks *)

(** [R] as the relation that [before] decides. *)
Definition decided {A : Type} (before : A → A → bool) : relation A :=
  λ x y, before x y = true.

(** The label [l] occurs in [ls] at least as often as any other. *)
Definition most_frequent (l : string) (ls : list string) : Prop :=
  ∀ x, (occurrences x ls ≤ occurrences l ls)%nat.

(** A table with a repeated label and, besides, a parent that is not a
    label. *)
Definition hierarchy_repeated_B : DataFrame string :=
  {| columns := ["Parent"]; rows := [("A", [""]); ("B", ["Z"]); ("B", [""])] |}.

(** A sheet whose header repeats the column A1. *)
Definition sheet_repeated_A1 : DataFrame Q :=
  {| columns := ["A"; "A1"; "A1"];
     rows := [("s1", [1; 1; 1]%Q); ("s2", [0; 0; 0]%Q)] |}.

(** A sheet with a column C that the hierarchy does not have. *)
Definition sheet_extra_C : DataFrame Q :=
  {| columns := ["A"; "C"; "A1"];
     rows := [("s1", [1; 0; 1]%Q); ("s2", [0; 1; 0]%Q)] |}.

(** Two roots, as objects. *)
Definition objects_A_B : SubtypeObjects :=
  [("A", {| label := "A"; level := 1; parent := None; children := [] |});
   ("B", {| label := "B"; level := 1; parent := None; children := [] |})].

(** A sheet that lists the sample [s1] twice. *)
Definition sheet_repeated_s1 : DataFrame Q :=
  {| columns := ["A"; "B"; "A1"];
     rows := [("s1", [1; 0; 1]%Q); ("s2", [0; 1; 0]%Q); ("s1", [1; 0; 1]%Q)] |}.

(** A sheet without label columns. *)
Definition sheet_no_columns : DataFrame Q :=
  {| columns := []; rows := [("s1", []); ("s2", [])] |}.

(** Any entries will do for a flat hierarchy: here [s1] is positive for
    both roots and [s2] for none. *)
Definition sheet_flat_any : DataFrame Q :=
  {| columns := ["A"; "B"]; rows := [("s1", [1; 1]%Q); ("s2", [0; 0]%Q)] |}.

(** A parameter table with a column that is no keyword of
    [LogisticRegression] known to [param_modifiers]. *)
Definition params_unknown_column : DataFrame Z :=
  {| columns := ["max_iter"; "l1_ratio"];
     rows := [("A", [100; 0]%Z); ("A1", [200; 1]%Z); ("Z", [1; 1]%Z)] |}.

(** ** Reading the trace of [fit_classifier] *)

(** The list [parent_labels] of [fit_classifier]: the root context, then
    the labels that have children, by level. *)
Definition parent_labels (subtypeObjects : SubtypeObjects) : list string :=
  "Level0" :: (sort_by (λ a b, bool_decide (level a.2 ≤ level b.2)%Z)
                 (filter (λ o, children o.2 ≠ []) subtypeObjects)).*1.

(** The context of a scaler event and the label of a classifier event. *)
Definition scaler_label (ev : event) : option string :=
  match ev with
  | FitScaler p _ _ => Some p
  | _ => None
  end.

Definition classifier_label (ev : event) : option string :=
  match ev with
  | FitClassifier l _ _ _ => Some l
  | _ => None
  end.

(** The events that end a trace: the saving of the model after a run that
    succeeded, nothing otherwise. *)
Definition closing_events (destination : string) (o : outcome unit) : list event :=
  match o with
  | Ret _ => [SaveModel (destination +:+ "/custom.pkl.gz")]
  | _ => []
  end.

(** A sheet of the two-level hierarchy that lists samples [s3] and [s4],
    positive for A, of which the counts know nothing. *)
Definition sheet_nested_s3_s4 : DataFrame Q :=
  {| columns := ["A"; "B"; "A1"];
     rows := [("s1", [1; 0; 1]%Q); ("s2", [0; 1; 0]%Q); ("s3", [1; 0; 1]%Q);
              ("s4", [1; 0; 0]%Q)] |}.

(** A sheet of the two-level hierarchy in which no sample is positive
    for A. *)
Definition sheet_nobody_in_A : DataFrame Q :=
  {| columns := ["A"; "B"; "A1"];
     rows := [("s1", [0; 1; 0]%Q); ("s2", [0; 1; 0]%Q)] |}.

(** ** Reading [convert_symbols_to_ensembl] *)

(** The identifier of the one gene that the annotation has under the
    upper-cased symbol, if there is exactly one. *)
Definition resolves_to (db : EnsemblRelease) (s : string) : option string :=
  match genes_by_name db (upper s) with
  | Some [g] => Some (gene_id g)
  | _ => None
  end.

(** The annotation answers for the symbol, with no gene or with several. *)
Definition ambiguous (db : EnsemblRelease) (s : string) : bool :=
  match genes_by_name db (upper s) with
  | Some [_] => false
  | Some _ => true
  | None => false
  end.

(** The query for the symbol raises. *)
Definition unknown (db : EnsemblRelease) (s : string) : bool :=
  match genes_by_name db (upper s) with
  | Some _ => false
  | None => true
  end.

(** Counts whose columns are gene symbols, with one missing cell. *)
Definition symbol_counts : DataFrame (option Q) :=
  {| columns := ["tal1"; "AMBI"; "NOPE"; "TAL1"];
     rows := [("s1", [Some 4%Q; Some 1%Q; None; Some 2%Q]);
              ("s2", [None; Some 5%Q; Some 6%Q; Some 7%Q])] |}.

Definition symbol_input : UserInput (option Q) Z :=
  {| samples := symbol_counts; sample_sheet := sheet_s1_s2;
     hierarchy := hierarchy_A_B_A1; training_params := None;
     destination := "out"; gene_filter := true; gene_labels := "symbol";
     mode := "test"; model_path := None |}.

(** ** Writing the multiple calls *)

(** The row that [gen_multicall_csv] writes for a sample that is a key of
    [multi_calls]. *)
Definition written_row (round3 : Q → Q) (max_multicall : nat)
    (multi_calls : gmap string (list (string * Q))) (sample : string) : file_op :=
  WriteRow (multicall_row round3 max_multicall sample (default [] (multi_calls !! sample))).

(** Two samples, one with two calls and one with a single call. *)
Definition example_multi_calls : gmap string (list (string * Q)) :=
  {[ "s1" := [("A", 9 # 10); ("B", 6 # 10)]; "s2" := [("A", 7 # 10)] ]}.

(** ** The order of the samples in [run_predictions] *)

(** The first position at which [x] occurs in [l]. *)
Fixpoint position (l : list string) (x : string) : option nat :=
  match l with
  | [] => None
  | y :: l' => if decide (y = x) then Some 0%nat else S <$> position l' x
  end.

(** [l.index(x)]; [repr] is Python's [repr] on strings. *)
Definition list_index (repr : string → string) (l : list string) (x : string)
    : outcome nat :=
  match position l x with
  | Some i => Ret i
  | None => Raise (ValueError (repr x +:+ " is not in list"))
  end.

(** [sorted(keys, key=lambda x: index.index(x))]: the sort keys are
    computed for all elements first, and the sort is stable. *)
Definition sample_order (repr : string → string) (keys index : list string)
    : outcome (list string) :=
  keyed ← mapM (λ x, i ← list_index repr index x; Ret (i, x)) keys;
  Ret ((sort_by (λ a b : nat * string, bool_decide (a.1 ≤ b.1)%nat) keyed).*2).

(** The two lines of [run_predictions] that write the multiple calls of
    one level: [keys] are the keys of [multi_calls], in the order in which
    the dictionary yields them, and [index] is [ui.samples.index]. *)
Definition write_multi_calls (repr : string → string) (round3 : Q → Q)
    (keys : list string) (multi_calls : gmap string (list (string * Q)))
    (index : list string) (path : string) : list file_op * outcome unit :=
  match sample_order repr keys index with
  | Ret order => gen_multicall_csv round3 multi_calls order path
  | Exit e => ([], Exit e)
  | Raise x => ([], Raise x)
  end.

(** The position used as the sort key, for a sample of the index. *)
Definition first_position (l : list string) (x : string) : nat :=
  default (length l) (position l x).


(** ** Labels *)

(** The characters ['_'] and ['/']. *)
Definition underscore : Ascii.ascii := Eval cbv in Ascii.ascii_of_nat 95.
Definition slash : Ascii.ascii := Eval cbv in Ascii.ascii_of_nat 47.

(** [s.split(sep)] for a separator of one character. *)
Fixpoint py_split (sep : Ascii.ascii) (s : string) : list string :=
  match s with
  | EmptyString => [EmptyString]
  | String c s' =>
      if decide (c = sep) then EmptyString :: py_split sep s'
      else match py_split sep s' with
           | [] => [String c EmptyString]
           | h :: t => String c h :: t
           end
  end.

(** The characters of a string. *)
Definition chars (s : string) : list Ascii.ascii := String.list_ascii_of_string s.

(** [get_children_of_label]; [int_of] is [int] on strings. *)
Definition get_children_of_label (int_of : string → option Z)
    (subtypeObjects : SubtypeObjects) (label_name : string) : outcome (list string) :=
  let label_name_components := py_split underscore label_name in
  match label_name_components !! 1%nat with
  | None => Raise IndexError
  | Some component =>
      level_num ← converted (int_of component);
      let parent_label := String.concat "_" (drop 2 label_name_components) in
      if decide (level_num = 1%Z) then
        Ret (sort_by String.leb
               (filter (λ i, level <$> dict_get subtypeObjects i = Some 1%Z)
                       subtypeObjects.*1))
      else
        parent_obj ← subscript subtypeObjects parent_label;
        Ret (children parent_obj)
  end.

(** [label.replace(old, new)] for single characters. *)
Fixpoint replace_char (old new : Ascii.ascii) (s : string) : string :=
  match s with
  | EmptyString => EmptyString
  | String c s' => String (if decide (c = old) then new else c) (replace_char old new s')
  end.

Definition clean_label (label : string) : string := replace_char slash underscore label.

(** ** Colours *)

Definition default_label_colours : gmap string string :=
  list_to_map
    [("BCL11B", "#222222"); ("HOXA_KMT2A", "#F9DA49"); ("HOXA_MLLT10", "#91D44B");
     ("NKX2", "#8E3CCE"); ("TAL/LMO", "#DF3524"); ("TLX1", "#367BD8");
     ("TLX3", "#57BFE0"); ("Diverse", "#ED75B2"); ("Unclassified", "#808080");
     ("TAL2", "#E88E8E")].

(** The loop [for i in label_list] under [if use_default]: the colours
    found so far and the labels without a default colour. *)
Definition default_step (st : gmap string string * list string) (i : string)
    : gmap string string * list string :=
  match default_label_colours !! i with
  | Some colour => (<[i := colour]> st.1, st.2)
  | None => (st.1, st.2 ++ [i])
  end.

(** [get_colours_for_labels]; [hue_colour n k] is the hexadecimal code
    that [rgb_to_hex(colorsys.hsv_to_rgb(h, 1, 1))] gives for [h] the
    [k]-th of the [n] points of [np.linspace(0, 1, n)]. *)
Definition get_colours_for_labels (hue_colour : nat → nat → string)
    (label_list : list string) (use_default : bool) : gmap string string :=
  let start := if use_default then foldl default_step (∅, []) label_list
               else (∅, label_list) in
  let label_colours := start.1 in
  let unaccounted_labels := start.2 in
  match unaccounted_labels with
  | [] => label_colours
  | _ =>
      let unaccounted_hues :=
        hue_colour (length unaccounted_labels + 1)
          <$> seq 0 (length unaccounted_labels + 1) in
      foldl (λ colours lh, <[lh.1 := lh.2]> colours) label_colours
            (zip unaccounted_labels unaccounted_hues)
  end.

(** The labels for which [get_colours_for_labels] makes a colour of its
    own. *)
Definition unaccounted (label_list : list string) (use_default : bool) : list string :=
  if use_default then filter (λ i, default_label_colours !! i = None) label_list
  else label_list.

(** * Properties *)

(** ** Generic facts *)

Lemma for_each_Ret {A : Type} (body : A → outcome unit) (xs : list A) :
  for_each body xs = Ret tt ↔ ∀ x, x ∈ xs → body x = Ret tt.
Proof.
  induction xs as [|x xs IH]; simpl.
  - split; [intros _ y Hy; inversion Hy | done].
  - destruct (body x) as [[]| |] eqn:Hx; simpl.
    + rewrite IH. split.
      * intros H y Hy. apply elem_of_cons in Hy as [->|Hy]; auto.
      * intros H y Hy. apply H. by right.
    + split; [done|]. intros H. specialize (H x (list_elem_of_here _ _)). congruence.
    + split; [done|]. intros H. specialize (H x (list_elem_of_here _ _)). congruence.
Qed.

(** When every body returns or exits, the loop exits exactly with the
    error of the first element whose body exits. *)
Lemma for_each_Exit {A : Type} (body : A → outcome unit) (xs : list A) e :
  for_each body xs = Exit e ↔
  ∃ pre x post, xs = pre ++ x :: post ∧ (∀ y, y ∈ pre → body y = Ret tt) ∧ body x = Exit e.
Proof.
  induction xs as [|x xs IH]; simpl.
  - split; [done|]. intros (pre & y & post & H & _). by destruct pre.
  - split.
    + destruct (body x) as [[]| |] eqn:Hx; simpl; [|intros [= ->]|done].
      * intros (pre & y & post & -> & Hpre & Hy)%IH.
        exists (x :: pre), y, post. split_and!; [done| |done].
        intros z [->|Hz]%elem_of_cons; auto.
      * exists [], x, xs. split_and!; [done| |done]. intros y Hy. inversion Hy.
    + intros (pre & y & post & Heq & Hpre & Hy).
      destruct pre as [|p pre']; simpl in Heq; injection Heq as <- ->.
      * by rewrite Hy.
      * rewrite (Hpre x (list_elem_of_here _ _)). simpl. apply IH.
        exists pre', y, post. split_and!; [done| |done].
        intros z Hz. apply Hpre. by right.
Qed.

Lemma for_each_no_raise {A : Type} (body : A → outcome unit) (xs : list A) :
  (∀ x y, x ∈ xs → body x ≠ Raise y) → ∀ y, for_each body xs ≠ Raise y.
Proof.
  induction xs as [|x xs IH]; intros Hb y; simpl; [done|].
  destruct (body x) as [[]| |z] eqn:Hx; simpl; [|done|].
  - apply IH. intros x' y' Hx'. apply Hb. by right.
  - exfalso. by apply (Hb x z); [left|].
Qed.

(** The message for a sample [s3] that is positive for A1 and not for
    A. *)
Example render_negative_for_parent :
  render (NegativeForParent "s3" "A1" "A")
  = "Error: Sample 's3' is positive for 'A1' but negative for its parent 'A'. Exiting.".
Proof. reflexivity. Qed.

(** ** Sorting and counting *)

Lemma insert_by_Permutation {A : Type} (before : A → A → bool) x (l : list A) :
  insert_by before x l ≡ₚ x :: l.
Proof.
  induction l as [|y l IH]; simpl; [done|].
  destruct (before x y); [done|]. rewrite IH. apply Permutation_swap.
Qed.

Lemma sort_by_Permutation {A : Type} (before : A → A → bool) (l : list A) :
  sort_by before l ≡ₚ l.
Proof.
  induction l as [|x l IH]; simpl; [done|].
  rewrite insert_by_Permutation. by rewrite IH.
Qed.

Lemma elem_of_sort_by {A : Type} (before : A → A → bool) (l : list A) x :
  x ∈ sort_by before l ↔ x ∈ l.
Proof. by rewrite sort_by_Permutation. Qed.

Lemma elem_of_uniq seen l x : x ∈ uniq seen l ↔ x ∈ l ∧ x ∉ seen.
Proof.
  revert seen. induction l as [|y l IH]; intros seen; simpl.
  - split; [intros H; inversion H | intros [H _]; inversion H].
  - destruct (decide (y ∈ seen)) as [Hy|Hy].
    + rewrite IH, elem_of_cons. naive_solver.
    + rewrite !elem_of_cons, IH, elem_of_cons.
      destruct (decide (x = y)); naive_solver.
Qed.

Lemma occurrences_cons x y l :
  occurrences x (y :: l) = ((if decide (y = x) then 1 else 0) + occurrences x l)%nat.
Proof.
  unfold occurrences. rewrite filter_cons. by destruct (decide (y = x)).
Qed.

Lemma occurrences_zero x l : occurrences x l = 0%nat ↔ x ∉ l.
Proof.
  induction l as [|y l IH].
  - split; [intros _ H; inversion H | done].
  - rewrite occurrences_cons, not_elem_of_cons.
    destruct (decide (y = x)) as [->|]; [naive_solver lia|].
    simpl. rewrite IH. naive_solver.
Qed.

Lemma NoDup_occurrences l : NoDup l ↔ ∀ x, (occurrences x l ≤ 1)%nat.
Proof.
  induction l as [|y l IH].
  - split; [intros _ x; unfold occurrences; simpl; lia | constructor].
  - rewrite NoDup_cons, IH. split.
    + intros [Hy Hl] x. rewrite occurrences_cons.
      destruct (decide (y = x)) as [->|]; [|apply Hl].
      apply occurrences_zero in Hy. lia.
    + intros H. split.
      * apply occurrences_zero. specialize (H y). rewrite occurrences_cons in H.
        destruct (decide (y = y)); [lia|done].
      * intros x. specialize (H x). rewrite occurrences_cons in H. lia.
Qed.

Lemma elem_of_value_counts l x n :
  (x, n) ∈ value_counts l ↔ x ∈ l ∧ n = occurrences x l.
Proof.
  unfold value_counts. rewrite elem_of_sort_by, list_elem_of_fmap. split.
  - intros (y & [= -> ->] & [Hy _]%elem_of_uniq). done.
  - intros [Hx ->]. exists x. split; [done|].
    apply elem_of_uniq. split; [done|]. intros H. inversion H.
Qed.

Lemma elem_of_duplicate_labels l x n :
  (x, n) ∈ duplicate_labels l ↔ x ∈ l ∧ n = occurrences x l ∧ (1 < n)%nat.
Proof.
  unfold duplicate_labels. rewrite list_elem_of_filter, elem_of_value_counts.
  simpl. naive_solver.
Qed.

Lemma duplicate_labels_nil l : duplicate_labels l = [] ↔ NoDup l.
Proof.
  rewrite NoDup_occurrences. split.
  - intros H x. destruct (decide (occurrences x l ≤ 1)%nat) as [|Hn]; [done|].
    assert ((x, occurrences x l) ∈ duplicate_labels l) as Hin.
    { apply elem_of_duplicate_labels. split_and!; [|done|lia].
      apply dec_stable. intros Hx%occurrences_zero. lia. }
    rewrite H in Hin. inversion Hin.
  - intros H. destruct (duplicate_labels l) as [|[x n] d] eqn:Hd; [done|].
    assert ((x, n) ∈ duplicate_labels l) as Hin by (rewrite Hd; left).
    apply elem_of_duplicate_labels in Hin as (_ & -> & Hn).
    specialize (H x). lia.
Qed.

(** ** [check_hierarchy] *)

Lemma check_hierarchy_Ret h :
  check_hierarchy h = Ret tt ↔
  "Parent" ∈ columns h ∧ NoDup (index h) ∧
  ∀ p, p ∈ column h "Parent" → p ≠ "" → p ∈ index h.
Proof.
  unfold check_hierarchy. destruct (decide _) as [Hc|Hc]; [|naive_solver].
  destruct (duplicate_labels (index h)) as [|[x n] d] eqn:Hd.
  - apply duplicate_labels_nil in Hd. rewrite for_each_Ret. split.
    + intros H. split_and!; [done..|]. intros p Hp Hne.
      specialize (H p Hp). unfold truthy_str in H.
      rewrite bool_decide_eq_false_2 in H by done. simpl in H.
      destruct (bool_decide (p ∈ index h)) eqn:Hb; [|done].
      by apply bool_decide_eq_true in Hb.
    + intros (_ & _ & H) p Hp. unfold truthy_str.
      destruct (decide (p = "")) as [->|Hne]; [done|].
      rewrite bool_decide_eq_false_2 by done.
      rewrite (bool_decide_eq_true_2 _ (H p Hp Hne)). done.
  - split; [done|]. intros (_ & Hnd%duplicate_labels_nil & _). congruence.
Qed.

Lemma check_hierarchy_no_raise h x : check_hierarchy h ≠ Raise x.
Proof.
  unfold check_hierarchy. destruct (decide _); [|done].
  destruct (duplicate_labels _) as [|[??]?]; [|done].
  apply for_each_no_raise. intros p y _. by destruct (_ && _).
Qed.

Lemma check_hierarchy_cases h :
  check_hierarchy h = Ret tt ∨ ∃ e, check_hierarchy h = Exit e.
Proof.
  destruct (check_hierarchy h) as [[]|e|x] eqn:H; [by left|right; eauto|].
  by apply check_hierarchy_no_raise in H.
Qed.

Lemma hierarchy_defect_iff h :
  hierarchy_defect h ↔
  ¬ ("Parent" ∈ columns h ∧ NoDup (index h) ∧
     ∀ p, p ∈ column h "Parent" → p ≠ "" → p ∈ index h).
Proof.
  unfold hierarchy_defect. split.
  - intros [H|[H|(p & Hp & Hne & Hni)]] (Hc & Hd & Hall); naive_solver.
  - intros H. destruct (decide ("Parent" ∈ columns h)); [|by left].
    destruct (decide (NoDup (index h))); [|by right; left].
    right; right.
    destruct (decide (Forall (λ p, p ≠ "" → p ∈ index h) (column h "Parent")))
      as [Hf|Hf].
    + exfalso. apply H. split_and!; [done..|]. rewrite Forall_forall in Hf. auto.
    + apply not_Forall_Exists in Hf; [|apply _].
      apply Exists_exists in Hf as (p & Hp & Hn). simpl in Hn. exists p.
      split; [done|]. destruct (decide (p = "")) as [->|]; [naive_solver|].
      split; [done|]. naive_solver.
Qed.

(** C3. [check_hierarchy] exits with a fatal error exactly when the
    table lacks the 'Parent' column, or some label occurs more than once in
    the label column, or some non-empty parent entry is not a label; a
    table with none of these defects passes. *)
Theorem check_hierarchy_fails_iff_defect (h : DataFrame string) :
  ((∃ e, check_hierarchy h = Exit e) ↔ hierarchy_defect h) ∧
  (check_hierarchy h = Ret tt ↔ ¬ hierarchy_defect h).
Proof.
  pose proof (check_hierarchy_Ret h) as HR.
  pose proof (hierarchy_defect_iff h) as HD.
  destruct (check_hierarchy_cases h) as [Hr|[e He]].
  - split; [|tauto]. split; [intros [e He]; congruence|]. tauto.
  - split; [split; [|eauto]|].
    + intros _. apply HD. rewrite <- HR. congruence.
    + split; [congruence|]. intros Hn. exfalso. apply Hn, HD.
      rewrite <- HR. congruence.
Qed.

Lemma check_hierarchy_fails_iff_defect_witness :
  check_hierarchy hierarchy_A_B_A1 = Ret tt ↔ ¬ hierarchy_defect hierarchy_A_B_A1.
Proof. exact (proj2 (check_hierarchy_fails_iff_defect hierarchy_A_B_A1)). Defined.

(** C2 (counterexample). The table in which A has parent B and B has
    parent A is cyclic, and [check_hierarchy] accepts it. *)
Lemma cyclic_hierarchy_accepted :
  cyclic hierarchy_AB_cycle ∧ check_hierarchy hierarchy_AB_cycle = Ret tt.
Proof.
  split; [|reflexivity].
  exists "A", 2%nat. split_and!; [apply list_elem_of_here | lia | reflexivity].
Qed.

(** C2 (amended). [check_hierarchy] does not look for cycles: a table
    whose parent references form a cycle is rejected only when it also has
    one of the three defects that validation looks for, and passes
    otherwise. *)
Theorem cyclic_hierarchy_passes_iff_no_defect (h : DataFrame string) :
  cyclic h →
  ((∃ e, check_hierarchy h = Exit e) ↔ hierarchy_defect h) ∧
  (check_hierarchy h = Ret tt ↔ ¬ hierarchy_defect h).
Proof.
  intros _. pose proof (check_hierarchy_Ret h) as HR.
  rewrite hierarchy_defect_iff, <- HR.
  destruct (check_hierarchy_cases h) as [Hr|[e He]]; rewrite ?Hr, ?He.
  - split; [|tauto]. split; [by intros [? ?]|]. intros Hn. by destruct Hn.
  - split; [split; [intros _ [=]|eauto]|]. split; [done|]. intros Hn. destruct Hn.
    intros [=].
Qed.

Lemma cyclic_hierarchy_passes_iff_no_defect_witness :
  cyclic hierarchy_AB_cycle ∧
  (check_hierarchy hierarchy_AB_cycle = Ret tt ↔ ¬ hierarchy_defect hierarchy_AB_cycle).
Proof.
  assert (cyclic hierarchy_AB_cycle) as Hc.
  { exists "A", 2%nat. split_and!; [apply list_elem_of_here | lia | reflexivity]. }
  split; [exact Hc|].
  exact (proj2 (cyclic_hierarchy_passes_iff_no_defect hierarchy_AB_cycle Hc)).
Defined.

(** ** [check_training_inputs] *)

Lemma bind_Ret {A B : Type} (a : A) (f : A → outcome B) : (Ret a ≫= f) = f a.
Proof. reflexivity. Qed.

Lemma dict_get_elem_of {V : Type} (d : list (string * V)) k v :
  dict_get d k = Some v → (k, v) ∈ d.
Proof.
  induction d as [|[k' v'] d IH]; simpl; [done|].
  destruct (decide (k' = k)) as [->|]; [intros [= ->]; left|].
  intros H. right. auto.
Qed.

Lemma dict_get_is_Some {V : Type} (d : list (string * V)) k :
  is_Some (dict_get d k) ↔ k ∈ d.*1.
Proof.
  induction d as [|[k' v'] d IH]; simpl.
  - split; [by intros [? ?] | intros H; inversion H].
  - destruct (decide (k' = k)) as [->|Hne].
    + split; [intros _; left | eauto].
    + rewrite IH, elem_of_cons. naive_solver.
Qed.

Lemma ancestor_inv objs l a :
  ancestor objs l a →
  ∃ o p, dict_get objs l = Some o ∧ parent o = Some p ∧ (a = p ∨ ancestor objs p a).
Proof. intros H. inversion H; subst; eauto 10. Qed.

Section check_parents.
Variable objs : SubtypeObjects.
Variable positive : list string.
Variable sample : string.
Hypothesis Hwf : well_formed objs.

Lemma check_parents_Ret_ancestors n l o :
  dict_get objs l = Some o → (level o ≤ Z.of_nat n)%Z →
  check_parents objs positive sample n l = Ret tt →
  ∀ a, ancestor objs l a → a ∈ positive.
Proof.
  revert l o. induction n as [|n IH]; intros l o Hl Hlev Hret a Ha.
  - destruct (Hwf l o Hl). lia.
  - simpl in Hret. unfold subscript in Hret. rewrite Hl in Hret. simpl in Hret.
    apply ancestor_inv in Ha as (o' & p & Hl' & Hp & Hap).
    rewrite Hl in Hl'. injection Hl' as <-. rewrite Hp in Hret.
    destruct (bool_decide (p ∈ positive)) eqn:Hb; [|done].
    apply bool_decide_eq_true in Hb. destruct Hap as [->|Hap]; [done|].
    destruct (Hwf l o Hl) as [_ Hpar].
    destruct (Hpar p Hp) as (po & Hpo & Hlv).
    apply (IH p po); [done|lia|done|done].
Qed.

Lemma check_parents_ancestors_Ret n l :
  is_Some (dict_get objs l) →
  (∀ a, ancestor objs l a → a ∈ positive) →
  check_parents objs positive sample n l = Ret tt.
Proof.
  revert l. induction n as [|n IH]; intros l [o Hl] Hall; [done|].
  simpl. unfold subscript. rewrite Hl. simpl.
  destruct (parent o) as [p|] eqn:Hp; [|done].
  rewrite bool_decide_eq_true_2 by eauto using ancestor_parent.
  destruct (Hwf l o Hl) as [_ Hpar]. destruct (Hpar p Hp) as (po & Hpo & _).
  apply IH; [eauto|]. intros a Ha. eauto using ancestor_step.
Qed.

Lemma check_parents_Exit n l e :
  l ∈ positive →
  check_parents objs positive sample n l = Exit e →
  ∃ cur p, e = NegativeForParent sample cur p ∧ cur ∈ positive ∧
           parent_step objs cur p ∧ p ∉ positive.
Proof.
  revert l. induction n as [|n IH]; intros l Hpos Hex; [done|].
  simpl in Hex. unfold subscript in Hex.
  destruct (dict_get objs l) as [o|] eqn:Hl; [|done]. simpl in Hex.
  destruct (parent o) as [p|] eqn:Hp; [|done].
  destruct (bool_decide (p ∈ positive)) eqn:Hb.
  - apply bool_decide_eq_true in Hb. eauto.
  - apply bool_decide_eq_false in Hb. injection Hex as <-.
    exists l, p. split_and!; [done|done| |done]. by exists o.
Qed.

Lemma check_parents_no_raise n l x :
  is_Some (dict_get objs l) →
  check_parents objs positive sample n l ≠ Raise x.
Proof.
  revert l. induction n as [|n IH]; intros l [o Hl]; [done|].
  simpl. unfold subscript. rewrite Hl. simpl.
  destruct (parent o) as [p|] eqn:Hp; [|done].
  destruct (bool_decide _); [|done].
  destruct (Hwf l o Hl) as [_ Hpar]. destruct (Hpar p Hp) as (po & Hpo & _).
  apply IH. eauto.
Qed.
End check_parents.

Lemma positive_labels_column cols cells l :
  l ∈ positive_labels cols cells → l ∈ cols.
Proof.
  unfold positive_labels. intros ([l' v] & -> & Hin)%list_elem_of_fmap.
  apply list_elem_of_filter in Hin as [_ Hin]. by apply elem_of_zip_l in Hin.
Qed.

Lemma foldl_max_bound zs z :
  (z ≤ foldl Z.max z zs)%Z ∧ ∀ x, x ∈ zs → (x ≤ foldl Z.max z zs)%Z.
Proof.
  revert z. induction zs as [|y zs IH]; intros z; simpl.
  - split; [lia|]. intros x Hx. inversion Hx.
  - destruct (IH (Z.max z y)) as [H1 H2]. split; [lia|].
    intros x [->|Hx]%elem_of_cons; [lia|auto].
Qed.

Lemma py_max_levels (objs : SubtypeObjects) :
  objs ≠ [] →
  ∃ m, py_max ((λ o, level o.2) <$> objs) = Ret m ∧
       ∀ l o, dict_get objs l = Some o → (level o ≤ m)%Z.
Proof.
  destruct objs as [|[l0 o0] objs]; [done|]. intros _. simpl.
  eexists. split; [done|]. intros l o Hl.
  destruct (foldl_max_bound ((λ o, level o.2) <$> objs) (level o0)) as [H1 H2].
  simpl in Hl. destruct (decide (l0 = l)); [by injection Hl as <-|].
  apply H2. apply dict_get_elem_of in Hl.
  apply list_elem_of_fmap. by exists (l, o).
Qed.

Section check_rows.
Variable objs : SubtypeObjects.
Variable cols : list string.
Variable n : nat.
Hypothesis Hwf : well_formed objs.
Hypothesis Hcols : Forall (λ c, c ∈ objs.*1) cols.
Hypothesis Hn : ∀ l o, dict_get objs l = Some o → (level o ≤ Z.of_nat n)%Z.

Lemma positive_label_object (r : string * list Q) l :
  l ∈ positive_labels cols r.2 → is_Some (dict_get objs l).
Proof.
  intros Hl%positive_labels_column. apply dict_get_is_Some.
  rewrite Forall_forall in Hcols. auto.
Qed.

Lemma check_series_Ret (r : string * list Q) : check_series objs cols n r = Ret tt ↔ ¬ row_violation objs cols r.
Proof.
  unfold check_series. simpl. rewrite for_each_Ret. split.
  - intros Hall (l & a & Hl & Ha & Hna). apply Hna.
    destruct (positive_label_object r l Hl) as [o Ho].
    eapply check_parents_Ret_ancestors; eauto.
  - intros Hno l Hl. apply check_parents_ancestors_Ret;
      [done|by eapply positive_label_object|].
    intros a Ha. apply dec_stable. intros Hna. apply Hno.
    by exists l, a.
Qed.

Lemma check_series_Exit (r : string * list Q) e :
  check_series objs cols n r = Exit e →
  ∃ cur p, e = NegativeForParent r.1 cur p ∧ cur ∈ positive_labels cols r.2 ∧
           parent_step objs cur p ∧ p ∉ positive_labels cols r.2.
Proof.
  unfold check_series. simpl.
  intros (pre & l & post & Heq & _ & Hl)%for_each_Exit.
  eapply check_parents_Exit; [|done]. rewrite Heq.
  apply elem_of_app. right. left.
Qed.

Lemma check_series_no_raise (r : string * list Q) x : check_series objs cols n r ≠ Raise x.
Proof.
  unfold check_series. simpl. apply for_each_no_raise.
  intros l y Hl. apply check_parents_no_raise; [done|].
  by eapply positive_label_object.
Qed.

Lemma check_rows_Ret (rs : list (string * list Q)) :
  for_each (check_series objs cols n) rs = Ret tt ↔ Forall (λ r, ¬ row_violation objs cols r) rs.
Proof.
  rewrite for_each_Ret, Forall_forall.
  split; intros Hall r Hr; apply check_series_Ret; auto.
Qed.

Lemma check_rows_violation (rs : list (string * list Q)) :
  Exists (row_violation objs cols) rs →
  ∃ pre r post cur p,
    rs = pre ++ r :: post ∧
    Forall (λ r, ¬ row_violation objs cols r) pre ∧
    row_violation objs cols r ∧
    cur ∈ positive_labels cols r.2 ∧ parent_step objs cur p ∧
    (p ∉ positive_labels cols r.2) ∧
    for_each (check_series objs cols n) rs = Exit (NegativeForParent r.1 cur p).
Proof.
  intros Hex.
  destruct (for_each (check_series objs cols n) rs) as [[]|e|x] eqn:Hres.
  - apply check_rows_Ret in Hres. apply Exists_exists in Hex as (r & Hr & Hv).
    rewrite Forall_forall in Hres. by destruct (Hres r Hr).
  - apply for_each_Exit in Hres as (pre & r & post & -> & Hpre & Hr).
    destruct (check_series_Exit r e Hr) as (cur & p & -> & Hcur & Hp & Hnp).
    exists pre, r, post, cur, p. split_and!; try done.
    + apply Forall_forall. intros r' Hr'. apply check_series_Ret. auto.
    + destruct Hp as (o & Ho & Hpar). exists cur, p.
    split_and!; [done| |done]. by eapply ancestor_parent.
  - exfalso. revert Hres. apply for_each_no_raise.
    intros r y _. apply check_series_no_raise.
Qed.
End check_rows.

Lemma for_each_fmap {A B : Type} (f : A → B) (body : B → outcome unit) (xs : list A) :
  for_each body (f <$> xs) = for_each (λ x, body (f x)) xs.
Proof.
  induction xs as [|x xs IH]; [done|]. rewrite fmap_cons. cbn [for_each].
  by rewrite IH.
Qed.

Lemma for_each_ext {A : Type} (body body' : A → outcome unit) (xs : list A) :
  (∀ x, x ∈ xs → body x = body' x) → for_each body xs = for_each body' xs.
Proof.
  induction xs as [|x xs IH]; intros Heq; simpl; [done|].
  rewrite (Heq x) by left. rewrite IH; [done|]. intros y Hy. apply Heq. by right.
Qed.

Lemma filter_unique_key {C} (rs : list (string * list C)) r :
  NoDup rs.*1 → r ∈ rs → filter (λ r', r'.1 = r.1) rs = [r].
Proof.
  induction rs as [|r0 rs IH]; intros Hnd Hr; [by apply elem_of_nil in Hr|].
  rewrite fmap_cons in Hnd. apply NoDup_cons in Hnd as [Hr0 Hnd].
  rewrite filter_cons. apply elem_of_cons in Hr as [->|Hr].
  - rewrite decide_True by done. f_equal.
    clear IH Hnd. induction rs as [|r1 rs IH]; [done|].
    rewrite filter_cons, decide_False.
    + apply IH. intros Hin. apply Hr0. rewrite fmap_cons. by right.
    + intros Heq. apply Hr0. rewrite fmap_cons, Heq. left.
  - rewrite decide_False; [by apply IH|].
    intros Heq. apply Hr0. rewrite Heq. apply list_elem_of_fmap. by exists r.
Qed.

(** With distinct sample identifiers every sample of the sheet labels one
    row, and the loop over the index is a loop over the rows. *)
Lemma check_rows_unique objs sheet n :
  NoDup (index sheet) →
  for_each (check_row objs sheet n) (index sheet)
  = for_each (check_series objs (columns sheet) n) (rows sheet).
Proof.
  intros Hnd. unfold index. rewrite for_each_fmap. apply for_each_ext.
  intros r Hr. unfold check_row, check_series, positive_index.
  by rewrite (filter_unique_key _ r Hnd Hr).
Qed.

Lemma well_formed_check_sound objs : well_formed_check objs = true → well_formed objs.
Proof.
  unfold well_formed_check. rewrite forallb_forall. intros Hall l o Hl.
  apply dict_get_elem_of, list_elem_of_In in Hl. specialize (Hall _ Hl). simpl in Hall.
  apply andb_prop in Hall as [H1%bool_decide_eq_true H2]. split; [done|].
  intros p Hp. rewrite Hp in H2.
  destruct (dict_get objs p) as [po|]; [|done].
  apply bool_decide_eq_true in H2. eauto.
Qed.

(** The three loops that precede the ancestor check. *)
Lemma sample_loop xs idx :
  for_each (λ i, if bool_decide (i ∈ idx) then Ret tt else Exit (SampleNotInSheet i)) xs
  = match first_missing xs idx with
    | Some s => Exit (SampleNotInSheet s)
    | None => Ret tt
    end.
Proof.
  unfold first_missing. induction xs as [|x xs IH]; simpl; [done|].
  destruct (decide (x ∉ idx)) as [Hx|Hx].
  - by rewrite bool_decide_eq_false_2.
  - rewrite bool_decide_eq_true_2 by (by apply dec_stable). simpl. rewrite IH.
    by destruct (list_find _ xs) as [[??]|].
Qed.

Lemma first_missing_None xs ys : first_missing xs ys = None ↔ Forall (λ x, x ∈ ys) xs.
Proof.
  unfold first_missing. rewrite fmap_None. split.
  - intros Hn%list_find_None. eapply Forall_impl; [exact Hn|].
    intros x. apply dec_stable.
  - intros Hall. apply list_find_None. eapply Forall_impl; [exact Hall|].
    simpl. auto.
Qed.

Lemma first_missing_Some xs ys s :
  first_missing xs ys = Some s →
  ∃ pre post, xs = pre ++ s :: post ∧ Forall (λ x, x ∈ ys) pre ∧ s ∉ ys.
Proof.
  unfold first_missing. intros ([i x] & Hf & ->)%fmap_Some. simpl.
  apply list_find_Some in Hf as (Hi & Hs & Hpre).
  exists (take i xs), (drop (S i) xs). split_and!; [|apply Forall_forall|done].
  - by rewrite take_drop_middle.
  - intros y (j & Hj)%list_elem_of_lookup.
    pose proof (lookup_lt_Some _ _ _ Hj) as Hlt. rewrite length_take in Hlt.
    rewrite lookup_take_lt in Hj by lia. apply dec_stable. eapply Hpre; [done|lia].
Qed.

Lemma label_loop (cols keys : list string) :
  Forall (λ c, c ∈ keys) cols →
  for_each (λ i, if bool_decide (i ∈ keys) then Ret tt else Exit (LabelNotInHierarchy i)) cols
  = Ret tt.
Proof.
  intros Hall. apply for_each_Ret. intros c Hc. rewrite Forall_forall in Hall.
  by rewrite bool_decide_eq_true_2 by auto.
Qed.

Lemma label_loop_Exit (cols keys : list string) e :
  for_each (λ i, if bool_decide (i ∈ keys) then Ret tt else Exit (LabelNotInHierarchy i)) cols
  = Exit e → ∃ l, e = LabelNotInHierarchy l.
Proof.
  intros (pre & l & post & _ & _ & Hl)%for_each_Exit.
  destruct (bool_decide _); [done|]. injection Hl as <-. eauto.
Qed.

(** Once the three earlier checks pass on a non-empty hierarchy,
    [check_training_inputs] is the loop over the samples of the sheet. *)
Lemma check_training_inputs_rows {C} (X : DataFrame C) sheet objs :
  Forall (λ i, i ∈ index sheet) (index X) →
  NoDup (columns sheet) →
  Forall (λ c, c ∈ objs.*1) (columns sheet) →
  objs ≠ [] →
  ∃ m, (∀ l o, dict_get objs l = Some o → (level o ≤ Z.of_nat m)%Z) ∧
       check_training_inputs X sheet objs
       = for_each (check_row objs sheet m) (index sheet).
Proof.
  intros Hidx Hnd Hcols Hne. unfold check_training_inputs.
  rewrite sample_loop. apply first_missing_None in Hidx. rewrite Hidx, bind_Ret.
  apply duplicate_labels_nil in Hnd. rewrite Hnd, bind_Ret.
  rewrite label_loop by done. rewrite bind_Ret.
  destruct (py_max_levels objs Hne) as (m & -> & Hm). rewrite bind_Ret.
  exists (Z.to_nat m). split; [|done]. intros l o Hl. specialize (Hm l o Hl). lia.
Qed.

Lemma training_setup_Exit {C} `{PyValue C} world (ui : UserInput Q C) objs e :
  check_hierarchy (hierarchy ui) = Ret tt →
  genSubtypeObjsFromHierarchy world (hierarchy ui) = Ret objs →
  check_training_inputs (samples ui) (sample_sheet ui) objs = Exit e →
  fit_classifier world ui = ([], Exit e).
Proof.
  intros Hh Hg Hc. unfold fit_classifier, training_setup.
  by rewrite Hh, bind_Ret, Hg, bind_Ret, Hc.
Qed.

Lemma check_rows_Exit_shape objs sheet n (samples : list string) e :
  for_each (check_row objs sheet n) samples = Exit e →
  ∃ s cur p, e = NegativeForParent s cur p.
Proof.
  intros (pre & s & post & _ & _ & Hs)%for_each_Exit. unfold check_row in Hs.
  apply for_each_Exit in Hs as (pre' & l & post' & Heq & _ & Hl).
  apply check_parents_Exit in Hl as (cur & p & -> & _); [eauto|].
  rewrite Heq. apply elem_of_app. right. left.
Qed.

(** C4 (counterexample). The label sheet lists a sample [s3] that the
    counts matrix does not have; the checks pass and training runs to the
    end, fitting the root scaler and both classifiers. *)
Lemma sheet_only_sample_trains :
  "s3" ∈ index sheet_flat_s3 ∧ ("s3" ∉ index example_counts) ∧
  fit_classifier example_world (training_input example_counts sheet_flat_s3 hierarchy_A_B)
  = ([FitScaler "Level0" ["s1"; "s2"] ["ENSG1"; "ENSG5"];
      FitClassifier "A" default_params ["s1"; "s2"] [true; false];
      FitClassifier "B" default_params ["s1"; "s2"] [false; true];
      SaveModel "out/custom.pkl.gz"], Ret tt).
Proof.
  split_and!.
  - apply (bool_decide_unpack _). vm_compute. exact I.
  - apply (bool_decide_unpack _). vm_compute. exact I.
  - vm_compute. reflexivity.
Qed.

(** C4 (amended). Once the hierarchy table has passed validation, and
    before anything is fitted, the samples of the counts matrix are checked
    against the label sheet: the first sample of the counts matrix that the
    sheet does not list makes training exit with an error naming it.  The
    check is one-way: [check_training_inputs] reports a missing sample only
    for a sample of the counts matrix, never for a sample that only the
    sheet lists. *)
Theorem counts_samples_checked_against_sheet {C} `{PyValue C}
    (world : Collaborators) (ui : UserInput Q C) (objs : SubtypeObjects) (s : string) :
  check_hierarchy (hierarchy ui) = Ret tt →
  genSubtypeObjsFromHierarchy world (hierarchy ui) = Ret objs →
  (first_missing (index (samples ui)) (index (sample_sheet ui)) = Some s →
   fit_classifier world ui = ([], Exit (SampleNotInSheet s))) ∧
  (check_training_inputs (samples ui) (sample_sheet ui) objs = Exit (SampleNotInSheet s) ↔
   first_missing (index (samples ui)) (index (sample_sheet ui)) = Some s).
Proof.
  intros Hh Hg.
  assert (first_missing (index (samples ui)) (index (sample_sheet ui)) = Some s →
          check_training_inputs (samples ui) (sample_sheet ui) objs
          = Exit (SampleNotInSheet s)) as Hfwd.
  { intros Hm. unfold check_training_inputs. by rewrite sample_loop, Hm. }
  split; [|split; [|done]].
  - intros Hm. eapply training_setup_Exit; eauto.
  - unfold check_training_inputs. rewrite sample_loop.
    destruct (first_missing _ _) as [s'|]; [by intros [= ->]|].
    rewrite bind_Ret.
    destruct (duplicate_labels _) as [|[??]?]; simpl; [|intros [=]].
    destruct (for_each _ (columns _)) as [[]|e|x] eqn:Hl; simpl.
    + destruct (py_max _) as [m|e|x] eqn:Hpm; simpl; [|intros [= ->]|intros [=]].
      * intros (s1 & cur & p & [=])%check_rows_Exit_shape.
      * unfold py_max in Hpm. by destruct (fmap _ _) in Hpm.
    + apply label_loop_Exit in Hl as [l ->]. intros [=].
    + intros [=].
Qed.

Lemma counts_samples_checked_against_sheet_witness :
  fit_classifier example_world
    (training_input example_counts_s9 sheet_s3_bad hierarchy_A_B_A1)
  = ([], Exit (SampleNotInSheet "s9")).
Proof.
  apply (counts_samples_checked_against_sheet example_world
           (training_input example_counts_s9 sheet_s3_bad hierarchy_A_B_A1)
           objects_A_B_A1 "s9"); reflexivity.
Defined.

(** C1 (counterexample). The sheet marks [s3] positive for A1 and not for
    its parent A, yet the error that ends training names the sample [s9]
    of the counts matrix, which the sheet does not list: neither [s3] nor
    any label. *)
Lemma ancestor_error_preempted :
  genSubtypeObjsFromHierarchy example_world hierarchy_A_B_A1 = Ret objects_A_B_A1 ∧
  ("s3", [0; 0; 1]%Q) ∈ rows sheet_s3_bad ∧
  row_violation objects_A_B_A1 (columns sheet_s3_bad) ("s3", [0; 0; 1]%Q) ∧
  fit_classifier example_world
    (training_input example_counts_s9 sheet_s3_bad hierarchy_A_B_A1)
  = ([], Exit (SampleNotInSheet "s9")).
Proof.
  split_and!; [reflexivity | | |reflexivity].
  - do 2 apply list_elem_of_further. apply list_elem_of_here.
  - exists "A1", "A". split_and!.
    + apply (bool_decide_unpack _). vm_compute. exact I.
    + by eapply ancestor_parent.
    + apply (bool_decide_unpack _). vm_compute. exact I.
Qed.

(** C1 (amended). In a training run whose earlier checks pass (the
    hierarchy table is valid, every sample of the counts matrix is in the
    sheet, the columns of the sheet are distinct labels of a well-formed
    hierarchy) and whose sheet lists no sample twice: if some row of the
    sheet is positive for a label and not
    for one of its ancestors, training exits before anything is fitted, and
    the error names the first such sample in sheet order together with a
    label that is positive for it while the parent of that label is not; a
    sheet in which no row breaks ancestor-positivity passes the check when
    the hierarchy has at least one label. *)
Theorem ancestor_positivity_enforced {C} `{PyValue C}
    (world : Collaborators) (ui : UserInput Q C) (objs : SubtypeObjects) :
  check_hierarchy (hierarchy ui) = Ret tt →
  genSubtypeObjsFromHierarchy world (hierarchy ui) = Ret objs →
  well_formed objs →
  Forall (λ i, i ∈ index (sample_sheet ui)) (index (samples ui)) →
  NoDup (columns (sample_sheet ui)) →
  Forall (λ c, c ∈ objs.*1) (columns (sample_sheet ui)) →
  NoDup (index (sample_sheet ui)) →
  let cols := columns (sample_sheet ui) in
  (Exists (row_violation objs cols) (rows (sample_sheet ui)) →
   ∃ pre r post cur p,
     rows (sample_sheet ui) = pre ++ r :: post ∧
     Forall (λ r', ¬ row_violation objs cols r') pre ∧
     row_violation objs cols r ∧
     cur ∈ positive_labels cols r.2 ∧ parent_step objs cur p ∧
     (p ∉ positive_labels cols r.2) ∧
     fit_classifier world ui = ([], Exit (NegativeForParent r.1 cur p))) ∧
  (objs ≠ [] →
   Forall (λ r, ¬ row_violation objs cols r) (rows (sample_sheet ui)) →
   check_training_inputs (samples ui) (sample_sheet ui) objs = Ret tt).
Proof.
  intros Hh Hg Hwf Hidx Hnd Hcols Hsamples cols. split.
  - intros Hex.
    assert (objs ≠ []) as Hne.
    { apply Exists_exists in Hex as (r & _ & l & _ & Hl & _).
      apply positive_labels_column in Hl. rewrite Forall_forall in Hcols.
      specialize (Hcols l Hl). intros ->. inversion Hcols. }
    destruct (check_training_inputs_rows (samples ui) _ objs Hidx Hnd Hcols Hne)
      as (m & Hm & Heq).
    destruct (check_rows_violation objs cols m Hwf Hcols Hm _ Hex)
      as (pre & r & post & cur & p & Hrows & Hpre & Hr & Hcur & Hp & Hnp & Hres).
    exists pre, r, post, cur, p. split_and!; try done.
    eapply training_setup_Exit; eauto. by rewrite Heq, check_rows_unique.
  - intros Hne Hall.
    destruct (check_training_inputs_rows (samples ui) _ objs Hidx Hnd Hcols Hne)
      as (m & Hm & ->).
    rewrite check_rows_unique by done. by apply check_rows_Ret.
Qed.

Lemma ancestor_positivity_enforced_witness :
  ∃ s cur p,
    fit_classifier example_world
      (training_input example_counts sheet_s3_bad hierarchy_A_B_A1)
    = ([], Exit (NegativeForParent s cur p)).
Proof.
  destruct (ancestor_positivity_enforced example_world
              (training_input example_counts sheet_s3_bad hierarchy_A_B_A1)
              objects_A_B_A1) as [Hbad _].
  - reflexivity.
  - reflexivity.
  - apply well_formed_check_sound. reflexivity.
  - apply (bool_decide_unpack _). vm_compute. exact I.
  - apply (bool_decide_unpack _). vm_compute. exact I.
  - apply (bool_decide_unpack _). vm_compute. exact I.
  - apply (bool_decide_unpack _). vm_compute. exact I.
  - destruct Hbad as (pre & r & post & cur & p & _ & _ & _ & _ & _ & _ & Hfit).
    + apply Exists_exists. exists ("s3", [0; 0; 1]%Q). split.
      * do 2 apply list_elem_of_further. apply list_elem_of_here.
      * exists "A1", "A". split_and!.
        -- apply (bool_decide_unpack _). vm_compute. exact I.
        -- by eapply ancestor_parent.
        -- apply (bool_decide_unpack _). vm_compute. exact I.
    + by exists r.1, cur, p.
Defined.

(** ** [gen_logreg_params] *)


Lemma set_property_Ret {C} `{PyValue C} ps (pv : string * C) ps' :
  set_property ps pv = Ret ps' →
  (truthy pv.2 = false ∧ ps' = ps) ∨
  (truthy pv.2 = true ∧ ∃ x, coerced pv.1 pv.2 = Some x ∧ ps' = <[pv.1 := x]> ps).
Proof.
  unfold set_property, coerced. destruct (truthy pv.2); [|intros [= <-]; by left].
  destruct (param_modifiers !! pv.1) as [m|]; simpl; [|done].
  destruct (apply_modifier m pv.2) as [x|e|y]; simpl; [|done..].
  intros [= <-]. right. eauto.
Qed.

Lemma set_property_convertible {C} `{PyValue C} ps (pv : string * C) :
  (truthy pv.2 = true → is_Some (coerced pv.1 pv.2)) →
  ∃ ps', set_property ps pv = Ret ps'.
Proof.
  unfold set_property, coerced. destruct (truthy pv.2); [|eauto].
  intros [x Hx]; [done|].
  destruct (param_modifiers !! pv.1) as [m|]; simpl in *; [|done].
  destruct (apply_modifier m pv.2) as [x'|e|y]; simpl; [eauto|done..].
Qed.


Lemma row_params_convertible {C} `{PyValue C} (pvs : list (string * C)) ps0 :
  Forall (λ pv, truthy pv.2 = true → is_Some (coerced pv.1 pv.2)) pvs →
  ∃ ps, foldM set_property ps0 pvs = Ret ps.
Proof.
  revert ps0. induction pvs as [|pv pvs IH]; intros ps0 Hall; simpl; [eauto|].
  apply Forall_cons in Hall as [Hpv Hall].
  destruct (set_property_convertible ps0 pv Hpv) as [ps1 ->]. simpl. auto.
Qed.


(** A label with several rows in the table makes [label_params] raise. *)
Lemma label_params_single_row {C} `{PyValue C} (tp : DataFrame C) l ps :
  label_params tp l = Ret ps → (length (rows_of tp l) ≤ 1)%nat.
Proof.
  unfold label_params. destruct (rows_of tp l) as [|row [|row' rest]]; simpl; [lia..|].
  by destruct (bool_decide _).
Qed.

(** The loop [for label in subtypeObjects] stores, for every label, what
    [f] computes for it. *)
Lemma labels_loop_lookup {V : Type} (f : string → outcome V) (ls : list string)
    (m0 m : gmap string V) :
  foldM (λ acc l, v ← f l; Ret (<[l := v]> acc)) m0 ls = Ret m →
  (∀ l, l ∈ ls → ∃ v, f l = Ret v ∧ m !! l = Some v) ∧
  (∀ l, l ∉ ls → m !! l = m0 !! l).
Proof.
  revert m0. induction ls as [|x ls IH]; intros m0 Hf; simpl in Hf.
  - injection Hf as <-. split; [intros l Hl; inversion Hl | done].
  - destruct (f x) as [v|e|y] eqn:Hx; simpl in Hf; [|done..].
    destruct (IH _ Hf) as [Hin Hout]. split.
    + intros l Hl. destruct (decide (l ∈ ls)) as [Hls|Hls]; [auto|].
      apply elem_of_cons in Hl as [->|Hl]; [|done].
      exists v. split; [done|]. by rewrite (Hout x Hls), lookup_insert_eq.
    + intros l [Hne Hl]%not_elem_of_cons.
      by rewrite (Hout l Hl), lookup_insert_ne.
Qed.

Lemma labels_loop_total {V : Type} (f : string → outcome V) (ls : list string)
    (m0 : gmap string V) :
  (∀ l, l ∈ ls → ∃ v, f l = Ret v) →
  ∃ m, foldM (λ acc l, v ← f l; Ret (<[l := v]> acc)) m0 ls = Ret m.
Proof.
  revert m0. induction ls as [|x ls IH]; intros m0 Hall; simpl; [eauto|].
  destruct (Hall x (list_elem_of_here _ _)) as [v ->]. simpl.
  apply IH. intros l Hl. apply Hall. by right.
Qed.

Lemma defaults_loop_lookup (ls : list string) (m0 : gmap string (gmap string param)) l :
  foldl (λ m i, <[i := default_params]> m) m0 ls !! l
  = if decide (l ∈ ls) then Some default_params else m0 !! l.
Proof.
  revert m0. induction ls as [|x ls IH]; intros m0; simpl; [done|].
  rewrite IH. destruct (decide (l ∈ ls)) as [Hl|Hl].
  - rewrite decide_True; [done|by right].
  - destruct (decide (x = l)) as [->|Hne].
    + rewrite lookup_insert_eq. rewrite decide_True; [done|left].
    + rewrite lookup_insert_ne by done. rewrite decide_False; [done|].
      intros [->|?]%elem_of_cons; done.
Qed.

Lemma bind_Ret_inv {A B : Type} (m : outcome A) (f : A → outcome B) b :
  (m ≫= f) = Ret b → ∃ a, m = Ret a ∧ f a = Ret b.
Proof. destruct m as [a|e|x]; simpl; [eauto|done..]. Qed.


Lemma gen_logreg_params_total {C} `{PyValue C} (tp_opt : option (DataFrame C))
    (objs : SubtypeObjects) :
  match tp_opt with
  | Some tp => single_rows tp objs ∧ convertible tp objs
  | None => True
  end →
  ∃ lp, gen_logreg_params tp_opt objs = Ret lp.
Proof.
  destruct tp_opt as [tp|]; simpl; [|eauto]. intros [Hsingle Hconv].
  apply labels_loop_total. intros l Hl. unfold label_params.
  specialize (Hsingle l Hl). specialize (Hconv l).
  destruct (rows_of tp l) as [|row [|row' rest]]; [eauto| |simpl in Hsingle; lia].
  apply row_params_convertible. apply Hconv; [done|left].
Qed.

(** *** The events of [fit_classifier] *)

Lemma run_tasks_events {A : Type} (task : A → outcome event) (xs : list A) ev :
  ev ∈ (run_tasks task xs).1 → ∃ x, x ∈ xs ∧ task x = Ret ev.
Proof.
  induction xs as [|x xs IH]; simpl; [intros Hin; inversion Hin|].
  destruct (task x) as [ev'|e|y] eqn:Hx; simpl; [|intros Hin; inversion Hin..].
  intros [->|Hin]%elem_of_cons.
  - exists x. split; [left|done].
  - destruct (IH Hin) as (x' & Hx' & Ht). exists x'. split; [by right|done].
Qed.

Lemma create_scalers_event world sheet objs X p flag ev :
  create_scalers world sheet objs X p flag = Ret ev → ∃ s g, ev = FitScaler p s g.
Proof.
  unfold create_scalers.
  intros (Xc & _ & (X' & _ & [= <-])%bind_Ret_inv)%bind_Ret_inv. eauto.
Qed.

Lemma performing_training_event world sheet objs scalers lp X l ev :
  performing_training world sheet objs scalers lp X l = Ret ev →
  ∃ ps s y, ev = FitClassifier l ps s y ∧ lp !! l = Some ps.
Proof.
  unfold performing_training.
  intros (ps & Hps & (o & _ & (Xs & _ & (sc & _ & (sh & _ & (col & _ & (u & _ & [= <-])
    %bind_Ret_inv)%bind_Ret_inv)%bind_Ret_inv)%bind_Ret_inv)%bind_Ret_inv)%bind_Ret_inv)
    %bind_Ret_inv.
  destruct (lp !! l) as [ps'|]; [|done]. injection Hps as ->. eauto.
Qed.





(** ** [filter_genes] *)

Lemma filterM_Ret {A : Type} (test : A → outcome bool) (xs ys : list A) :
  filterM test xs = Ret ys →
  ∀ x, x ∈ ys ↔ x ∈ xs ∧ test x = Ret true.
Proof.
  revert ys. induction xs as [|a xs IH]; intros ys; simpl.
  - intros [= <-] x. split; [intros Hx; inversion Hx | intros [Hx _]; inversion Hx].
  - intros (b & Hb & (rest & Hrest & [= <-])%bind_Ret_inv)%bind_Ret_inv x.
    specialize (IH rest Hrest x). destruct b.
    + rewrite !elem_of_cons, IH. naive_solver.
    + rewrite elem_of_cons, IH. split; [naive_solver|].
      intros [[->|Hx] Ht]; [congruence|done].
Qed.

Lemma filterM_total {A : Type} (test : A → outcome bool) (xs : list A) :
  (∀ x, x ∈ xs → ∃ b, test x = Ret b) → ∃ ys, filterM test xs = Ret ys.
Proof.
  induction xs as [|a xs IH]; intros Hall; simpl; [eauto|].
  destruct (Hall a (list_elem_of_here _ _)) as [b ->]. simpl.
  destruct IH as [rest ->]; [intros x Hx; apply Hall; by right|]. simpl. eauto.
Qed.

Lemma annotation_filter_spec db cands X gs :
  genes_by_name db "XIST" = Some (X :: gs) →
  ∃ res, annotation_filter db cands = Ret res ∧
         ∀ g, g ∈ res ↔ g ∈ cands ∧ annotation_keeps db (gene_id X) g.
Proof.
  intros HX. unfold annotation_filter. rewrite HX, bind_Ret.
  set (found := filter (λ i, i ∉ filter (λ i, gene_by_id db i = None) cands) cands).
  set (noY := filter (λ i, i ∉ gene_ids db "Y" ++ [gene_id X]) found).
  assert (∀ g, g ∈ found ↔ g ∈ cands ∧ is_Some (gene_by_id db g)) as Hfound.
  { intros g. unfold found. rewrite !list_elem_of_filter. split.
    - intros [Hn Hg]. split; [done|].
      destruct (gene_by_id db g) eqn:E; [eauto|]. exfalso. by apply Hn.
    - intros [Hg [G HG]]. split; [|done]. intros [HN _]. congruence. }
  assert (∀ g, g ∈ noY → ∃ G, gene_by_id db g = Some G) as HnoY.
  { intros g [_ [_ [G HG]]%Hfound]%list_elem_of_filter. eauto. }
  destruct (filterM_total
              (λ i, g ← lookup_gene db i; Ret (bool_decide (biotype g ∈ ["protein_coding"])))
              noY) as [coding Hcoding].
  { intros g [G HG]%HnoY. unfold lookup_gene. rewrite HG. simpl. eauto. }
  rewrite Hcoding, bind_Ret.
  pose proof (filterM_Ret _ _ _ Hcoding) as Hc.
  destruct (filterM_total
              (λ i, g ← lookup_gene db i; Ret (bool_decide (contig g = "MT")))
              coding) as [MT HMT].
  { intros g [[G HG]%HnoY _]%Hc. unfold lookup_gene. rewrite HG. simpl. eauto. }
  rewrite HMT, bind_Ret.
  pose proof (filterM_Ret _ _ _ HMT) as Hm.
  eexists. split; [done|]. intros g.
  rewrite list_elem_of_filter, Hm, Hc. unfold noY.
  rewrite list_elem_of_filter, Hfound, not_elem_of_app, list_elem_of_singleton.
  unfold annotation_keeps, lookup_gene. split.
  - intros (HnMT & ([HnY Hnx] & Hcand & [G HG]) & Hcod).
    rewrite HG in Hcod, HnMT. simpl in *. injection Hcod as Hcod.
    apply bool_decide_eq_true, list_elem_of_singleton in Hcod.
    split_and!; [done..|]. exists G. split_and!; [done..|].
    intros HMTc. apply HnMT.
    rewrite (bool_decide_eq_true_2 (contig G = "MT")) by done.
    rewrite (bool_decide_eq_true_2 (biotype G ∈ ["protein_coding"]))
      by (by apply list_elem_of_singleton).
    repeat split; eauto.
  - intros (Hcand & HnY & Hnx & G & HG & Hbio & Hcontig). rewrite HG. simpl.
    assert (bool_decide (biotype G ∈ ["protein_coding"]) = true) as Hb.
    { apply bool_decide_eq_true_2. by apply list_elem_of_singleton. }
    rewrite Hb. repeat split; eauto.
    intros (_ & [= Hc']). by apply bool_decide_eq_true in Hc'.
Qed.

Lemma to_remain_spec X X_cpm t m g :
  g ∈ to_remain X X_cpm t m ↔
  ∃ j, columns X !! j = Some g ∧ (m ≤ samples_reaching X_cpm t j)%nat.
Proof.
  unfold to_remain. rewrite list_elem_of_fmap. split.
  - intros ([j c] & -> & [Hm Hin]%list_elem_of_filter).
    apply elem_of_lookup_imap in Hin as (i & y & [= -> ->] & Hi). eauto.
  - intros (j & Hj & Hm). exists (j, g). split; [done|].
    apply list_elem_of_filter. split; [done|].
    apply elem_of_lookup_imap. eauto.
Qed.






Lemma abundance_filter_spec cpm X m cands lib :
  py_min (row_sums X) = Ret lib → ¬ (lib == 0)%Q →
  ∃ res, abundance_filter cpm X m cands = Ret res ∧
    ∀ g, g ∈ res ↔
      g ∈ cands ∧
      ∃ j, columns X !! j = Some g ∧
           (m ≤ samples_reaching (cpm X) (5 / lib * 1000000)%Q j)%nat.
Proof.
  intros Hmin Hnz. unfold abundance_filter. rewrite Hmin, bind_Ret.
  unfold cpm_threshold_of. destruct (Qeq_bool lib 0) eqn:Hz.
  { by apply Qeq_bool_iff in Hz. }
  rewrite bind_Ret. eexists. split; [done|]. intros g.
  rewrite list_elem_of_filter, to_remain_spec. tauto.
Qed.

Lemma filter_genes_steps db cpm X m genes :
  filter_genes db cpm X m = Ret genes →
  ∃ kept res, annotation_filter db (columns X) = Ret kept ∧
              abundance_filter cpm X m kept = Ret res ∧
              ∀ g, g ∈ genes ↔ g ∈ res.
Proof.
  unfold filter_genes.
  intros (kept & Hk & (res & Hr & [= <-])%bind_Ret_inv)%bind_Ret_inv.
  exists kept, res. split_and!; [done..|]. intros g. apply elem_of_sort_by.
Qed.


Lemma abundance_filter_inv cpm X m cands res :
  abundance_filter cpm X m cands = Ret res →
  ∃ lib, py_min (row_sums X) = Ret lib ∧ ¬ (lib == 0)%Q.
Proof.
  unfold abundance_filter.
  intros (lib & Hlib & (t & Ht & _)%bind_Ret_inv)%bind_Ret_inv.
  exists lib. split; [done|]. unfold cpm_threshold_of in Ht.
  intros Hz%Qeq_bool_iff. by rewrite Hz in Ht.
Qed.

(** *** The code against the description *)


Lemma samples_equal_one_marked sheet p subset :
  samples_equal_one sheet p = Ret subset →
  subset = (filter (marked_one sheet p) (rows sheet)).*1.
Proof.
  unfold samples_equal_one. destruct (bool_decide _); [|done]. intros [= <-].
  f_equal. apply list_filter_iff. intros r. unfold marked_one.
  destruct (row_get _ _ _) as [v|]; simpl; [apply Qeq_bool_iff|done].
Qed.








(** C7 (counterexample). FOXP3 lies on the X chromosome and is protein
    coding; it survives the annotation steps, and the whole of
    [filter_genes]. *)
Lemma x_chromosome_gene_survives :
  "ENSG5" ∈ gene_ids (annotation_of example_genes) "X" ∧
  contig <$> gene_by_id (annotation_of example_genes) "ENSG5" = Some "X" ∧
  annotation_filter (annotation_of example_genes) (columns example_counts)
  = Ret ["ENSG1"; "ENSG5"; "ENSG8"] ∧
  filter_genes (annotation_of example_genes) exact_cpm example_counts 1
  = Ret ["ENSG1"; "ENSG5"].
Proof.
  split_and!; [|reflexivity|reflexivity|vm_compute; reflexivity].
  apply (bool_decide_unpack _). vm_compute. exact I.
Qed.

(** C7 (amended). After the annotation steps the surviving identifiers
    are exactly the candidates that the annotation does not list on the Y
    chromosome, that are not the identifier of (the first gene named) XIST,
    and whose annotation record is protein coding and not on the
    mitochondrial contig; identifiers on the X chromosome are not removed
    as such.  The same holds of every identifier that [filter_genes]
    returns. *)
Theorem annotation_steps_survivors (db : EnsemblRelease)
    (cpm : DataFrame Q → DataFrame flt) (X : DataFrame Q) (m : nat)
    (xist : Gene) (others : list Gene) :
  genes_by_name db "XIST" = Some (xist :: others) →
  (∃ kept, annotation_filter db (columns X) = Ret kept ∧
     ∀ g, g ∈ kept ↔ g ∈ columns X ∧ annotation_keeps db (gene_id xist) g) ∧
  (∀ genes g, filter_genes db cpm X m = Ret genes → g ∈ genes →
     annotation_keeps db (gene_id xist) g).
Proof.
  intros HX.
  destruct (annotation_filter_spec db (columns X) xist others HX) as (kept & Hk & Hiff).
  split; [eauto|].
  intros genes g (kept' & res & Hk' & Hres & Hsame)%filter_genes_steps Hg.
  rewrite Hk in Hk'. injection Hk' as <-.
  apply Hsame in Hg. unfold abundance_filter in Hres.
  apply bind_Ret_inv in Hres as (lib & _ & Hres).
  apply bind_Ret_inv in Hres as (t & _ & [= <-]).
  apply list_elem_of_filter in Hg as [_ Hg]. by apply Hiff in Hg as [_ Hg].
Qed.

Lemma annotation_steps_survivors_witness :
  ∃ kept, annotation_filter (annotation_of example_genes) (columns example_counts) = Ret kept ∧
    ∀ g, g ∈ kept ↔ g ∈ columns example_counts ∧
                     annotation_keeps (annotation_of example_genes) "ENSG3" g.
Proof.
  refine (proj1 (annotation_steps_survivors (annotation_of example_genes) exact_cpm
                   example_counts 1
                   {| gene_id := "ENSG3"; gene_name := "XIST"; biotype := "lncRNA";
                      contig := "X" |} [] _)).
  reflexivity.
Defined.

(** ** [run] *)

Lemma cell_fillna {L} (df : Frame L (option Q)) v i j :
  cell (fillna df v) i j
  = match cell df i j with
    | Some (Some q) => Some (Some q)
    | Some None => Some (Some v)
    | None => None
    end.
Proof.
  unfold cell, fillna. simpl. rewrite list_lookup_fmap.
  destruct (rows df !! i) as [r|]; simpl; [|done].
  rewrite list_lookup_fmap. by destruct (r.2 !! j) as [[q|]|].
Qed.

Lemma index_fillna {L} (df : Frame L (option Q)) v : index (fillna df v) = index df.
Proof.
  unfold index, fillna. simpl. rewrite <- list_fmap_compose. by apply list_fmap_ext.
Qed.

(** C8. Whatever [run] hands to prediction or to training is the sample
    matrix as it stands when the [fillna] line is reached, with every
    missing cell replaced by zero and every other cell unchanged: it has the
    same columns and index, no missing cell, and the value of each cell that
    was present.  Unless the gene labels are symbols, the matrix at that
    point is the input matrix itself; with symbols it is the input without
    the columns of the unconfirmed symbols. *)
Theorem run_fills_missing_with_zero {P} (db : EnsemblRelease) (fuel : nat)
    (ui : UserInput (option Q) P) (d : dispatch) :
  run db fuel ui = Some (Ret d) →
  ∃ X0,
    samples_before_fillna db fuel ui = Some (Ret X0) ∧
    (gene_labels ui ≠ "symbol" →
     columns X0 = Name <$> columns (samples ui) ∧ rows X0 = rows (samples ui)) ∧
    (gene_labels ui = "symbol" →
     ∃ c unconfirmed,
       convert_symbols_to_ensembl db fuel (columns (samples ui))
       = Some (Ret (c, unconfirmed)) ∧
       rows X0 = rows (drop_columns (samples ui) unconfirmed)) ∧
    (mode ui = "test" → d = RunPredictions (model_path ui) (fillna X0 0)) ∧
    (mode ui = "train" → d = FitClassifierCall (fillna X0 0)) ∧
    ∀ X, d = RunPredictions (model_path ui) X ∨ d = FitClassifierCall X →
      columns X = columns X0 ∧ index X = index X0 ∧
      ∀ i j, cell X i j = match cell X0 i j with
                          | Some (Some q) => Some (Some q)
                          | Some None => Some (Some 0%Q)
                          | None => None
                          end.
Proof.
  unfold run. destruct (samples_before_fillna db fuel ui) as [[X0|e|x]|] eqn:HX0;
    [|done..].
  intros [= <-]. exists X0. split_and!; [done| | | | |].
  - intros Hns. unfold samples_before_fillna in HX0.
    rewrite decide_False in HX0 by done. by injection HX0 as <-.
  - intros Hs. unfold samples_before_fillna in HX0.
    rewrite decide_True in HX0 by done.
    destruct (convert_symbols_to_ensembl _ _ _) as [[[c u]|e|x]|]; [|done..].
    exists c, u. split; [done|]. injection HX0 as HX0.
    apply bind_Ret_inv in HX0 as (cols & _ & [= <-]). done.
  - intros ->. by rewrite decide_True.
  - intros Hm. rewrite decide_False by (by rewrite Hm). by rewrite decide_True.
  - intros X HX.
    assert (X = fillna X0 0) as ->.
    { destruct (decide (mode ui = "test")); [by destruct HX as [[= <-]|[=]]|].
      destruct (decide (mode ui = "train")); [by destruct HX as [[=]|[= <-]]|].
      by destruct HX. }
    split_and!; [done|apply index_fillna|]. intros i j. apply cell_fillna.
Qed.

Lemma run_fills_missing_with_zero_witness :
  ∃ X0,
    samples_before_fillna (annotation_of example_genes) 0 prediction_input = Some (Ret X0) ∧
    cell (fillna X0 0) 0 1 = Some (Some 0%Q) ∧
    cell (fillna X0 0) 1 1 = Some (Some 7%Q).
Proof.
  destruct (run_fills_missing_with_zero (annotation_of example_genes) 0 prediction_input
              (RunPredictions None
                 (fillna {| columns := Name <$> columns counts_with_gaps;
                            rows := rows counts_with_gaps |} 0)))
    as (X0 & HX0 & _ & _ & _ & _ & Hcells).
  - reflexivity.
  - exists X0. split; [exact HX0|]. injection HX0 as <-. split; reflexivity.
Defined.

(** ** [gen_multicall_csv] *)

Lemma multicall_rows_raise round3 n (mc : gmap string (list (string * Q))) order x :
  (multicall_rows round3 n mc order).2 = Raise x → ∃ k, x = KeyError k.
Proof.
  induction order as [|s order IH]; simpl; [done|].
  destruct (mc !! s) as [calls|]; simpl; [done|]. intros [= <-]. eauto.
Qed.

Lemma foldl_nat_max_bound ns a :
  (a ≤ foldl Nat.max a ns)%nat ∧ ∀ n, n ∈ ns → (n ≤ foldl Nat.max a ns)%nat.
Proof.
  revert a. induction ns as [|b ns IH]; intros a; simpl.
  - split; [lia|]. intros n Hn. inversion Hn.
  - destruct (IH (a `max` b)%nat) as [H1 H2]. split; [lia|].
    intros n [->|Hn]%elem_of_cons; [lia|auto].
Qed.

Lemma call_counts_nonempty (mc : gmap string (list (string * Q))) :
  mc ≠ ∅ → ∃ n, py_max_nat ((λ kv, length kv.2) <$> map_to_list mc) = Ret n.
Proof.
  intros Hne. destruct (map_to_list mc) as [|kv l] eqn:Hl.
  - by apply map_to_list_empty_iff in Hl.
  - simpl. eauto.
Qed.

(** C10. Called with an empty [multi_calls], [gen_multicall_csv] returns
    without touching the file system; otherwise the list of call counts
    whose maximum is taken is not empty, so that [max] returns, and the
    call never ends in the [ValueError] of a maximum over nothing. *)
Theorem gen_multicall_csv_max_is_safe (round3 : Q → Q)
    (multi_calls : gmap string (list (string * Q))) (sample_order : list string)
    (path : string) :
  (multi_calls = ∅ →
   gen_multicall_csv round3 multi_calls sample_order path = ([], Ret tt)) ∧
  (multi_calls ≠ ∅ →
   ∃ n, py_max_nat ((λ kv, length kv.2) <$> map_to_list multi_calls) = Ret n ∧
        (∀ k calls, multi_calls !! k = Some calls → (length calls ≤ n)%nat)) ∧
  (∀ what, (gen_multicall_csv round3 multi_calls sample_order path).2
           ≠ Raise (ValueError what)).
Proof.
  split_and!.
  - intros ->. reflexivity.
  - intros Hne. destruct (call_counts_nonempty multi_calls Hne) as [n Hn].
    exists n. split; [done|]. intros k calls Hk.
    apply elem_of_map_to_list in Hk.
    destruct (map_to_list multi_calls) as [|kv l]; [inversion Hk|].
    simpl in Hn. injection Hn as <-.
    destruct (foldl_nat_max_bound ((λ kv, length kv.2) <$> l) (length kv.2)) as [H1 H2].
    apply elem_of_cons in Hk as [<-|Hk]; [done|].
    apply H2, list_elem_of_fmap. by exists (k, calls).
  - intros what. unfold gen_multicall_csv.
    destruct (decide (multi_calls = ∅)) as [|Hne]; [done|].
    destruct (call_counts_nonempty multi_calls Hne) as [n ->]. simpl.
    intros [k [=]]%multicall_rows_raise.
Qed.

Lemma gen_multicall_csv_max_is_safe_witness :
  gen_multicall_csv (λ q, q) ∅ [] "out/Level_1/multi_calls.csv" = ([], Ret tt).
Proof.
  apply (proj1 (gen_multicall_csv_max_is_safe (λ q, q) ∅ [] "out/Level_1/multi_calls.csv")).
  reflexivity.
Defined.

(** ** [convert_symbols_to_ensembl] *)

Lemma in_values_insert (c : gmap string col_label) i v g :
  c !! i = None → in_values (<[i := v]> c) g ↔ same_gene g v ∨ in_values c g.
Proof. intros Hi. unfold in_values. by rewrite map_Exists_insert. Qed.

Lemma first_pass_step_invariant db st pre i :
  first_pass_invariant db st pre →
  first_pass_invariant db (first_pass_step db st i) (pre ++ [i]).
Proof.
  intros (Hu & Hc & Hsize & Hcov). unfold first_pass_step, first_pass_invariant.
  rewrite length_app. simpl.
  assert (∀ z, genes_by_name db (upper i) = Some z → length z ≠ 1%nat →
    first_pass_invariant db
      {| fp_confirmed := fp_confirmed st;
         fp_unconfirmed := fp_unconfirmed st ++ [i];
         fp_nonexistent := fp_nonexistent st |} (pre ++ [i])) as Hopen.
  { intros z Hz Hlen. split_and!; simpl.
    - intros j [Hj| ->%list_elem_of_singleton]%elem_of_app; [by apply Hu|by exists z].
    - done.
    - rewrite !length_app. simpl. lia.
    - intros s [Hs| ->%list_elem_of_singleton]%elem_of_app.
      + destruct (Hcov s Hs) as [?|[?|?]]; rewrite ?elem_of_app; auto.
      + right; left. apply elem_of_app. right. left. }
  unfold first_pass_invariant in Hopen. rewrite length_app in Hopen. simpl in Hopen.
  destruct (genes_by_name db (upper i)) as [[|g [|g' z]]|] eqn:Hz.
  - by apply (Hopen []).
  - split_and!; simpl.
    + done.
    + intros j [->|[_ Hj]]%elem_of_dom%lookup_insert_is_Some; [eauto|].
      apply Hc. by apply elem_of_dom.
    + pose proof (map_size_insert i (Name (gene_id g)) (fp_confirmed st)) as Hs.
      destruct (fp_confirmed st !! i); simpl in Hs; lia.
    + intros s [Hs| ->%list_elem_of_singleton]%elem_of_app.
      * destruct (Hcov s Hs) as [Hd|[?|?]]; auto.
        left. apply elem_of_dom, lookup_insert_is_Some'. right. by apply elem_of_dom.
      * left. apply elem_of_dom, lookup_insert_is_Some'. by left.
  - by apply (Hopen (g :: g' :: z)).
  - split_and!; simpl.
    + done.
    + done.
    + rewrite !length_app. simpl. lia.
    + intros s [Hs| ->%list_elem_of_singleton]%elem_of_app.
      * destruct (Hcov s Hs) as [?|[?|?]]; rewrite ?elem_of_app; auto.
      * right; right. apply elem_of_app. right. left.
Qed.

Lemma first_pass_fold db l st pre :
  first_pass_invariant db st pre →
  first_pass_invariant db (foldl (first_pass_step db) st l) (pre ++ l).
Proof.
  revert st pre. induction l as [|i l IH]; intros st pre Hinv; simpl.
  - by rewrite app_nil_r.
  - replace (pre ++ i :: l) with ((pre ++ [i]) ++ l) by (by rewrite <- app_assoc).
    apply IH. by apply first_pass_step_invariant.
Qed.

Lemma first_pass_loop_invariant db symb_list :
  loop_invariant db symb_list (fp_nonexistent (first_pass db symb_list))
    (fp_confirmed (first_pass db symb_list)) (fp_unconfirmed (first_pass db symb_list)).
Proof.
  destruct (first_pass_fold db symb_list
              {| fp_confirmed := ∅; fp_unconfirmed := []; fp_nonexistent := [] |} [])
    as (Hu & Hc & Hsize & Hcov).
  { split_and!; simpl.
    - intros i Hi. inversion Hi.
    - intros i Hi. rewrite dom_empty_L in Hi. by apply not_elem_of_empty in Hi.
    - rewrite map_size_empty. lia.
    - intros s Hs. inversion Hs. }
  fold (first_pass db symb_list) in Hu, Hc, Hsize, Hcov. simpl in *.
  split_and!; [|done|done].
  intros i Hi. destruct (Hu i Hi) as (z & Hz & Hlen). exists z. split; [done|].
  intros (g & Hg)%Hc. rewrite Hz in Hg. injection Hg as ->. done.
Qed.

Lemma in_values_filter_nil (c : gmap string col_label) (z : list Gene) :
  Forall (in_values c) z → filter (λ g, ¬ in_values c g) z = [].
Proof.
  induction 1 as [|g z Hg _ IH]; [done|].
  rewrite filter_cons. destruct (decide (¬ in_values c g)); [done|exact IH].
Qed.

(** One iteration of [for i in unconfirmed]. *)
Lemma eliminate_step db st i todo :
  placed_or_open db (confirmed st) (i :: todo ++ unconfirmed2 st) →
  ∃ st', eliminate db st i = Ret st' ∧
    placed_or_open db (confirmed st') (todo ++ unconfirmed2 st') ∧
    (size (confirmed st') + fixed st = size (confirmed st) + fixed st')%nat ∧
    (length (unconfirmed2 st') + fixed st' = S (length (unconfirmed2 st) + fixed st))%nat ∧
    (∀ s, s ∈ dom (confirmed st) ∨ s ∈ i :: todo ++ unconfirmed2 st →
          s ∈ dom (confirmed st') ∨ s ∈ todo ++ unconfirmed2 st').
Proof.
  intros Hopen.
  destruct (Hopen i (list_elem_of_here _ _)) as (z & Hz & Hplaced).
  assert (∀ u2', (∀ s, s ∈ i :: todo ++ unconfirmed2 st ↔ s ∈ todo ++ u2') →
            length u2' = S (length (unconfirmed2 st)) →
            let st' := {| confirmed := confirmed st; fixed := fixed st;
                          unconfirmed2 := u2' |} in
            placed_or_open db (confirmed st') (todo ++ unconfirmed2 st') ∧
            (size (confirmed st') + fixed st = size (confirmed st) + fixed st')%nat ∧
            (length (unconfirmed2 st') + fixed st'
             = S (length (unconfirmed2 st) + fixed st))%nat ∧
            (∀ s, s ∈ dom (confirmed st) ∨ s ∈ i :: todo ++ unconfirmed2 st →
                  s ∈ dom (confirmed st') ∨ s ∈ todo ++ unconfirmed2 st')) as Hkeep.
  { intros u2' Hsame Hlen. simpl. split_and!; [|done|lia|].
    - intros j Hj. apply Hopen. by apply Hsame.
    - intros s [Hs|Hs]; [by left|right; by apply Hsame]. }
  assert (∀ s, s ∈ i :: todo ++ unconfirmed2 st ↔ s ∈ todo ++ (unconfirmed2 st ++ [i]))
    as Hsame.
  { intros s. rewrite elem_of_cons, !elem_of_app, list_elem_of_singleton. tauto. }
  assert (length (unconfirmed2 st ++ [i]) = S (length (unconfirmed2 st))) as Hlen.
  { rewrite length_app. simpl. lia. }
  unfold eliminate. rewrite Hz.
  destruct (filter (λ g, ¬ in_values (confirmed st) g) z) as [|g [|g' y]] eqn:Hy.
  - eexists. split; [done|]. by apply Hkeep.
  - assert (confirmed st !! i = None) as Hfresh.
    { apply not_elem_of_dom. intros Hin.
      rewrite (in_values_filter_nil _ _ (Hplaced Hin)) in Hy. done. }
    eexists. split; [done|]. simpl. split_and!.
    + intros j Hj. destruct (Hopen j) as (zj & Hzj & Hpj); [by right|].
      exists zj. split; [done|]. intros Hdom.
      apply elem_of_dom, lookup_insert_is_Some in Hdom as [<-|[Hne Hdom]].
      * rewrite Hz in Hzj. injection Hzj as <-.
        apply Forall_forall. intros g0 Hg0.
        destruct (decide (in_values (confirmed st) g0)) as [Hv|Hv].
        -- apply in_values_insert; auto.
        -- assert (g0 ∈ [g]) as ->%list_elem_of_singleton.
           { rewrite <- Hy. by apply list_elem_of_filter. }
           apply in_values_insert; [done|]. by left.
      * eapply Forall_impl; [apply Hpj; by apply elem_of_dom|].
        intros g0 Hg0. apply in_values_insert; auto.
    + rewrite map_size_insert_None by done. lia.
    + lia.
    + intros s [Hs|[->|Hs]%elem_of_cons]; [left|left|by right].
      * apply elem_of_dom, lookup_insert_is_Some'. right. by apply elem_of_dom.
      * apply elem_of_dom, lookup_insert_is_Some'. by left.
  - eexists. split; [done|]. by apply Hkeep.
Qed.

Lemma elimination_fold db todo st :
  placed_or_open db (confirmed st) (todo ++ unconfirmed2 st) →
  ∃ st', foldM (eliminate db) st todo = Ret st' ∧
    placed_or_open db (confirmed st') (unconfirmed2 st') ∧
    (size (confirmed st') + fixed st = size (confirmed st) + fixed st')%nat ∧
    (length (unconfirmed2 st') + fixed st'
     = length todo + length (unconfirmed2 st) + fixed st)%nat ∧
    (∀ s, s ∈ dom (confirmed st) ∨ s ∈ todo ++ unconfirmed2 st →
          s ∈ dom (confirmed st') ∨ s ∈ unconfirmed2 st').
Proof.
  revert st. induction todo as [|i todo IH]; intros st Hopen; simpl.
  - exists st. split_and!; [done|done|lia|lia|done].
  - destruct (eliminate_step db st i todo Hopen) as (st1 & -> & H1 & Hs1 & Hl1 & Hc1).
    simpl. destruct (IH st1 H1) as (st' & -> & H2 & Hs2 & Hl2 & Hc2).
    exists st'. split_and!; [done|done|lia|lia|auto].
Qed.

(** One pass of the loop keeps the invariant, adds [fixed] keys to
    [confirmed] and takes as many symbols out of [unconfirmed]. *)
Lemma elimination_pass_invariant db symb_list nonexistent c unconfirmed :
  loop_invariant db symb_list nonexistent c unconfirmed →
  ∃ st, elimination_pass db c unconfirmed = Ret st ∧
    loop_invariant db symb_list nonexistent (confirmed st) (unconfirmed2 st) ∧
    size (confirmed st) = (size c + fixed st)%nat ∧
    (length (unconfirmed2 st) + fixed st)%nat = length unconfirmed.
Proof.
  intros (Hopen & Hsize & Hcov). unfold elimination_pass.
  destruct (elimination_fold db unconfirmed
              {| confirmed := c; fixed := 0; unconfirmed2 := [] |})
    as (st & Hst & Hopen' & Hs & Hl & Hc); simpl in *.
  { by rewrite app_nil_r. }
  exists st. split_and!; [done| |lia|lia].
  split_and!; [done|lia|].
  intros s Hs'. destruct (Hcov s Hs') as [?|[?|?]]; [| |by auto].
  - destruct (Hc s) as [?|?]; auto.
  - destruct (Hc s) as [?|?]; auto. right. by rewrite app_nil_r.
Qed.

Lemma loop_state_invariant db symb_list c unconfirmed fixed_now :
  loop_state db symb_list c unconfirmed fixed_now →
  loop_invariant db symb_list (fp_nonexistent (first_pass db symb_list)) c unconfirmed.
Proof.
  induction 1 as [|c u f st _ IH Hpass]; [apply first_pass_loop_invariant|].
  destruct (elimination_pass_invariant _ _ _ _ _ IH) as (st' & Hst' & Hinv & _).
  rewrite Hpass in Hst'. by injection Hst' as <-.
Qed.

Lemma elimination_loop_terminates db symb_list nonexistent fuel c unconfirmed fixed_now :
  loop_invariant db symb_list nonexistent c unconfirmed →
  (length unconfirmed < fuel)%nat →
  ∃ c' unconfirmed',
    elimination_loop db fuel c unconfirmed fixed_now = Some (Ret (c', unconfirmed')) ∧
    loop_invariant db symb_list nonexistent c' unconfirmed'.
Proof.
  revert c unconfirmed fixed_now.
  induction fuel as [|fuel IH]; intros c u f Hinv Hfuel; [lia|].
  destruct f as [|f]; simpl; [eauto|].
  destruct (elimination_pass_invariant _ _ _ _ _ Hinv) as (st & -> & Hinv' & _ & Hlen).
  destruct (fixed st) as [|k] eqn:Hk.
  - destruct fuel; simpl; eauto.
  - apply IH; [done|lia].
Qed.

(** C9. The elimination loop of [convert_symbols_to_ensembl] ends: every
    pass entered with [fixed > 0] completes and either leaves [fixed = 0],
    which ends the loop, or strictly enlarges [confirmed], whose size never
    exceeds the number of input symbols; with more fuel than there are
    input symbols the function returns, and every input symbol is then a
    key of ['confirmed'] or an element of ['unconfirmed']. *)
Theorem elimination_loop_terminates_and_covers (db : EnsemblRelease)
    (symb_list : list string) :
  (∀ c unconfirmed fixed_before,
     loop_state db symb_list c unconfirmed (S fixed_before) →
     ∃ st, elimination_pass db c unconfirmed = Ret st ∧
       (fixed st = 0%nat ∨ (size c < size (confirmed st))%nat) ∧
       size (confirmed st) = (size c + fixed st)%nat ∧
       (length (unconfirmed2 st) + fixed st)%nat = length unconfirmed ∧
       (size (confirmed st) ≤ length symb_list)%nat) ∧
  (∀ fuel, (length symb_list < fuel)%nat →
     ∃ c unconfirmed,
       convert_symbols_to_ensembl db fuel symb_list = Some (Ret (c, unconfirmed)) ∧
       (size c ≤ length symb_list)%nat ∧
       ∀ s, s ∈ symb_list → s ∈ dom c ∨ s ∈ unconfirmed).
Proof.
  split.
  - intros c u f Hstate%loop_state_invariant.
    destruct (elimination_pass_invariant _ _ _ _ _ Hstate)
      as (st & Hst & (_ & Hsize & _) & Hgrow & Hlen).
    exists st. split_and!; [done| |done|done|lia].
    destruct (fixed st); [by left|right; lia].
  - intros fuel Hfuel. unfold convert_symbols_to_ensembl.
    pose proof (first_pass_loop_invariant db symb_list) as Hinv.
    destruct (elimination_loop_terminates db symb_list _ fuel _ _ 1%nat Hinv)
      as (c & u & -> & (_ & Hsize & Hcov)).
    { destruct Hinv as (_ & Hsize & _). lia. }
    exists c, (u ++ fp_nonexistent (first_pass db symb_list)).
    split_and!; [done|lia|].
    intros s Hs. rewrite elem_of_app. destruct (Hcov s Hs) as [?|[?|?]]; auto.
Qed.

Lemma elimination_loop_terminates_and_covers_witness :
  ∃ c unconfirmed,
    convert_symbols_to_ensembl (annotation_of ambiguous_genes) 5 example_symbols
    = Some (Ret (c, unconfirmed)) ∧
    (size c ≤ length example_symbols)%nat ∧
    ∀ s, s ∈ example_symbols → s ∈ dom c ∨ s ∈ unconfirmed.
Proof.
  apply (proj2 (elimination_loop_terminates_and_covers
                  (annotation_of ambiguous_genes) example_symbols) 5%nat).
  simpl. lia.
Defined.

(** * Further properties *)

From Stdlib Require Import Sorted.

(** ** Sorting *)

Lemma insert_by_Sorted {A : Type} (before : A → A → bool) x (l : list A) :
  (∀ a b, before a b = true ∨ before b a = true) →
  Sorted (decided before) l → Sorted (decided before) (insert_by before x l).
Proof.
  intros Htot. induction 1 as [|y l Hl IH Hy]; simpl.
  - repeat constructor.
  - destruct (before x y) eqn:Hxy.
    + constructor; [by constructor|]. by constructor.
    + assert (decided before y x) as Hyx.
      { destruct (Htot x y) as [?|?]; [congruence|done]. }
      constructor; [done|].
      destruct Hy as [|z l' Hz]; simpl; [by constructor|].
      destruct (before x z); by constructor.
Qed.

Lemma sort_by_Sorted {A : Type} (before : A → A → bool) (l : list A) :
  (∀ a b, before a b = true ∨ before b a = true) →
  Sorted (decided before) (sort_by before l).
Proof.
  intros Htot. induction l as [|x l IH]; simpl; [constructor|].
  by apply insert_by_Sorted.
Qed.

Lemma value_counts_sorted l :
  StronglySorted (decided (λ p q : string * nat, bool_decide (q.2 ≤ p.2)%nat))
    (value_counts l).
Proof.
  apply Sorted_StronglySorted.
  - intros p q r Hpq%bool_decide_eq_true Hqr%bool_decide_eq_true.
    apply bool_decide_eq_true. lia.
  - apply sort_by_Sorted. intros a b. rewrite !bool_decide_eq_true. lia.
Qed.

Lemma StronglySorted_filter_head {A : Type} (R : relation A) (P : A → Prop)
    `{∀ x, Decision (P x)} (l : list A) x rest :
  StronglySorted R l → filter P l = x :: rest →
  P x ∧ x ∈ l ∧ ∀ y, y ∈ l → y = x ∨ R x y ∨ ¬ P y.
Proof.
  induction 1 as [|a l Hl IH Ha]; [done|].
  rewrite filter_cons. destruct (decide (P a)) as [HP|HP].
  - intros [= -> <-]. split_and!; [done|left|].
    intros y [->|Hy]%elem_of_cons; [by left|].
    right; left. rewrite Forall_forall in Ha. auto.
  - intros Hf. destruct (IH Hf) as (HPx & Hx & Hall).
    split_and!; [done|by right|].
    intros y [->|Hy]%elem_of_cons; auto.
Qed.

(** The label named first by [duplicate_labels] is repeated, and no label
    is repeated more often. *)
Lemma duplicate_labels_head l x n rest :
  duplicate_labels l = (x, n) :: rest →
  x ∈ l ∧ n = occurrences x l ∧ (1 < n)%nat ∧ most_frequent x l.
Proof.
  intros Hd.
  assert ((x, n) ∈ duplicate_labels l) as (Hx & -> & Hn)%elem_of_duplicate_labels
    by (rewrite Hd; left).
  split_and!; [done..|]. intros y.
  destruct (decide (y ∈ l)) as [Hy|Hy]; [|apply occurrences_zero in Hy; lia].
  unfold duplicate_labels in Hd.
  destruct (StronglySorted_filter_head _ _ _ _ _ (value_counts_sorted l) Hd)
    as (_ & _ & Hall).
  destruct (Hall (y, occurrences y l)) as [[= ->]|[Hle|Hsmall]].
  - by apply elem_of_value_counts.
  - done.
  - apply bool_decide_eq_true in Hle. simpl in Hle. done.
  - simpl in Hsmall. lia.
Qed.

(** ** What the checks report *)

Lemma membership_loop (mk : string → error) xs ys :
  for_each (λ i, if bool_decide (i ∈ ys) then Ret tt else Exit (mk i)) xs
  = match first_missing xs ys with
    | Some s => Exit (mk s)
    | None => Ret tt
    end.
Proof.
  unfold first_missing. induction xs as [|x xs IH]; simpl; [done|].
  destruct (decide (x ∉ ys)) as [Hx|Hx].
  - by rewrite bool_decide_eq_false_2.
  - rewrite bool_decide_eq_true_2 by (by apply dec_stable). simpl. rewrite IH.
    by destruct (list_find _ xs) as [[??]|].
Qed.

(** X1. When the hierarchy table has its Parent column and some label is
    repeated, validation exits naming a repeated label, one that no other
    label outnumbers; the parent entries are not looked at. *)
Theorem hierarchy_duplicate_reported (h : DataFrame string) :
  "Parent" ∈ columns h → ¬ NoDup (index h) →
  ∃ l, check_hierarchy h = Exit (DuplicateHierarchyLabel l) ∧
       l ∈ index h ∧ (1 < occurrences l (index h))%nat ∧ most_frequent l (index h).
Proof.
  intros Hc Hdup. unfold check_hierarchy. rewrite decide_True by done.
  destruct (duplicate_labels (index h)) as [|[l n] rest] eqn:Hd.
  - by apply duplicate_labels_nil in Hd.
  - apply duplicate_labels_head in Hd as (Hl & -> & Hn & Hmax). eauto.
Qed.

Lemma hierarchy_duplicate_reported_witness :
  ∃ l, check_hierarchy hierarchy_repeated_B = Exit (DuplicateHierarchyLabel l) ∧
       l ∈ index hierarchy_repeated_B ∧
       (1 < occurrences l (index hierarchy_repeated_B))%nat ∧
       most_frequent l (index hierarchy_repeated_B).
Proof.
  apply hierarchy_duplicate_reported.
  - apply (bool_decide_unpack _). vm_compute. exact I.
  - apply (bool_decide_unpack _). vm_compute. exact I.
Defined.

(** X2. Validation exits over a dangling parent exactly when the Parent
    column is there, the labels are distinct and some non-empty parent entry
    is not a label; the parent it names is the first such entry of the
    column. *)
Theorem hierarchy_dangling_reported (h : DataFrame string) (p : string) :
  check_hierarchy h = Exit (DanglingParent p) ↔
  "Parent" ∈ columns h ∧ NoDup (index h) ∧
  ∃ pre post, column h "Parent" = pre ++ p :: post ∧
              Forall (λ q, q = "" ∨ q ∈ index h) pre ∧ p ≠ "" ∧ p ∉ index h.
Proof.
  unfold check_hierarchy. destruct (decide ("Parent" ∈ columns h)) as [Hc|Hc];
    [|split; [done|tauto]].
  destruct (duplicate_labels (index h)) as [|[l n] rest] eqn:Hd.
  - apply duplicate_labels_nil in Hd. rewrite for_each_Exit. split.
    + intros (pre & q & post & Heq & Hpre & Hq). split_and!; [done..|].
      unfold truthy_str in Hq.
      destruct (decide (q = "")) as [->|Hne]; [done|].
      rewrite bool_decide_eq_false_2 in Hq by done. simpl in Hq.
      destruct (decide (q ∈ index h)) as [Hin|Hin].
      { by rewrite bool_decide_eq_true_2 in Hq. }
      rewrite bool_decide_eq_false_2 in Hq by done. injection Hq as ->.
      exists pre, post. split_and!; [done| |done..].
      apply Forall_forall. intros r Hr. specialize (Hpre r Hr).
      unfold truthy_str in Hpre.
      destruct (decide (r = "")) as [->|Hr0]; [by left|right].
      rewrite bool_decide_eq_false_2 in Hpre by done. simpl in Hpre.
      destruct (decide (r ∈ index h)); [done|].
      by rewrite bool_decide_eq_false_2 in Hpre.
    + intros (_ & _ & pre & post & Heq & Hpre & Hne & Hni).
      exists pre, p, post. split_and!; [done| |].
      * intros r Hr. rewrite Forall_forall in Hpre. unfold truthy_str.
        destruct (Hpre r Hr) as [->|Hin]; [done|].
        rewrite (bool_decide_eq_true_2 (r ∈ index h)) by done.
        by destruct (negb _).
      * unfold truthy_str. rewrite bool_decide_eq_false_2 by done.
        by rewrite bool_decide_eq_false_2.
  - split; [done|]. intros (_ & Hnd%duplicate_labels_nil & _). congruence.
Qed.

(** X3. When every sample of the counts matrix is in the sheet and the
    header of the sheet repeats a label, [check_training_inputs] exits
    naming a repeated label that no other outnumbers, whatever the
    hierarchy and the entries of the sheet are. *)
Theorem sheet_duplicate_reported {C} (X : DataFrame C) (sheet : DataFrame Q)
    (objs : SubtypeObjects) :
  Forall (λ i, i ∈ index sheet) (index X) → ¬ NoDup (columns sheet) →
  ∃ l, check_training_inputs X sheet objs = Exit (DuplicateSheetLabel l) ∧
       l ∈ columns sheet ∧ (1 < occurrences l (columns sheet))%nat ∧
       most_frequent l (columns sheet).
Proof.
  intros Hidx Hdup. unfold check_training_inputs.
  rewrite sample_loop. apply first_missing_None in Hidx. rewrite Hidx, bind_Ret.
  destruct (duplicate_labels (columns sheet)) as [|[l n] rest] eqn:Hd.
  - by apply duplicate_labels_nil in Hd.
  - apply duplicate_labels_head in Hd as (Hl & -> & Hn & Hmax). eauto.
Qed.

Lemma sheet_duplicate_reported_witness :
  ∃ l, check_training_inputs example_counts sheet_repeated_A1 objects_A_B_A1
       = Exit (DuplicateSheetLabel l) ∧
       l ∈ columns sheet_repeated_A1 ∧
       (1 < occurrences l (columns sheet_repeated_A1))%nat ∧
       most_frequent l (columns sheet_repeated_A1).
Proof.
  apply sheet_duplicate_reported.
  - apply (bool_decide_unpack _). vm_compute. exact I.
  - apply (bool_decide_unpack _). vm_compute. exact I.
Defined.

(** X4. When the two earlier checks pass, [check_training_inputs] exits
    over a column that is not a hierarchy label exactly for the first such
    column of the sheet. *)
Theorem sheet_label_outside_hierarchy {C} (X : DataFrame C) (sheet : DataFrame Q)
    (objs : SubtypeObjects) (c : string) :
  Forall (λ i, i ∈ index sheet) (index X) → NoDup (columns sheet) →
  (check_training_inputs X sheet objs = Exit (LabelNotInHierarchy c) ↔
   first_missing (columns sheet) objs.*1 = Some c).
Proof.
  intros Hidx Hnd. unfold check_training_inputs.
  rewrite sample_loop. apply first_missing_None in Hidx. rewrite Hidx, bind_Ret.
  apply duplicate_labels_nil in Hnd. rewrite Hnd, bind_Ret.
  rewrite membership_loop.
  destruct (first_missing (columns sheet) objs.*1) as [c'|]; simpl.
  - split; by intros [= ->].
  - split; [|done]. destruct (py_max _) as [m|e|x] eqn:Hm; simpl.
    + intros (? & ? & ? & [=])%check_rows_Exit_shape.
    + unfold py_max in Hm. by destruct (fmap _ _) in Hm.
    + done.
Qed.

Lemma sheet_label_outside_hierarchy_witness :
  check_training_inputs example_counts sheet_extra_C objects_A_B_A1
  = Exit (LabelNotInHierarchy "C").
Proof.
  apply sheet_label_outside_hierarchy.
  - apply (bool_decide_unpack _). vm_compute. exact I.
  - apply (bool_decide_unpack _). vm_compute. exact I.
  - reflexivity.
Defined.

(** X5. With an empty hierarchy [check_training_inputs] never passes: a
    sheet with a label column exits over that column, and a sheet without
    label columns ends in the [ValueError] of [max] over no level. *)
Theorem check_training_inputs_empty_hierarchy {C} (X : DataFrame C)
    (sheet : DataFrame Q) :
  check_training_inputs X sheet [] ≠ Ret tt ∧
  (Forall (λ i, i ∈ index sheet) (index X) → columns sheet = [] →
   check_training_inputs X sheet []
   = Raise (ValueError "max() arg is an empty sequence")) ∧
  (Forall (λ i, i ∈ index sheet) (index X) → NoDup (columns sheet) →
   ∀ c cols, columns sheet = c :: cols →
   check_training_inputs X sheet [] = Exit (LabelNotInHierarchy c)).
Proof.
  unfold check_training_inputs. rewrite sample_loop, membership_loop. split_and!.
  - destruct (first_missing (index X) _); [done|]. rewrite bind_Ret.
    destruct (duplicate_labels _) as [|[??]?]; [|done]. rewrite bind_Ret.
    by destruct (first_missing (columns sheet) _).
  - intros Hidx%first_missing_None ->. by rewrite Hidx.
  - intros Hidx%first_missing_None Hnd%duplicate_labels_nil c cols Hc.
    rewrite Hidx, Hnd, Hc. reflexivity.
Qed.

Lemma check_training_inputs_empty_hierarchy_witness :
  check_training_inputs example_counts sheet_no_columns []
  = Raise (ValueError "max() arg is an empty sequence").
Proof.
  apply (proj1 (proj2 (check_training_inputs_empty_hierarchy example_counts
                         sheet_no_columns))).
  - apply (bool_decide_unpack _). vm_compute. exact I.
  - reflexivity.
Defined.

Lemma check_parents_root objs positive sample n l o :
  dict_get objs l = Some o → parent o = None →
  check_parents objs positive sample n l = Ret tt.
Proof.
  intros Hl Hp. destruct n as [|n]; [done|]. simpl. unfold subscript.
  by rewrite Hl, bind_Ret, Hp.
Qed.

(** X6. A hierarchy without parent links puts no constraint on the
    entries of the sheet: when the earlier checks pass and the sheet lists
    no sample twice, [check_training_inputs] passes whatever the entries
    are. *)
Theorem flat_hierarchy_no_constraint {C} (X : DataFrame C) (sheet : DataFrame Q)
    (objs : SubtypeObjects) :
  objs ≠ [] →
  (∀ l o, dict_get objs l = Some o → parent o = None) →
  Forall (λ i, i ∈ index sheet) (index X) →
  NoDup (columns sheet) →
  Forall (λ c, c ∈ objs.*1) (columns sheet) →
  NoDup (index sheet) →
  check_training_inputs X sheet objs = Ret tt.
Proof.
  intros Hne Hflat Hidx Hnd Hcols Hsamples.
  destruct (check_training_inputs_rows X sheet objs Hidx Hnd Hcols Hne) as (m & _ & ->).
  rewrite check_rows_unique by done.
  apply for_each_Ret. intros r _. unfold check_series. apply for_each_Ret.
  intros l Hl%positive_labels_column.
  rewrite Forall_forall in Hcols.
  destruct (proj2 (dict_get_is_Some objs l) (Hcols l Hl)) as [o Ho].
  eapply check_parents_root; eauto.
Qed.

Lemma flat_hierarchy_no_constraint_witness :
  check_training_inputs example_counts sheet_flat_any objects_A_B = Ret tt.
Proof.
  apply flat_hierarchy_no_constraint.
  - done.
  - intros l o Hl. simpl in Hl. repeat case_decide; by simplify_eq.
  - apply (bool_decide_unpack _). vm_compute. exact I.
  - apply (bool_decide_unpack _). vm_compute. exact I.
  - apply (bool_decide_unpack _). vm_compute. exact I.
  - apply (bool_decide_unpack _). vm_compute. exact I.
Defined.

(** X7. With a non-empty, well-formed hierarchy and a sheet that lists no
    sample twice, [check_training_inputs] ends in no exception: it passes
    or exits with one of its four messages. *)
Theorem check_training_inputs_no_exception {C} (X : DataFrame C)
    (sheet : DataFrame Q) (objs : SubtypeObjects) :
  objs ≠ [] → well_formed objs → NoDup (index sheet) →
  check_training_inputs X sheet objs = Ret tt ∨
  (∃ s, check_training_inputs X sheet objs = Exit (SampleNotInSheet s)) ∨
  (∃ l, check_training_inputs X sheet objs = Exit (DuplicateSheetLabel l)) ∨
  (∃ l, check_training_inputs X sheet objs = Exit (LabelNotInHierarchy l)) ∨
  (∃ s l p, check_training_inputs X sheet objs = Exit (NegativeForParent s l p)).
Proof.
  intros Hne Hwf Hsamples. unfold check_training_inputs.
  rewrite sample_loop, membership_loop.
  destruct (first_missing (index X) (index sheet)) as [s|]; [right; left; eauto|].
  rewrite bind_Ret.
  destruct (duplicate_labels (columns sheet)) as [|[l n] rest];
    [|right; right; left; eauto].
  rewrite bind_Ret.
  destruct (first_missing (columns sheet) objs.*1) as [c|] eqn:Hm;
    [right; right; right; left; eauto|].
  apply first_missing_None in Hm. rewrite bind_Ret.
  destruct (py_max_levels objs Hne) as (m & -> & Hmb). rewrite bind_Ret.
  destruct (for_each _ (index sheet)) as [[]|e|x] eqn:Hres.
  - by left.
  - do 4 right. apply check_rows_Exit_shape in Hres as (s & l & p & ->). eauto.
  - exfalso. revert Hres. rewrite check_rows_unique by done.
    apply for_each_no_raise. intros r y _. by apply check_series_no_raise.
Qed.

Lemma check_training_inputs_no_exception_witness :
  check_training_inputs example_counts sheet_s3_bad objects_A_B_A1 = Ret tt ∨
  (∃ s, check_training_inputs example_counts sheet_s3_bad objects_A_B_A1
        = Exit (SampleNotInSheet s)) ∨
  (∃ l, check_training_inputs example_counts sheet_s3_bad objects_A_B_A1
        = Exit (DuplicateSheetLabel l)) ∨
  (∃ l, check_training_inputs example_counts sheet_s3_bad objects_A_B_A1
        = Exit (LabelNotInHierarchy l)) ∨
  (∃ s l p, check_training_inputs example_counts sheet_s3_bad objects_A_B_A1
            = Exit (NegativeForParent s l p)).
Proof.
  apply check_training_inputs_no_exception.
  - done.
  - apply well_formed_check_sound. reflexivity.
  - apply (bool_decide_unpack _). vm_compute. exact I.
Defined.

Lemma for_each_app_Ret {A : Type} (body : A → outcome unit) (pre rest : list A) :
  (∀ x, x ∈ pre → body x = Ret tt) →
  for_each body (pre ++ rest) = for_each body rest.
Proof.
  induction pre as [|x pre IH]; intros Hpre; [done|]. simpl.
  rewrite (Hpre x) by left. simpl. apply IH. intros y Hy. apply Hpre. by right.
Qed.

Lemma rows_of_name {C} (df : DataFrame C) s r : r ∈ rows_of df s → r.1 = s.
Proof. unfold rows_of. by intros [? _]%list_elem_of_filter. Qed.

(** X30. A sample that the sheet lists more than once, and whose name
    is not a label of the hierarchy, makes [check_training_inputs] end in a
    [KeyError] on that name, once the earlier checks have passed and the
    samples listed before it, each listed once, have passed theirs. *)
Theorem repeated_sample_key_error {C} (X : DataFrame C) (sheet : DataFrame Q)
    (objs : SubtypeObjects) (before : list string) (s : string) (after : list string) :
  objs ≠ [] → well_formed objs →
  Forall (λ i, i ∈ index sheet) (index X) →
  NoDup (columns sheet) →
  Forall (λ c, c ∈ objs.*1) (columns sheet) →
  index sheet = before ++ s :: after →
  Forall (λ s', ∃ r, rows_of sheet s' = [r] ∧ ¬ row_violation objs (columns sheet) r)
         before →
  (1 < length (rows_of sheet s))%nat →
  s ∉ objs.*1 →
  check_training_inputs X sheet objs = Raise (KeyError s).
Proof.
  intros Hne Hwf Hidx Hnd Hcols Hindex Hbefore Hrep Hs.
  destruct (check_training_inputs_rows X sheet objs Hidx Hnd Hcols Hne) as (m & Hm & ->).
  assert (∃ m', m = S m') as [m' ->].
  { destruct objs as [|[l o] objs]; [done|].
    assert (dict_get ((l, o) :: objs) l = Some o) as Hl
      by (simpl; by rewrite decide_True).
    destruct (Hwf l o Hl) as [Hlevel _]. specialize (Hm l o Hl).
    destruct m as [|m']; [lia|eauto]. }
  rewrite Hindex, for_each_app_Ret.
  - assert (check_row objs sheet (S m') s = Raise (KeyError s)) as Hrow.
    { unfold check_row, positive_index. fold (rows_of sheet s).
      destruct (rows_of sheet s) as [|r1 [|r2 found]] eqn:Hfound;
        [simpl in Hrep; lia..|].
      assert (r1.1 = s) as Hr1 by (apply (rows_of_name sheet); rewrite Hfound; left).
      rewrite fmap_cons, Hr1. cbn [for_each check_parents]. unfold subscript.
      destruct (dict_get objs s) as [o|] eqn:Ho; [|done].
      destruct Hs. apply dict_get_is_Some. eauto. }
    cbn [for_each]. by rewrite Hrow.
  - intros s' Hs'. rewrite Forall_forall in Hbefore.
    destruct (Hbefore s' Hs') as (r & Hr & Hok).
    assert (r.1 = s') as <- by (apply (rows_of_name sheet); rewrite Hr; left).
    unfold check_row, positive_index. fold (rows_of sheet r.1). rewrite Hr.
    by apply (check_series_Ret objs (columns sheet) (S m') Hwf Hcols Hm r).
Qed.

Lemma repeated_sample_key_error_witness :
  check_training_inputs example_counts sheet_repeated_s1 objects_A_B_A1
  = Raise (KeyError "s1").
Proof.
  apply (repeated_sample_key_error example_counts sheet_repeated_s1 objects_A_B_A1
           [] "s1" ["s2"; "s1"]).
  - done.
  - apply well_formed_check_sound. reflexivity.
  - apply (bool_decide_unpack _). vm_compute. exact I.
  - apply (bool_decide_unpack _). vm_compute. exact I.
  - apply (bool_decide_unpack _). vm_compute. exact I.
  - reflexivity.
  - constructor.
  - vm_compute. lia.
  - apply (bool_decide_unpack _). vm_compute. exact I.
Defined.

(** ** More on [gen_logreg_params] *)

Lemma row_params_Ret_convertible {C} `{PyValue C} (pvs : list (string * C)) ps0 ps :
  foldM set_property ps0 pvs = Ret ps →
  Forall (λ pv, truthy pv.2 = true → is_Some (coerced pv.1 pv.2)) pvs.
Proof.
  revert ps0. induction pvs as [|pv pvs IH]; intros ps0; simpl; [constructor|].
  intros (ps1 & H1 & Hrest)%bind_Ret_inv. constructor; [|eauto].
  intros Ht. apply set_property_Ret in H1 as [[Hf _]|(_ & x & Hx & _)]; [congruence|eauto].
Qed.

Lemma set_property_no_exit {C} `{PyValue C} ps (pv : string * C) e :
  set_property ps pv ≠ Exit e.
Proof.
  unfold set_property. destruct (truthy pv.2); [|done].
  destruct (param_modifiers !! pv.1) as [m|]; simpl; [|done].
  destruct m; simpl; unfold converted.
  - by destruct (py_int pv.2).
  - by destruct (py_float pv.2).
  - done.
Qed.

Lemma foldM_no_exit {A B : Type} (f : B → A → outcome B) (xs : list A) b e :
  (∀ b' x e', f b' x ≠ Exit e') → foldM f b xs ≠ Exit e.
Proof.
  intros Hf. revert b. induction xs as [|x xs IH]; intros b; simpl; [done|].
  destruct (f b x) as [b'|e'|y] eqn:Hx; simpl; [apply IH| |done].
  by apply Hf in Hx.
Qed.

Lemma label_params_no_exit {C} `{PyValue C} (tp : DataFrame C) l e :
  label_params tp l ≠ Exit e.
Proof.
  unfold label_params. destruct (rows_of tp l) as [|row [|row' rest]]; [done| |].
  - apply foldM_no_exit. intros. apply set_property_no_exit.
  - by destruct (bool_decide _).
Qed.

(** X8. With a parameter table whose columns are distinct,
    [gen_logreg_params] returns exactly when no label of the hierarchy has
    several rows in the table and every truthy cell in the rows of the
    hierarchy's labels stands under one of the seven known keywords and
    converts to its type; otherwise it ends in an exception, never in an
    exit with a message.  Rows of labels outside the hierarchy are not
    looked at. *)
Theorem gen_logreg_params_returns_iff {C} `{PyValue C} (tp : DataFrame C)
    (objs : SubtypeObjects) :
  NoDup (columns tp) →
  ((∃ lp, gen_logreg_params (Some tp) objs = Ret lp)
   ↔ single_rows tp objs ∧ convertible tp objs) ∧
  (∀ e, gen_logreg_params (Some tp) objs ≠ Exit e).
Proof.
  intros _. split.
  - split; [|apply (gen_logreg_params_total (Some tp))].
    intros [lp Hlp]. simpl in Hlp.
    apply labels_loop_lookup in Hlp as [Hin _]. split.
    + intros l Hl. destruct (Hin l Hl) as (ps & Hps & _).
      by eapply label_params_single_row.
    + intros l row Hl Hrow. destruct (Hin l Hl) as (ps & Hps & _).
      unfold label_params in Hps.
      destruct (rows_of tp l) as [|row0 [|row1 rest]].
      * by apply elem_of_nil in Hrow.
      * apply list_elem_of_singleton in Hrow as ->.
        by eapply row_params_Ret_convertible.
      * by destruct (bool_decide _).
  - intros e. simpl. apply foldM_no_exit. intros lp l e'.
    destruct (label_params tp l) as [ps|e''|x] eqn:Hl; simpl; [done| |done].
    by apply label_params_no_exit in Hl.
Qed.

(** X9. The dictionary that [gen_logreg_params] returns has an entry for
    each label of the hierarchy and for nothing else, with or without a
    parameter table. *)
Theorem gen_logreg_params_domain {C} `{PyValue C} (tp_opt : option (DataFrame C))
    (objs : SubtypeObjects) (lp : gmap string (gmap string param)) :
  gen_logreg_params tp_opt objs = Ret lp →
  ∀ l, is_Some (lp !! l) ↔ l ∈ objs.*1.
Proof.
  intros Hg l. destruct tp_opt as [tp|]; simpl in Hg.
  - apply labels_loop_lookup in Hg as [Hin Hout]. split.
    + intros Hs. destruct (decide (l ∈ objs.*1)) as [|Hl]; [done|].
      rewrite (Hout l Hl), lookup_empty in Hs. by destruct Hs.
    + intros Hl. destruct (Hin l Hl) as (ps & _ & ->). eauto.
  - injection Hg as <-. rewrite defaults_loop_lookup.
    destruct (decide (l ∈ objs.*1)); [split; eauto|].
    rewrite lookup_empty. split; [by intros [??]|done].
Qed.

Lemma gen_logreg_params_domain_witness :
  is_Some (foldl (λ m i, <[i := default_params]> m)
                 (∅ : gmap string (gmap string param)) objects_A_B_A1.*1 !! "A1")
  ↔ "A1" ∈ objects_A_B_A1.*1.
Proof.
  apply (gen_logreg_params_domain (C:=Z) None objects_A_B_A1). reflexivity.
Defined.

Lemma gen_logreg_params_returns_iff_witness :
  single_rows example_params objects_A_B_A1 ∧
  convertible example_params objects_A_B_A1.
Proof.
  apply (proj1 (gen_logreg_params_returns_iff example_params objects_A_B_A1
                  ltac:(by apply (bool_decide_unpack _)))).
  eexists. vm_compute. reflexivity.
Defined.

(** ** The trace of [fit_classifier] *)

Lemma scaler_phase_events world sheet objs X flag (ps : list string) :
  Forall (λ ev, is_Some (scaler_label ev))
    (run_tasks (λ p, create_scalers world sheet objs X p flag) ps).1.
Proof.
  apply Forall_forall. intros ev (p & _ & Hp)%run_tasks_events.
  apply create_scalers_event in Hp as (s & g & ->). simpl. eauto.
Qed.

Lemma classifier_phase_events world sheet objs scalers lp X (ls : list string) :
  Forall (λ ev, is_Some (classifier_label ev))
    (run_tasks (performing_training world sheet objs scalers lp X) ls).1.
Proof.
  apply Forall_forall. intros ev (l & _ & Hl)%run_tasks_events.
  apply performing_training_event in Hl as (ps & s & y & -> & _). simpl. eauto.
Qed.

Lemma scaler_phase_labels world sheet objs X flag (ps : list string) :
  (run_tasks (λ p, create_scalers world sheet objs X p flag) ps).2 = Ret tt →
  omap scaler_label (run_tasks (λ p, create_scalers world sheet objs X p flag) ps).1 = ps.
Proof.
  induction ps as [|p ps IH]; simpl; [done|].
  destruct (create_scalers world sheet objs X p flag) as [ev|e|y] eqn:Hp;
    simpl; [|done..].
  intros Hr. apply create_scalers_event in Hp as (s & g & ->). simpl.
  f_equal. by apply IH.
Qed.

Lemma classifier_phase_labels world sheet objs scalers lp X (ls : list string) :
  (run_tasks (performing_training world sheet objs scalers lp X) ls).2 = Ret tt →
  omap classifier_label (run_tasks (performing_training world sheet objs scalers lp X) ls).1 = ls.
Proof.
  induction ls as [|l ls IH]; simpl; [done|].
  destruct (performing_training world sheet objs scalers lp X l) as [ev|e|y] eqn:Hl;
    simpl; [|done..].
  intros Hr. apply performing_training_event in Hl as (ps & s & y' & -> & _). simpl.
  f_equal. by apply IH.
Qed.

Lemma omap_none {A B : Type} (f : A → option B) (l : list A) :
  Forall (λ x, f x = None) l → omap f l = [].
Proof. induction 1 as [|x l Hx _ IH]; simpl; [done|]. by rewrite Hx. Qed.

(** X10. The trace of [fit_classifier] is made of scaler fits, then
    classifier fits, then the saving of the model, which is there exactly
    when the call succeeded; and no classifier is fitted before every
    scaling context, the root one and each label with children, has had
    its scaler fitted. *)
Theorem fit_classifier_trace_order {C} `{PyValue C} (world : Collaborators)
    (ui : UserInput Q C) :
  ∃ scalers classifiers,
    (fit_classifier world ui).1
    = scalers ++ classifiers ++ closing_events (destination ui) (fit_classifier world ui).2 ∧
    Forall (λ ev, is_Some (scaler_label ev)) scalers ∧
    Forall (λ ev, is_Some (classifier_label ev)) classifiers ∧
    (classifiers ≠ [] →
     ∃ objs lp, training_setup world ui = Ret (objs, lp) ∧
                omap scaler_label scalers = parent_labels objs).
Proof.
  unfold fit_classifier.
  destruct (training_setup world ui) as [[objs lp]|e|x];
    [|by exists [], []..].
  set (pa := run_tasks _ ("Level0" :: _)).
  set (pb := run_tasks _ objs.*1).
  destruct (pa.2) as [[]|e|x] eqn:Ha.
  - exists pa.1, pb.1. split_and!.
    + by destruct (pb.2) as [[]|?|?]; simpl; rewrite ?app_nil_r.
    + apply scaler_phase_events.
    + apply classifier_phase_events.
    + intros _. exists objs, lp. split; [done|]. by apply scaler_phase_labels.
  - exists pa.1, []. simpl. rewrite app_nil_r.
    split_and!; [done|apply scaler_phase_events|constructor|done].
  - exists pa.1, []. simpl. rewrite app_nil_r.
    split_and!; [done|apply scaler_phase_events|constructor|done].
Qed.

Lemma fit_classifier_trace_order_witness :
  ∃ scalers classifiers,
    (fit_classifier example_world
       (training_input example_counts sheet_s1_s2 hierarchy_A_B_A1)).1
    = scalers ++ classifiers
      ++ closing_events "out"
           (fit_classifier example_world
              (training_input example_counts sheet_s1_s2 hierarchy_A_B_A1)).2.
Proof.
  destruct (fit_classifier_trace_order example_world
              (training_input example_counts sheet_s1_s2 hierarchy_A_B_A1))
    as (scalers & classifiers & Htrace & _).
  by exists scalers, classifiers.
Defined.

(** X11. When [fit_classifier] succeeds, it has fitted one scaler for
    the root context and one for each label with children, then one
    classifier for each label of the hierarchy, and has saved the model
    last.  Nothing is said of the order of the fits inside each of the two
    groups, which the workers decide. *)
Theorem fit_classifier_success_trace {C} `{PyValue C} (world : Collaborators)
    (ui : UserInput Q C) :
  (fit_classifier world ui).2 = Ret tt →
  ∃ objs lp,
    training_setup world ui = Ret (objs, lp) ∧
    omap scaler_label (fit_classifier world ui).1 ≡ₚ parent_labels objs ∧
    omap classifier_label (fit_classifier world ui).1 ≡ₚ objs.*1 ∧
    last (fit_classifier world ui).1 = Some (SaveModel (destination ui +:+ "/custom.pkl.gz")).
Proof.
  unfold fit_classifier.
  destruct (training_setup world ui) as [[objs lp]|e|x]; [|done..].
  pose proof (scaler_phase_labels world (sample_sheet ui) objs (samples ui)
                (gene_filter ui) (parent_labels objs)) as HLa.
  pose proof (scaler_phase_events world (sample_sheet ui) objs (samples ui)
                (gene_filter ui) (parent_labels objs)) as Hsa.
  unfold parent_labels in HLa, Hsa at 1.
  destruct (run_tasks _ ("Level0" :: _)) as [ea oa]. simpl in *.
  pose proof (classifier_phase_labels world (sample_sheet ui) objs (scaler_entry <$> ea)
                lp (samples ui) objs.*1) as HLb.
  pose proof (classifier_phase_events world (sample_sheet ui) objs (scaler_entry <$> ea)
                lp (samples ui) objs.*1) as Hcb.
  destruct (run_tasks _ objs.*1) as [eb ob]. simpl in *.
  destruct oa as [[]|e|x]; [|done..]. destruct ob as [[]|e|x]; [|done..].
  intros _. exists objs, lp. split; [done|]. simpl.
  rewrite !omap_app. split_and!.
  - rewrite (HLa eq_refl), (omap_none scaler_label eb).
    + simpl. by rewrite app_nil_r.
    + eapply Forall_impl; [exact Hcb|]. by intros [] [??].
  - rewrite (HLb eq_refl), (omap_none classifier_label ea).
    + simpl. by rewrite app_nil_r.
    + eapply Forall_impl; [exact Hsa|]. by intros [] [??].
  - by rewrite !app_assoc, last_snoc.
Qed.

Lemma fit_classifier_success_trace_witness :
  ∃ objs lp,
    training_setup example_world
      (training_input example_counts_3 sheet_s1_s2_s3 hierarchy_A_B_A1) = Ret (objs, lp) ∧
    omap scaler_label
      (fit_classifier example_world
         (training_input example_counts_3 sheet_s1_s2_s3 hierarchy_A_B_A1)).1
    ≡ₚ parent_labels objs ∧
    omap classifier_label
      (fit_classifier example_world
         (training_input example_counts_3 sheet_s1_s2_s3 hierarchy_A_B_A1)).1
    ≡ₚ objs.*1 ∧
    last (fit_classifier example_world
            (training_input example_counts_3 sheet_s1_s2_s3 hierarchy_A_B_A1)).1
    = Some (SaveModel ("out" +:+ "/custom.pkl.gz")).
Proof.
  apply (fit_classifier_success_trace example_world
           (training_input example_counts_3 sheet_s1_s2_s3 hierarchy_A_B_A1)).
  vm_compute. reflexivity.
Defined.

(** ** Row selection and its failures *)

Lemma filter_index_nil {C} (df : DataFrame C) s :
  filter (λ r, r.1 = s) (rows df) = [] ↔ s ∉ index df.
Proof.
  unfold index. induction (rows df) as [|r rs IH]; simpl.
  - split; [intros _ Hin; inversion Hin|done].
  - rewrite filter_cons, not_elem_of_cons.
    destruct (decide (r.1 = s)) as [->|Hne]; [naive_solver|].
    rewrite IH. naive_solver.
Qed.

Lemma mapM_Ret_length {A B : Type} (f : A → outcome B) xs ys :
  mapM f xs = Ret ys → length ys = length xs.
Proof.
  revert ys. induction xs as [|x xs IH]; intros ys; simpl; [by intros [= <-]|].
  intros (y & _ & (ys' & Hys & [= <-])%bind_Ret_inv)%bind_Ret_inv.
  simpl. f_equal. eauto.
Qed.

Lemma loc_missing {C} (df : DataFrame C) labels :
  filter (λ s, s ∉ index df) labels ≠ [] →
  loc df labels = Raise (LabelsNotInIndex (filter (λ s, s ∉ index df) labels)).
Proof. unfold loc. by destruct (filter _ labels). Qed.

Lemma loc_empty {C} (df : DataFrame C) :
  loc df [] = Ret {| columns := columns df; rows := [] |}.
Proof. reflexivity. Qed.

Lemma samples_equal_one_column sheet p :
  p ∈ columns sheet →
  samples_equal_one sheet p = Ret (filter (marked_one sheet p) (rows sheet)).*1.
Proof.
  intros Hp. destruct (samples_equal_one sheet p) as [subset|e|x] eqn:Hs.
  - by apply samples_equal_one_marked in Hs as ->.
  - unfold samples_equal_one in Hs. by destruct (bool_decide _).
  - unfold samples_equal_one in Hs. by rewrite bool_decide_eq_true_2 in Hs.
Qed.

(** X12. Rows are selected with [X.loc[subset_samples]], which fails
    when the counts lack some of the samples: for a context other than the
    root, if some of the samples whose sheet entry for the context's label
    is 1 are missing from the counts matrix, [create_scalers] ends in the
    [KeyError] of [loc], which carries all these samples, with or without
    gene filtering, and so does the training of every label whose parent
    is that context. *)
Theorem sheet_only_sample_key_error (world : Collaborators) (sheet : DataFrame Q)
    (objs : SubtypeObjects) (X : DataFrame Q) (p : string) :
  p ≠ "Level0" → p ∈ columns sheet →
  let subset := (filter (marked_one sheet p) (rows sheet)).*1 in
  let missing := filter (λ s, s ∉ index X) subset in
  missing ≠ [] →
  (∀ flag, create_scalers world sheet objs X p flag = Raise (LabelsNotInIndex missing)) ∧
  (∀ scalers lp l o ps,
     lp !! l = Some ps → dict_get objs l = Some o → parent o = Some p →
     performing_training world sheet objs scalers lp X l
     = Raise (LabelsNotInIndex missing)).
Proof.
  intros Hp Hcol subset missing Hmiss. subst missing subset.
  apply loc_missing in Hmiss.
  pose proof (samples_equal_one_column sheet p Hcol) as Hsub. split.
  - intros flag. unfold create_scalers. rewrite decide_False by done.
    by rewrite Hsub, bind_Ret, Hmiss.
  - intros scalers lp l o ps Hlp Hl Hpar. unfold performing_training, subscript.
    rewrite Hlp, bind_Ret, Hl, bind_Ret, Hpar. simpl.
    rewrite decide_False by done. by rewrite Hsub, bind_Ret, Hmiss.
Qed.

Lemma sheet_only_sample_key_error_witness :
  create_scalers example_world sheet_nested_s3_s4 objects_A_B_A1 example_counts "A" true
  = Raise (LabelsNotInIndex ["s3"; "s4"]).
Proof.
  apply (proj1 (sheet_only_sample_key_error example_world sheet_nested_s3_s4
                  objects_A_B_A1 example_counts "A"
                  ltac:(done) ltac:(by apply (bool_decide_unpack _)) ltac:(done))).
Defined.

(** ** How gene filtering fails, and what it returns *)

Lemma count_equal_one_no_samples {C} (sheet : DataFrame Q) (X : DataFrame C) l :
  rows X = [] → l ∈ columns sheet → count_equal_one sheet X l = Ret 0%nat.
Proof.
  intros HX Hl. unfold count_equal_one, index. rewrite HX. simpl.
  unfold get_column. simpl. by rewrite bool_decide_eq_true_2.
Qed.

Lemma counts_no_samples {C} (sheet : DataFrame Q) (X : DataFrame C) ls :
  rows X = [] → Forall (λ l, l ∈ columns sheet) ls →
  mapM (count_equal_one sheet X) ls = Ret (replicate (length ls) 0%nat).
Proof.
  intros HX. induction 1 as [|l ls Hl _ IH]; simpl; [done|].
  by rewrite count_equal_one_no_samples, bind_Ret, IH.
Qed.

Lemma filter_genes_no_samples db cpm (X : DataFrame Q) m xist others :
  genes_by_name db "XIST" = Some (xist :: others) → rows X = [] →
  filter_genes db cpm X m = Raise (ValueError "min() arg is an empty sequence").
Proof.
  intros Hx HX. unfold filter_genes.
  destruct (annotation_filter_spec db (columns X) xist others Hx) as (kept & -> & _).
  rewrite bind_Ret. unfold abundance_filter, row_sums. by rewrite HX.
Qed.

(** X13. A label with children for which no sample of the sheet has the
    entry 1 leaves its scaling context without samples; with gene filtering
    on, [create_scalers] then ends in the [ValueError] of [min] over no
    library size. *)
Theorem empty_context_value_error (world : Collaborators) (sheet : DataFrame Q)
    (objs : SubtypeObjects) (X : DataFrame Q) (p : string) (o : SubtypeClass)
    (xist : Gene) (others : list Gene) :
  p ≠ "Level0" →
  samples_equal_one sheet p = Ret [] →
  dict_get objs p = Some o →
  children o ≠ [] →
  Forall (λ l, l ∈ columns sheet) (children o) →
  genes_by_name (ensembl_data world) "XIST" = Some (xist :: others) →
  create_scalers world sheet objs X p true
  = Raise (ValueError "min() arg is an empty sequence").
Proof.
  intros Hp Hsub Ho Hch Hcols Hx. unfold create_scalers, subscript.
  rewrite decide_False by done.
  rewrite Hsub, bind_Ret, loc_empty, bind_Ret, Ho. simpl.
  rewrite (counts_no_samples sheet {| columns := columns X; rows := [] |} (children o))
    by done.
  rewrite bind_Ret.
  destruct (children o) as [|c cs]; [done|]. simpl.
  by erewrite filter_genes_no_samples.
Qed.

Lemma empty_context_value_error_witness :
  create_scalers example_world sheet_nobody_in_A objects_A_B_A1 example_counts "A" true
  = Raise (ValueError "min() arg is an empty sequence").
Proof.
  eapply (empty_context_value_error example_world sheet_nobody_in_A objects_A_B_A1
            example_counts "A").
  - done.
  - reflexivity.
  - reflexivity.
  - done.
  - apply (bool_decide_unpack _). vm_compute. exact I.
  - reflexivity.
Defined.

(** X14. [filter_genes] ends in an exception, whatever the counts, when
    the annotation knows no gene named XIST; with XIST known it ends in a
    [ValueError] on counts without samples, and in a [ZeroDivisionError]
    when the smallest library size is zero. *)
Theorem filter_genes_failures (db : EnsemblRelease) (cpm : DataFrame Q → DataFrame flt)
    (X : DataFrame Q) (m : nat) :
  (genes_by_name db "XIST" = None →
   filter_genes db cpm X m = Raise (ValueError "No results found for query")) ∧
  (genes_by_name db "XIST" = Some [] → filter_genes db cpm X m = Raise IndexError) ∧
  (∀ xist others, genes_by_name db "XIST" = Some (xist :: others) →
     (rows X = [] →
      filter_genes db cpm X m = Raise (ValueError "min() arg is an empty sequence")) ∧
     (∀ lib, py_min (row_sums X) = Ret lib → (lib == 0)%Q →
      filter_genes db cpm X m = Raise ZeroDivisionError)).
Proof.
  split_and!.
  - intros Hx. unfold filter_genes, annotation_filter. by rewrite Hx.
  - intros Hx. unfold filter_genes, annotation_filter. by rewrite Hx.
  - intros xist others Hx. split; [by eapply filter_genes_no_samples|].
    intros lib Hlib Hz. unfold filter_genes.
    destruct (annotation_filter_spec db (columns X) xist others Hx) as (kept & -> & _).
    rewrite bind_Ret. unfold abundance_filter. rewrite Hlib, bind_Ret.
    unfold cpm_threshold_of. apply Qeq_bool_iff in Hz. by rewrite Hz.
Qed.

Lemma filter_genes_failures_witness :
  filter_genes (annotation_of ambiguous_genes) exact_cpm example_counts 1
  = Raise (ValueError "No results found for query").
Proof.
  apply (proj1 (filter_genes_failures (annotation_of ambiguous_genes) exact_cpm
                  example_counts 1)).
  reflexivity.
Defined.

Lemma filterM_sublist {A : Type} (test : A → outcome bool) (xs ys : list A) :
  filterM test xs = Ret ys → ys `sublist_of` xs.
Proof.
  revert ys. induction xs as [|x xs IH]; intros ys; simpl.
  - intros [= <-]. constructor.
  - intros (b & _ & (rest & Hrest & [= <-])%bind_Ret_inv)%bind_Ret_inv.
    destruct b; [apply sublist_skip|apply sublist_cons]; auto.
Qed.

Lemma annotation_filter_sublist db cands kept :
  annotation_filter db cands = Ret kept → kept `sublist_of` cands.
Proof.
  unfold annotation_filter.
  intros (xist & _ & (coding & Hc & (MT & _ & [= <-])%bind_Ret_inv)%bind_Ret_inv)%bind_Ret_inv.
  etrans; [apply sublist_filter|].
  etrans; [by eapply filterM_sublist|].
  etrans; [apply sublist_filter|]. apply sublist_filter.
Qed.

Lemma abundance_filter_sublist cpm X m cands res :
  abundance_filter cpm X m cands = Ret res → res `sublist_of` cands.
Proof.
  unfold abundance_filter.
  intros (lib & _ & (t & _ & [= <-])%bind_Ret_inv)%bind_Ret_inv.
  apply sublist_filter.
Qed.

(** X15. The identifiers that [filter_genes] returns are in ascending
    order, and they are column labels of the counts it was given, each at
    most as often as it labels a column: distinct when the columns are. *)
Theorem filter_genes_sorted_columns (db : EnsemblRelease)
    (cpm : DataFrame Q → DataFrame flt) (X : DataFrame Q) (m : nat)
    (genes : list string) :
  filter_genes db cpm X m = Ret genes →
  Sorted (decided String.leb) genes ∧
  genes ⊆+ columns X ∧
  (∀ g, g ∈ genes → g ∈ columns X) ∧
  (NoDup (columns X) → NoDup genes) ∧
  (length genes ≤ length (columns X))%nat.
Proof.
  unfold filter_genes.
  intros (kept & Hk & (res & Hr & [= <-])%bind_Ret_inv)%bind_Ret_inv.
  assert (res `sublist_of` columns X) as Hsl.
  { etrans; [by eapply abundance_filter_sublist|].
    by eapply annotation_filter_sublist. }
  assert (sort_by String.leb res ⊆+ columns X) as Hsub.
  { rewrite sort_by_Permutation. by apply sublist_submseteq. }
  split_and!; [|done| | |].
  - apply sort_by_Sorted. apply String.leb_total.
  - intros g Hg. by eapply elem_of_submseteq.
  - intros Hnd. rewrite sort_by_Permutation. by eapply sublist_NoDup.
  - by apply submseteq_length.
Qed.

Lemma filter_genes_sorted_columns_witness :
  Sorted (decided String.leb) ["ENSG1"; "ENSG5"] ∧
  ["ENSG1"; "ENSG5"] ⊆+ columns example_counts.
Proof.
  destruct (filter_genes_sorted_columns (annotation_of example_genes) exact_cpm
              example_counts 1 ["ENSG1"; "ENSG5"]) as (Hs & Hsub & _).
  - vm_compute. reflexivity.
  - by split.
Defined.

Lemma to_remain_zero X X_cpm t : to_remain X X_cpm t 0 = columns X.
Proof.
  unfold to_remain.
  assert (∀ (l : list (nat * string)),
            filter (λ jc, (0 ≤ samples_reaching X_cpm t jc.1)%nat) l = l) as ->.
  { induction l as [|a l IH]; [done|]. rewrite filter_cons.
    destruct (decide _); [by rewrite IH|lia]. }
  rewrite fmap_imap. generalize (columns X). intros cols.
  induction cols as [|c cols IH]; [done|].
  rewrite imap_cons. simpl. f_equal. rewrite <- IH at 2. by apply imap_ext.
Qed.

Lemma filter_all {A : Type} (P : A → Prop) `{∀ x, Decision (P x)} (l : list A) :
  Forall P l → filter P l = l.
Proof.
  induction 1 as [|x l Hx _ IH]; [done|].
  rewrite filter_cons, decide_True by done. by rewrite IH.
Qed.

(** X16. The abundance step only takes candidates away, keeping their
    order; it takes away more as [min_subtype] grows; and with
    [min_subtype = 0], which is what a child label without a positive
    sample in the context gives, it keeps every candidate that passed the
    annotation steps. *)
Theorem abundance_filter_monotone (cpm : DataFrame Q → DataFrame flt)
    (X : DataFrame Q) (m : nat) (cands res : list string) :
  abundance_filter cpm X m cands = Ret res →
  res `sublist_of` cands ∧
  (∀ m' res', (m ≤ m')%nat → abundance_filter cpm X m' cands = Ret res' →
     ∀ g, g ∈ res' → g ∈ res) ∧
  (m = 0%nat → res = filter (λ g, g ∈ columns X) cands) ∧
  (∀ db, m = 0%nat → annotation_filter db (columns X) = Ret cands → res = cands).
Proof.
  intros Hres.
  assert (m = 0%nat → res = filter (λ g, g ∈ columns X) cands) as Hzero.
  { intros ->. pose proof Hres as Hr0. unfold abundance_filter in Hr0.
    destruct (bind_Ret_inv _ _ _ Hr0) as (lib & Hlib & Hr1).
    destruct (bind_Ret_inv _ _ _ Hr1) as (t & Ht & Hr2).
    injection Hr2 as <-. by rewrite to_remain_zero. }
  split_and!; [by eapply abundance_filter_sublist| |done|].
  - intros m' res' Hle Hres' g Hg.
    destruct (abundance_filter_inv _ _ _ _ _ Hres) as (lib & Hlib & Hnz).
    destruct (abundance_filter_spec cpm X m cands lib Hlib Hnz) as (r & Hr & Hiff).
    destruct (abundance_filter_spec cpm X m' cands lib Hlib Hnz) as (r' & Hr' & Hiff').
    rewrite Hres in Hr. injection Hr as <-.
    rewrite Hres' in Hr'. injection Hr' as <-.
    destruct (proj1 (Hiff' g) Hg) as (Hc & j & Hj & Hm'). apply Hiff.
    split; [done|]. exists j. split; [done|lia].
  - intros db Hm Hk. rewrite (Hzero Hm). apply filter_all.
    apply Forall_forall. intros g Hg.
    eapply elem_of_sublist; [exact Hg|]. by eapply annotation_filter_sublist.
Qed.

Lemma abundance_filter_monotone_witness :
  ["ENSG1"; "ENSG5"] `sublist_of` ["ENSG1"; "ENSG5"; "ENSG8"] ∧
  ∀ m' res', (1 ≤ m')%nat →
    abundance_filter exact_cpm example_counts m' ["ENSG1"; "ENSG5"; "ENSG8"] = Ret res' →
    ∀ g, g ∈ res' → g ∈ ["ENSG1"; "ENSG5"].
Proof.
  destruct (abundance_filter_monotone exact_cpm example_counts 1
              ["ENSG1"; "ENSG5"; "ENSG8"] ["ENSG1"; "ENSG5"]) as (H1 & H2 & _).
  - vm_compute. reflexivity.
  - by split.
Defined.

(** ** More on [convert_symbols_to_ensembl] *)

(** What the first loop has built from the symbols seen so far. *)
Lemma first_pass_fold_result db l st pre :
  fp_unconfirmed st = filter (λ s, ambiguous db s = true) pre →
  fp_nonexistent st = filter (λ s, unknown db s = true) pre →
  (∀ s, fp_confirmed st !! s
        = if decide (s ∈ pre) then Name <$> resolves_to db s else None) →
  let st' := foldl (first_pass_step db) st l in
  fp_unconfirmed st' = filter (λ s, ambiguous db s = true) (pre ++ l) ∧
  fp_nonexistent st' = filter (λ s, unknown db s = true) (pre ++ l) ∧
  (∀ s, fp_confirmed st' !! s
        = if decide (s ∈ pre ++ l) then Name <$> resolves_to db s else None).
Proof.
  revert st pre. induction l as [|i l IH]; intros st pre Hu Hn Hc; simpl.
  - by rewrite app_nil_r.
  - replace (pre ++ i :: l) with ((pre ++ [i]) ++ l) by (by rewrite <- app_assoc).
    apply IH.
    + rewrite filter_app, filter_cons, filter_nil.
      unfold first_pass_step, ambiguous.
      destruct (genes_by_name db (upper i)) as [[|g [|g' z]]|]; simpl;
        rewrite ?Hu, ?app_nil_r; done.
    + rewrite filter_app, filter_cons, filter_nil.
      unfold first_pass_step, unknown.
      destruct (genes_by_name db (upper i)) as [[|g [|g' z]]|]; simpl;
        rewrite ?Hn, ?app_nil_r; done.
    + intros s. specialize (Hc s).
      assert (fp_confirmed (first_pass_step db st i) !! s
              = if decide (s = i) then
                  match resolves_to db i with
                  | Some id => Some (Name id)
                  | None => fp_confirmed st !! i
                  end
                else fp_confirmed st !! s) as ->.
      { unfold first_pass_step, resolves_to.
        destruct (decide (s = i)) as [->|Hne];
          destruct (genes_by_name db (upper i)) as [[|g [|g' z]]|]; simpl;
          rewrite ?lookup_insert_eq, ?lookup_insert_ne by done; done. }
      destruct (decide (s = i)) as [->|Hne].
      * rewrite (decide_True (P := i ∈ pre ++ [i]))
          by (apply elem_of_app; right; left).
        destruct (resolves_to db i); simpl; [done|].
        rewrite Hc. by destruct (decide (i ∈ pre)).
      * rewrite Hc. destruct (decide (s ∈ pre)) as [Hs|Hs].
        -- rewrite decide_True; [done|]. apply elem_of_app. by left.
        -- rewrite decide_False; [done|].
           intros [?| ->%list_elem_of_singleton]%elem_of_app; done.
Qed.

Lemma first_pass_result db l :
  fp_unconfirmed (first_pass db l) = filter (λ s, ambiguous db s = true) l ∧
  fp_nonexistent (first_pass db l) = filter (λ s, unknown db s = true) l ∧
  (∀ s, fp_confirmed (first_pass db l) !! s
        = if decide (s ∈ l) then Name <$> resolves_to db s else None).
Proof.
  apply (first_pass_fold_result db l
           {| fp_confirmed := ∅; fp_unconfirmed := []; fp_nonexistent := [] |} []);
    simpl; [done..|].
  intros s. rewrite lookup_empty.
  destruct (decide (s ∈ [])) as [Hin|]; [inversion Hin|done].
Qed.

Lemma first_pass_no_gene_value db l g : ¬ in_values (fp_confirmed (first_pass db l)) g.
Proof.
  intros (s & v & Hs & Hv)%map_Exists_lookup.
  destruct (first_pass_result db l) as (_ & _ & Hc). rewrite Hc in Hs.
  destruct (decide (s ∈ l)); [|done].
  destruct (resolves_to db s); simpl in Hs; [|done]. by injection Hs as <-.
Qed.

Lemma eliminate_idle db (c : gmap string col_label) i f u2 :
  (∀ g, ¬ in_values c g) → ambiguous db i = true →
  eliminate db {| confirmed := c; fixed := f; unconfirmed2 := u2 |} i
  = Ret {| confirmed := c; fixed := f; unconfirmed2 := u2 ++ [i] |}.
Proof.
  intros Hc Hi. unfold eliminate, ambiguous in *. cbn [confirmed fixed unconfirmed2].
  destruct (genes_by_name db (upper i)) as [z|]; [|done].
  rewrite (filter_all (λ g, ¬ in_values c g) z) by (apply Forall_forall; auto).
  by destruct z as [|g [|g' z]].
Qed.

(** A pass over symbols that are all ambiguous, with no gene object among
    the values, confirms nothing. *)
Lemma elimination_fold_idle db (c : gmap string col_label) todo f u2 :
  (∀ g, ¬ in_values c g) →
  Forall (λ s, ambiguous db s = true) todo →
  foldM (eliminate db) {| confirmed := c; fixed := f; unconfirmed2 := u2 |} todo
  = Ret {| confirmed := c; fixed := f; unconfirmed2 := u2 ++ todo |}.
Proof.
  intros Hc Hall. revert u2. induction Hall as [|i todo Hi _ IH]; intros u2.
  - by rewrite app_nil_r.
  - cbn [foldM]. rewrite eliminate_idle, bind_Ret, IH by done.
    by rewrite <- app_assoc.
Qed.

Lemma first_pass_idle_pass db l :
  elimination_pass db (fp_confirmed (first_pass db l)) (fp_unconfirmed (first_pass db l))
  = Ret {| confirmed := fp_confirmed (first_pass db l); fixed := 0;
           unconfirmed2 := fp_unconfirmed (first_pass db l) |}.
Proof.
  unfold elimination_pass. rewrite elimination_fold_idle; [done| |].
  - apply first_pass_no_gene_value.
  - destruct (first_pass_result db l) as (-> & _). apply Forall_forall.
    by intros s [Hs _]%list_elem_of_filter.
Qed.

(** X17. The elimination loop never confirms a symbol: its first pass
    leaves [confirmed] and [unconfirmed] as the first loop built them and
    [fixed] at 0, so that the loop body runs exactly once, and no value of
    [confirmed] is ever a gene object. *)
Theorem elimination_confirms_nothing (db : EnsemblRelease) (symb_list : list string) :
  let st := first_pass db symb_list in
  elimination_pass db (fp_confirmed st) (fp_unconfirmed st)
  = Ret {| confirmed := fp_confirmed st; fixed := 0;
           unconfirmed2 := fp_unconfirmed st |} ∧
  (∀ c unconfirmed fixed_now,
     loop_state db symb_list c unconfirmed fixed_now →
     c = fp_confirmed st ∧ unconfirmed = fp_unconfirmed st ∧
     (fixed_now = 1%nat ∨ fixed_now = 0%nat)) ∧
  (∀ c unconfirmed fixed_now s v,
     loop_state db symb_list c unconfirmed fixed_now →
     c !! s = Some v → ∃ id, v = Name id).
Proof.
  cbv zeta. set (st := first_pass db symb_list).
  assert (∀ c u f, loop_state db symb_list c u f →
            c = fp_confirmed st ∧ u = fp_unconfirmed st ∧ (f = 1%nat ∨ f = 0%nat))
    as Hstates.
  { induction 1 as [|c u f st' _ (-> & -> & _) Hpass]; [by auto|].
    unfold st in Hpass. rewrite first_pass_idle_pass in Hpass.
    injection Hpass as <-. simpl. auto. }
  split_and!; [apply first_pass_idle_pass|done|].
  intros c u f s v (-> & _)%Hstates Hs.
  destruct (first_pass_result db symb_list) as (_ & _ & Hc). fold st in Hc.
  rewrite Hc in Hs. destruct (decide (s ∈ symb_list)); [|done].
  destruct (resolves_to db s) as [id|]; [|done]. injection Hs as <-. eauto.
Qed.

Lemma elimination_confirms_nothing_witness :
  elimination_pass (annotation_of ambiguous_genes)
    (fp_confirmed (first_pass (annotation_of ambiguous_genes) example_symbols))
    (fp_unconfirmed (first_pass (annotation_of ambiguous_genes) example_symbols))
  = Ret {| confirmed := fp_confirmed (first_pass (annotation_of ambiguous_genes)
                                        example_symbols);
           fixed := 0;
           unconfirmed2 := fp_unconfirmed (first_pass (annotation_of ambiguous_genes)
                                             example_symbols) |}.
Proof.
  apply (proj1 (elimination_confirms_nothing (annotation_of ambiguous_genes)
                  example_symbols)).
Defined.

(** X18. With fuel for one pass, [convert_symbols_to_ensembl] returns;
    a symbol is a key of ['confirmed'] exactly when it is in the input and
    the annotation has exactly one gene under its upper-cased name, and
    its value is then the identifier of that gene; ['unconfirmed'] lists
    the input symbols with no gene or several, in input order, followed
    by those for which the query raised.  Without fuel the loop cannot
    start. *)
Theorem convert_symbols_result (db : EnsemblRelease) (symb_list : list string) :
  (∀ fuel, (1 ≤ fuel)%nat →
     ∃ c unconfirmed,
       convert_symbols_to_ensembl db fuel symb_list = Some (Ret (c, unconfirmed)) ∧
       (∀ s, c !! s = if decide (s ∈ symb_list) then Name <$> resolves_to db s else None) ∧
       unconfirmed = filter (λ s, ambiguous db s = true) symb_list
                     ++ filter (λ s, unknown db s = true) symb_list) ∧
  convert_symbols_to_ensembl db 0 symb_list = None.
Proof.
  destruct (first_pass_result db symb_list) as (Hu & Hn & Hc).
  split; [|done]. intros [|fuel] Hfuel; [lia|].
  unfold convert_symbols_to_ensembl. cbn [elimination_loop].
  rewrite first_pass_idle_pass. cbn [confirmed fixed unconfirmed2].
  assert (∀ k c u, elimination_loop db k c u 0 = Some (Ret (c, u))) as ->
    by (by intros []).
  eexists _, _. split; [done|]. split; [done|]. by rewrite Hu, Hn.
Qed.

Lemma convert_symbols_result_witness :
  ∃ c unconfirmed,
    convert_symbols_to_ensembl (annotation_of ambiguous_genes) 1 example_symbols
    = Some (Ret (c, unconfirmed)) ∧
    c !! "tal1" = Some (Name "ENSG1") ∧ c !! "AMBI" = None ∧
    unconfirmed = ["AMBI"; "ambi"; "NOPE"].
Proof.
  destruct (proj1 (convert_symbols_result (annotation_of ambiguous_genes) example_symbols)
              1%nat) as (c & u & Hres & Hc & Hu); [lia|].
  exists c, u. split; [exact Hres|]. rewrite !Hc, Hu. by split_and!.
Defined.

Lemma symbol_trichotomy db s :
  (∃ id, resolves_to db s = Some id ∧ ambiguous db s = false ∧ unknown db s = false) ∨
  (resolves_to db s = None ∧ (ambiguous db s = true ∨ unknown db s = true)).
Proof.
  unfold resolves_to, ambiguous, unknown.
  destruct (genes_by_name db (upper s)) as [[|g [|g' z]]|]; eauto 6.
Qed.

Lemma relabel_columns db (c : gmap string col_label) u cols l :
  (∀ s, c !! s = if decide (s ∈ cols) then Name <$> resolves_to db s else None) →
  u = filter (λ s, ambiguous db s = true) cols ++ filter (λ s, unknown db s = true) cols →
  l ⊆ cols →
  mapM (λ i, match c !! i with
             | Some v => Ret v
             | None => Raise (KeyError i)
             end) (filter (λ x, x ∉ u) l)
  = Ret (omap (λ x, Name <$> resolves_to db x) l).
Proof.
  intros Hc -> Hl. induction l as [|x l IH]; [done|].
  assert (x ∈ cols) as Hx by (apply Hl; left).
  assert (l ⊆ cols) as Hl' by (intros y Hy; apply Hl; by right).
  rewrite filter_cons. cbn [omap list_omap].
  destruct (symbol_trichotomy db x) as [(id & Hid & Ha & Hn)|(Hid & Hor)].
  - rewrite decide_True.
    + cbn [mapM]. rewrite Hc, decide_True, Hid by done. simpl.
      by rewrite (IH Hl').
    + rewrite elem_of_app, !list_elem_of_filter. intros [[? _]|[? _]]; congruence.
  - rewrite decide_False.
    + rewrite Hid. simpl. by apply IH.
    + intros Hnot. apply Hnot. rewrite elem_of_app, !list_elem_of_filter. tauto.
Qed.

(** X19. With symbols as gene labels, [run] never fails at the line that
    relabels the columns: every column left after dropping the unconfirmed
    symbols is a key of ['confirmed'].  The columns handed on are the
    identifiers of the symbols that name exactly one gene, in the order of
    the input columns, and the samples are the same. *)
Theorem run_relabels_resolved_symbols {P} (db : EnsemblRelease) (fuel : nat)
    (ui : UserInput (option Q) P) :
  gene_labels ui = "symbol" → (1 ≤ fuel)%nat →
  ∃ X0,
    samples_before_fillna db fuel ui = Some (Ret X0) ∧
    columns X0 = omap (λ s, Name <$> resolves_to db s) (columns (samples ui)) ∧
    index X0 = index (samples ui) ∧
    ∃ d, run db fuel ui = Some (Ret d).
Proof.
  intros Hsym Hfuel.
  destruct (first_pass_result db (columns (samples ui))) as (Hu & Hn & Hc).
  assert (samples_before_fillna db fuel ui
          = Some (Ret {| columns := omap (λ s, Name <$> resolves_to db s)
                                         (columns (samples ui));
                         rows := rows (drop_columns (samples ui)
                                   (fp_unconfirmed (first_pass db (columns (samples ui)))
                                    ++ fp_nonexistent (first_pass db (columns (samples ui))))) |}))
    as Hres.
  { unfold samples_before_fillna. rewrite decide_True by done.
    destruct fuel as [|fuel]; [lia|].
    unfold convert_symbols_to_ensembl. cbn [elimination_loop].
    rewrite first_pass_idle_pass. cbn [confirmed fixed unconfirmed2].
    assert (∀ k c u, elimination_loop db k c u 0 = Some (Ret (c, u))) as ->
      by (by intros []).
    cbn [drop_columns columns].
    erewrite relabel_columns; [done|exact Hc|by rewrite Hu, Hn|done]. }
  eexists. split; [exact Hres|]. split; [done|]. split.
  - unfold index. simpl. rewrite <- list_fmap_compose. by apply list_fmap_ext.
  - unfold run. rewrite Hres. eauto.
Qed.

Lemma run_relabels_resolved_symbols_witness :
  ∃ X0,
    samples_before_fillna (annotation_of ambiguous_genes) 1 symbol_input = Some (Ret X0) ∧
    columns X0 = [Name "ENSG1"; Name "ENSG1"] ∧
    index X0 = ["s1"; "s2"] ∧
    ∃ d, run (annotation_of ambiguous_genes) 1 symbol_input = Some (Ret d).
Proof.
  destruct (run_relabels_resolved_symbols (annotation_of ambiguous_genes) 1 symbol_input)
    as (X0 & Hres & Hcols & Hidx & Hrun); [reflexivity|lia|].
  exists X0. split; [exact Hres|]. split; [by rewrite Hcols|]. split; [by rewrite Hidx|].
  exact Hrun.
Defined.

(** ** [gen_multicall_csv] *)

Lemma multicall_rows_spec round3 m (mc : gmap string (list (string * Q))) order :
  ∃ pre,
    (multicall_rows round3 m mc order).1 = written_row round3 m mc <$> pre ∧
    Forall (λ s, is_Some (mc !! s)) pre ∧
    ((pre = order ∧ (multicall_rows round3 m mc order).2 = Ret tt) ∨
     (∃ s post, order = pre ++ s :: post ∧ mc !! s = None ∧
                (multicall_rows round3 m mc order).2 = Raise (KeyError s))).
Proof.
  induction order as [|s order (pre & Hrows & Hkeys & Hend)]; simpl.
  - exists []. split_and!; [done|constructor|by left].
  - destruct (mc !! s) as [calls|] eqn:Hs; simpl.
    + exists (s :: pre). split_and!.
      * rewrite Hrows, fmap_cons. f_equal. unfold written_row. by rewrite Hs.
      * by constructor.
      * destruct Hend as [[-> ?]|(s' & post & -> & ? & ?)]; [by left|right].
        by exists s', post.
    + exists []. split_and!; [done|constructor|right]. by exists s, order.
Qed.

Lemma length_multicall_header m : length (multicall_header m) = (1 + 2 * m)%nat.
Proof.
  unfold multicall_header. cbn [length].
  enough (∀ k, length (concat ((λ k, [Text ("call_" +:+ pretty (S k)); Text "proba"])
                                 <$> seq k m)) = (2 * m)%nat) as -> by lia.
  induction m as [|m IH]; intros k; [done|].
  rewrite <- cons_seq, fmap_cons. cbn [concat]. rewrite length_app, IH. simpl. lia.
Qed.

Lemma length_multicall_row round3 m s calls :
  length (multicall_row round3 m s calls)
  = Nat.max (2 * m) (1 + 2 * length calls).
Proof.
  unfold multicall_row. rewrite length_app, length_replicate. cbn [length].
  assert (length (concat ((λ call : string * Q, [Text call.1; Number (round3 call.2)])
                            <$> calls)) = (2 * length calls)%nat) as ->.
  { induction calls as [|c calls IH]; [done|].
    rewrite fmap_cons. cbn [concat]. rewrite length_app, IH. simpl. lia. }
  lia.
Qed.

Lemma foldl_nat_max_attained ns a : foldl Nat.max a ns ∈ a :: ns.
Proof.
  revert a. induction ns as [|b ns IH]; intros a; simpl; [left|].
  pose proof (IH (a `max` b)%nat) as Hin.
  apply elem_of_cons in Hin as [Hhd|Htl]; [|by do 2 right].
  rewrite Hhd. destruct (Nat.max_spec a b) as [[_ ->]|[_ ->]]; [right; left|left].
Qed.

(** X20. When [multi_calls] is not empty, the header that
    [gen_multicall_csv] writes has one cell more than twice the largest
    number of calls that a sample has; the row of a sample with that many
    calls is as wide as the header, and the row of a sample with fewer
    calls is one cell shorter than the header. *)
Theorem multicall_rows_one_cell_short (round3 : Q → Q)
    (multi_calls : gmap string (list (string * Q))) (sample_order : list string)
    (path : string) :
  multi_calls ≠ ∅ →
  ∃ max_multicall written,
    (∀ k calls, multi_calls !! k = Some calls → (length calls ≤ max_multicall)%nat) ∧
    (∃ k calls, multi_calls !! k = Some calls ∧ length calls = max_multicall) ∧
    (gen_multicall_csv round3 multi_calls sample_order path).1
    = OpenForWriting path :: WriteRow (multicall_header max_multicall) :: written ∧
    length (multicall_header max_multicall) = (1 + 2 * max_multicall)%nat ∧
    ∀ i row, written !! i = Some (WriteRow row) →
      ∃ sample calls,
        sample_order !! i = Some sample ∧ multi_calls !! sample = Some calls ∧
        row = multicall_row round3 max_multicall sample calls ∧
        length row = if decide (length calls = max_multicall)
                     then (1 + 2 * max_multicall)%nat else (2 * max_multicall)%nat.
Proof.
  intros Hne. unfold gen_multicall_csv. rewrite decide_False by done.
  destruct (call_counts_nonempty multi_calls Hne) as [m Hm].
  assert (∀ k calls, multi_calls !! k = Some calls → (length calls ≤ m)%nat) as Hmax.
  { intros k calls Hk. apply elem_of_map_to_list in Hk.
    destruct (map_to_list multi_calls) as [|kv l]; [inversion Hk|].
    simpl in Hm. injection Hm as <-.
    destruct (foldl_nat_max_bound ((λ kv, length kv.2) <$> l) (length kv.2)) as [H1 H2].
    apply elem_of_cons in Hk as [<-|Hk]; [done|].
    apply H2, list_elem_of_fmap. by exists (k, calls). }
  assert (∃ k calls, multi_calls !! k = Some calls ∧ length calls = m) as Hattained.
  { destruct (map_to_list multi_calls) as [|kv l] eqn:Hl; [done|].
    simpl in Hm. injection Hm as <-.
    pose proof (foldl_nat_max_attained ((λ kv, length kv.2) <$> l) (length kv.2)) as Hin.
    rewrite <- (fmap_cons (λ kv : string * list (string * Q), length kv.2)) in Hin.
    apply list_elem_of_fmap in Hin as ([k calls] & Heq & Hin).
    rewrite <- Hl in Hin. apply elem_of_map_to_list in Hin. eauto. }
  rewrite Hm. cbn [fst].
  destruct (multicall_rows_spec round3 m multi_calls sample_order)
    as (pre & Hrows & Hkeys & Hend).
  exists m, (multicall_rows round3 m multi_calls sample_order).1.
  split; [done|]. split; [done|].
  split; [done|]. split; [apply length_multicall_header|].
  intros i row Hi. rewrite Hrows, list_lookup_fmap in Hi.
  destruct (pre !! i) as [s|] eqn:Hs; [|done]. injection Hi as <-.
  destruct (proj1 (Forall_forall _ _) Hkeys s) as [calls Hcalls];
    [by eapply list_elem_of_lookup_2|].
  exists s, calls. rewrite Hcalls. change (default [] (Some calls)) with calls.
  split_and!; [|done|done|].
  - destruct Hend as [[<- _]|(s' & post & -> & _)]; [done|].
    by apply lookup_app_l_Some.
  - rewrite length_multicall_row. specialize (Hmax _ _ Hcalls).
    destruct (decide (length calls = m)); lia.
Qed.

Lemma example_multi_calls_nonempty : example_multi_calls ≠ ∅.
Proof.
  unfold example_multi_calls. intros Hempty.
  apply (f_equal (λ m : gmap string (list (string * Q)), m !! "s1")) in Hempty.
  by rewrite lookup_insert in Hempty.
Qed.

Lemma multicall_rows_one_cell_short_witness :
  ∃ max_multicall written,
    (∃ k calls, example_multi_calls !! k = Some calls ∧ length calls = max_multicall) ∧
    (gen_multicall_csv (λ q, q) example_multi_calls ["s2"; "s1"] "multi_calls.csv").1
    = OpenForWriting "multi_calls.csv" :: WriteRow (multicall_header max_multicall)
        :: written ∧
    length (multicall_header max_multicall) = (1 + 2 * max_multicall)%nat.
Proof.
  destruct (multicall_rows_one_cell_short (λ q, q) example_multi_calls ["s2"; "s1"]
              "multi_calls.csv" example_multi_calls_nonempty)
    as (m & written & _ & Hattained & Hops & Hlen & _).
  by exists m, written.
Defined.

Lemma multicall_rows_keys round3 m (multi_calls : gmap string (list (string * Q)))
    before rest :
  Forall (λ s, is_Some (multi_calls !! s)) before →
  multicall_rows round3 m multi_calls (before ++ rest)
  = ((written_row round3 m multi_calls <$> before)
       ++ (multicall_rows round3 m multi_calls rest).1,
     (multicall_rows round3 m multi_calls rest).2).
Proof.
  intros Hkeys. induction Hkeys as [|s before [calls Hs] _ IH]; simpl.
  - by destruct (multicall_rows _ _ _ rest).
  - rewrite Hs, IH. simpl. do 2 f_equal. unfold written_row. by rewrite Hs.
Qed.

(** X21. With a non-empty [multi_calls], [gen_multicall_csv] opens the
    file and writes the header before it looks at the samples.  When every
    sample of [sample_order] is a key it writes one row per sample, in that
    order, and returns; otherwise it ends in the [KeyError] of the first
    sample that is not a key, after the rows of the samples before it have
    been written. *)
Theorem gen_multicall_csv_rows_or_key_error (round3 : Q → Q)
    (multi_calls : gmap string (list (string * Q))) (sample_order : list string)
    (path : string) :
  multi_calls ≠ ∅ →
  ∃ max_multicall,
    py_max_nat ((λ kv, length kv.2) <$> map_to_list multi_calls) = Ret max_multicall ∧
    (Forall (λ s, is_Some (multi_calls !! s)) sample_order →
     gen_multicall_csv round3 multi_calls sample_order path
     = (OpenForWriting path :: WriteRow (multicall_header max_multicall)
          :: (written_row round3 max_multicall multi_calls <$> sample_order),
        Ret tt)) ∧
    (∀ before sample after,
       sample_order = before ++ sample :: after →
       Forall (λ s, is_Some (multi_calls !! s)) before →
       multi_calls !! sample = None →
       gen_multicall_csv round3 multi_calls sample_order path
       = (OpenForWriting path :: WriteRow (multicall_header max_multicall)
            :: (written_row round3 max_multicall multi_calls <$> before),
          Raise (KeyError sample))).
Proof.
  intros Hne. destruct (call_counts_nonempty multi_calls Hne) as [m Hm].
  exists m. split; [done|].
  unfold gen_multicall_csv. rewrite decide_False, Hm by done. split.
  - intros Hkeys. rewrite <- (app_nil_r sample_order) at 1 2.
    rewrite (multicall_rows_keys round3 m multi_calls sample_order []) by done.
    simpl. by rewrite app_nil_r.
  - intros before sample after -> Hkeys Hmiss.
    rewrite (multicall_rows_keys round3 m multi_calls before (sample :: after)) by done.
    simpl. rewrite Hmiss. simpl. by rewrite app_nil_r.
Qed.

Lemma gen_multicall_csv_rows_or_key_error_witness :
  ∃ max_multicall,
    gen_multicall_csv (λ q, q) example_multi_calls ["s2"; "s9"; "s1"] "multi_calls.csv"
    = ([OpenForWriting "multi_calls.csv"; WriteRow (multicall_header max_multicall);
        written_row (λ q, q) max_multicall example_multi_calls "s2"],
       Raise (KeyError "s9")).
Proof.
  destruct (gen_multicall_csv_rows_or_key_error (λ q, q) example_multi_calls
              ["s2"; "s9"; "s1"] "multi_calls.csv" example_multi_calls_nonempty)
    as (m & _ & _ & Hfail).
  exists m. apply (Hfail ["s2"] "s9" ["s1"]); [reflexivity| |reflexivity].
  repeat constructor. by eexists.
Defined.

(** ** The order of the samples in [run_predictions] *)

Lemma position_Some l x : x ∈ l → ∃ i, position l x = Some i.
Proof.
  induction l as [|y l IH]; [by intros ?%elem_of_nil|]. simpl.
  destruct (decide (y = x)); [eauto|].
  intros [->|Hx]%elem_of_cons; [done|]. destruct (IH Hx) as [i ->]. simpl. eauto.
Qed.

Lemma position_None l x : x ∉ l → position l x = None.
Proof.
  induction l as [|y l IH]; [done|]. simpl. intros Hx.
  rewrite decide_False by (intros ->; apply Hx; left).
  rewrite IH; [done|]. intros ?. apply Hx. by right.
Qed.

Lemma position_inj l x y i : position l x = Some i → position l y = Some i → x = y.
Proof.
  revert i. induction l as [|z l IH]; intros i; [done|]. simpl.
  destruct (decide (z = x)) as [Hzx|Hzx], (decide (z = y)) as [Hzy|Hzy].
  - congruence.
  - intros [= <-]. by destruct (position l y).
  - destruct (position l x); [|done]. by intros [= <-].
  - destruct (position l x) as [j|] eqn:Hx; [|done].
    destruct (position l y) as [k|] eqn:Hy; [|done].
    simpl. intros [= <-] [= ->]. by eapply IH.
Qed.

Lemma StronglySorted_weaken {A} (R R' : relation A) l :
  StronglySorted R l → (∀ a b, a ∈ l → b ∈ l → R a b → R' a b) → StronglySorted R' l.
Proof.
  induction 1 as [|a l Hl IH Ha]; intros Himp; constructor.
  - apply IH. intros x y Hx Hy. apply Himp; by right.
  - apply Forall_forall. intros b Hb. apply Himp; [left|by right|].
    by apply (proj1 (Forall_forall _ _) Ha).
Qed.

Lemma StronglySorted_filter' {A} (R : relation A) (P : A → Prop) `{∀ x, Decision (P x)} l :
  StronglySorted R l → StronglySorted R (filter P l).
Proof.
  induction 1 as [|a l Hl IH Ha]; [constructor|].
  rewrite filter_cons. destruct (decide (P a)); [|done].
  constructor; [done|]. apply Forall_forall. intros b [_ Hb]%list_elem_of_filter.
  by apply (proj1 (Forall_forall _ _) Ha).
Qed.

Lemma StronglySorted_fmap' {A B} (f : A → B) (R : relation B) l :
  StronglySorted (λ a b, R (f a) (f b)) l → StronglySorted R (f <$> l).
Proof.
  induction 1 as [|a l Hl IH Ha]; [constructor|]. rewrite fmap_cons.
  constructor; [done|]. apply Forall_forall. intros b (x & -> & Hx)%list_elem_of_fmap.
  by apply (proj1 (Forall_forall _ _) Ha).
Qed.

Lemma StronglySorted_strict_NoDup {A} (R : relation A) l :
  (∀ a, ¬ R a a) → StronglySorted R l → NoDup l.
Proof.
  intros Hirr. induction 1 as [|a l Hl IH Ha]; constructor; [|done].
  intros Hin. by apply (Hirr a), (proj1 (Forall_forall _ _) Ha).
Qed.

Lemma sorted_permutation_unique {A} (R : relation A) l1 l2 :
  StronglySorted R l1 → StronglySorted R l2 → l1 ≡ₚ l2 →
  (∀ a b, a ∈ l1 → b ∈ l1 → R a b → R b a → a = b) →
  l1 = l2.
Proof.
  intros H1. revert l2. induction H1 as [|a l1 Hl1 IH Ha]; intros l2 H2 Hperm Hanti.
  - by apply Permutation_nil_l in Hperm.
  - destruct H2 as [|b l2 Hl2 Hb].
    + by apply Permutation_nil_r in Hperm.
    + assert (a = b) as <-.
      { assert (a ∈ b :: l2) as Ha2 by (rewrite <- Hperm; left).
        assert (b ∈ a :: l1) as Hb1 by (rewrite Hperm; left).
        apply elem_of_cons in Ha2 as [?|Ha2]; [done|].
        apply elem_of_cons in Hb1 as [?|Hb1]; [done|].
        apply Hanti; [left|by right| |].
        - by apply (proj1 (Forall_forall _ _) Ha).
        - by apply (proj1 (Forall_forall _ _) Hb). }
      f_equal. apply IH; [done|by apply Permutation_cons_inv in Hperm|].
      intros x y Hx Hy. apply Hanti; by right.
Qed.

Lemma uniq_first_positions seen l :
  StronglySorted (λ a b, (first_position l a < first_position l b)%nat) (uniq seen l).
Proof.
  revert seen. induction l as [|y l IH]; intros seen; simpl; [constructor|].
  assert (∀ seen', y ∈ seen' →
    StronglySorted (λ a b, (first_position (y :: l) a < first_position (y :: l) b)%nat)
      (uniq seen' l)) as Htail.
  { intros seen' Hy. eapply StronglySorted_weaken; [apply (IH seen')|].
    intros a b [_ Ha]%elem_of_uniq [_ Hb]%elem_of_uniq.
    unfold first_position. simpl.
    rewrite !decide_False by (intros ->; done).
    destruct (position l a), (position l b); simpl; lia. }
  destruct (decide (y ∈ seen)) as [Hy|Hy]; [by apply Htail|].
  constructor; [apply Htail; left|].
  apply Forall_forall. intros b [_ Hb]%elem_of_uniq.
  unfold first_position. simpl. rewrite decide_True by done.
  rewrite decide_False by (intros ->; apply Hb; left).
  destruct (position l b); simpl; lia.
Qed.

Lemma keyed_samples repr keys index :
  keys ⊆ index →
  mapM (λ x, i ← list_index repr index x; Ret (i, x)) keys
  = Ret ((λ x, (first_position index x, x)) <$> keys).
Proof.
  intros Hsub. induction keys as [|k keys IH]; [done|].
  assert (list_index repr index k = Ret (first_position index k)) as Hk.
  { unfold list_index, first_position.
    by destruct (position_Some index k) as [i ->]; [apply Hsub; left|]. }
  cbn [mapM]. rewrite Hk. simpl. rewrite IH; [done|].
  intros x Hx. apply Hsub. by right.
Qed.

Lemma sample_order_Ret repr keys index :
  NoDup keys → keys ⊆ index →
  sample_order repr keys index = Ret (filter (λ s, s ∈ keys) (uniq [] index)).
Proof.
  intros Hnd Hsub. unfold sample_order. rewrite keyed_samples by done. simpl. f_equal.
  set (key := λ x, (first_position index x, x)).
  set (le := λ a b : nat * string, bool_decide (a.1 ≤ b.1)%nat).
  enough (sort_by le (key <$> keys) = key <$> filter (λ s, s ∈ keys) (uniq [] index))
    as ->.
  { rewrite <- list_fmap_compose. rewrite <- (list_fmap_id (filter _ _)) at 2.
    by apply list_fmap_ext. }
  apply (sorted_permutation_unique (decided le)).
  - apply Sorted_StronglySorted.
    + intros a b c Hab%bool_decide_eq_true Hbc%bool_decide_eq_true.
      apply bool_decide_eq_true. lia.
    + apply sort_by_Sorted. intros a b.
      destruct (decide (a.1 ≤ b.1)%nat).
      * left. by apply bool_decide_eq_true.
      * right. apply bool_decide_eq_true. lia.
  - apply StronglySorted_fmap'. apply StronglySorted_filter'.
    eapply StronglySorted_weaken; [apply (uniq_first_positions [] index)|].
    intros a b _ _ Hlt. unfold decided, le, key. apply bool_decide_eq_true.
    cbn [fst]. cbv beta in Hlt. lia.
  - rewrite sort_by_Permutation. apply fmap_Permutation.
    apply NoDup_Permutation; [done| |].
    + eapply (StronglySorted_strict_NoDup (λ a b, (first_position index a
                                                    < first_position index b)%nat)).
      * intros a. lia.
      * apply StronglySorted_filter', uniq_first_positions.
    + intros x. rewrite list_elem_of_filter, elem_of_uniq.
      split; [|tauto]. intros Hx. split_and!; [done|by apply Hsub|by intros ?%elem_of_nil].
  - intros a b Ha Hb Hab%bool_decide_eq_true Hba%bool_decide_eq_true.
    rewrite sort_by_Permutation in Ha, Hb.
    apply list_elem_of_fmap in Ha as (x & -> & Hx), Hb as (y & -> & Hy).
    unfold key in Hab, Hba. cbn [fst] in Hab, Hba.
    assert (first_position index x = first_position index y) as Heq by lia.
    unfold first_position in Heq.
    destruct (position_Some index x) as [i Hi]; [by apply Hsub|].
    destruct (position_Some index y) as [j Hj]; [by apply Hsub|].
    rewrite Hi, Hj in Heq. simpl in Heq. subst j.
    by rewrite (position_inj _ _ _ _ Hi Hj).
Qed.

Lemma sample_order_Raise repr before key after index :
  before ⊆ index → key ∉ index →
  sample_order repr (before ++ key :: after) index
  = Raise (ValueError (repr key +:+ " is not in list")).
Proof.
  intros Hsub Hmiss. unfold sample_order.
  assert (mapM (λ x, i ← list_index repr index x; Ret (i, x)) (before ++ key :: after)
          = Raise (ValueError (repr key +:+ " is not in list"))) as ->; [|done].
  induction before as [|b before IH]; cbn [mapM app].
  - unfold list_index. by rewrite position_None.
  - assert (∃ i, list_index repr index b = Ret i) as [i Hb].
    { unfold list_index.
      destruct (position_Some index b) as [i ->]; [apply Hsub; left|]. eauto. }
    rewrite Hb. simpl. rewrite IH; [done|]. intros x Hx. apply Hsub. by right.
Qed.

Lemma first_outside (keys index : list string) :
  ¬ keys ⊆ index →
  ∃ before key after, keys = before ++ key :: after ∧ before ⊆ index ∧ key ∉ index.
Proof.
  induction keys as [|k keys IH]; intros Hnot.
  - destruct Hnot. by intros x ?%elem_of_nil.
  - destruct (decide (k ∈ index)) as [Hk|Hk].
    + destruct IH as (before & key & after & -> & Hsub & Hmiss).
      { intros Hsub. apply Hnot. by intros x [->|?]%elem_of_cons; [|apply Hsub]. }
      exists (k :: before), key, after. split_and!; [done| |done].
      by intros x [->|?]%elem_of_cons; [|apply Hsub].
    + exists [], k, keys. split_and!; [done| |done]. by intros x ?%elem_of_nil.
Qed.

(** X22. The order in which [run_predictions] writes the samples with
    multiple calls does not depend on the order of the keys of
    [multi_calls]: when every key is a sample of the counts, the keys come
    out in the order of their first occurrence in the index of the counts.
    When a key is not in the index, sorting ends in the [ValueError] of
    the first such key. *)
Theorem sample_order_follows_index (repr : string → string) (keys index : list string) :
  NoDup keys →
  (keys ⊆ index →
   sample_order repr keys index = Ret (filter (λ s, s ∈ keys) (uniq [] index))) ∧
  (∀ before key after,
     keys = before ++ key :: after → before ⊆ index → key ∉ index →
     sample_order repr keys index = Raise (ValueError (repr key +:+ " is not in list"))).
Proof.
  intros Hnd. split; [by apply sample_order_Ret|].
  intros before key after ->. apply sample_order_Raise.
Qed.

Lemma sample_order_follows_index_witness :
  sample_order (λ s, s) ["s1"; "s2"] ["s2"; "s0"; "s2"; "s1"] = Ret ["s2"; "s1"] ∧
  sample_order (λ s, s) ["s1"; "s9"; "s2"] ["s2"; "s0"; "s2"; "s1"]
  = Raise (ValueError "s9 is not in list").
Proof.
  split.
  - apply (proj1 (sample_order_follows_index (λ s, s) ["s1"; "s2"]
                    ["s2"; "s0"; "s2"; "s1"] ltac:(by apply (bool_decide_unpack _)))).
    by apply (bool_decide_unpack _).
  - apply (proj2 (sample_order_follows_index (λ s, s) ["s1"; "s9"; "s2"]
                    ["s2"; "s0"; "s2"; "s1"] ltac:(by apply (bool_decide_unpack _)))
             ["s1"] "s9" ["s2"]); [reflexivity| |].
    + by apply (bool_decide_unpack _).
    + by apply (bool_decide_unpack _).
Defined.

(** X23. [run_predictions] hands [gen_multicall_csv] the keys of
    [multi_calls] themselves, so that writing the multiple calls never
    ends in a [KeyError]: when every key is a sample of the counts the
    call returns, and a non-empty [multi_calls] gives a file with the
    header and one row per key, in the order of the index of the counts.
    When a key is not in the index the failure comes before any file is
    opened. *)
Theorem multi_calls_written_in_index_order (repr : string → string) (round3 : Q → Q)
    (keys : list string) (multi_calls : gmap string (list (string * Q)))
    (index : list string) (path : string) :
  NoDup keys → (∀ s, s ∈ keys ↔ is_Some (multi_calls !! s)) →
  (keys ⊆ index →
   (write_multi_calls repr round3 keys multi_calls index path).2 = Ret tt ∧
   (multi_calls ≠ ∅ →
    ∃ max_multicall,
      (write_multi_calls repr round3 keys multi_calls index path).1
      = OpenForWriting path :: WriteRow (multicall_header max_multicall)
          :: (written_row round3 max_multicall multi_calls
                <$> filter (λ s, s ∈ keys) (uniq [] index)))) ∧
  (¬ keys ⊆ index →
   ∃ what, write_multi_calls repr round3 keys multi_calls index path
           = ([], Raise (ValueError what))).
Proof.
  intros Hnd Hkeys. split.
  - intros Hsub. unfold write_multi_calls. rewrite sample_order_Ret by done.
    set (order := filter (λ s, s ∈ keys) (uniq [] index)).
    assert (Forall (λ s, is_Some (multi_calls !! s)) order) as Horder.
    { apply Forall_forall. intros s [Hs _]%list_elem_of_filter. by apply Hkeys. }
    unfold gen_multicall_csv.
    destruct (decide (multi_calls = ∅)) as [->|Hne]; [done|].
    destruct (call_counts_nonempty multi_calls Hne) as [m ->].
    pose proof (multicall_rows_keys round3 m multi_calls order [] Horder) as Hrows.
    rewrite app_nil_r in Hrows. rewrite Hrows. simpl. rewrite app_nil_r.
    split; [done|]. intros _. by exists m.
  - intros (before & key & after & -> & Hsub & Hmiss)%first_outside.
    unfold write_multi_calls. rewrite sample_order_Raise by done. eauto.
Qed.

Lemma example_multi_calls_keys s :
  s ∈ ["s1"; "s2"] ↔ is_Some (example_multi_calls !! s).
Proof.
  unfold example_multi_calls. rewrite lookup_insert_is_Some, lookup_singleton_is_Some.
  rewrite !elem_of_cons, elem_of_nil.
  destruct (decide ("s1" = s)); naive_solver.
Qed.

Lemma multi_calls_written_in_index_order_witness :
  (write_multi_calls (λ s, s) (λ q, q) ["s1"; "s2"] example_multi_calls
     ["s2"; "s0"; "s1"] "multi_calls.csv").2 = Ret tt.
Proof.
  apply (proj1 (multi_calls_written_in_index_order (λ s, s) (λ q, q) ["s1"; "s2"]
                  example_multi_calls ["s2"; "s0"; "s1"] "multi_calls.csv"
                  ltac:(by apply (bool_decide_unpack _)) example_multi_calls_keys)).
  by apply (bool_decide_unpack _).
Defined.

(** ** The helpers for labels *)

Lemma split_nonempty sep s : py_split sep s ≠ [].
Proof.
  destruct s as [|c s]; simpl; [done|].
  destruct (decide (c = sep)); [done|]. by destruct (py_split sep s).
Qed.

Lemma split_no_separator sep s : sep ∉ chars s → py_split sep s = [s].
Proof.
  induction s as [|c s IH]; [done|]. unfold chars. simpl. intros Hs.
  rewrite decide_False by (intros ->; apply Hs; left).
  rewrite IH; [done|]. intros ?. apply Hs. by right.
Qed.

Lemma split_app sep a b :
  sep ∉ chars a → py_split sep (a +:+ String sep b) = a :: py_split sep b.
Proof.
  induction a as [|c a IH]; unfold chars; simpl; intros Ha.
  - by rewrite decide_True.
  - rewrite decide_False by (intros ->; apply Ha; left).
    rewrite IH; [done|]. intros ?. apply Ha. by right.
Qed.

Lemma split_length sep s :
  length (py_split sep s) = S (length (filter (λ c, c = sep) (chars s))).
Proof.
  induction s as [|c s IH]; [done|]. unfold chars in *. simpl.
  rewrite filter_cons. destruct (decide (c = sep)); simpl; [by rewrite IH|].
  destruct (py_split sep s); simpl in *; lia.
Qed.

Lemma concat_split sep s : String.concat (String sep EmptyString) (py_split sep s) = s.
Proof.
  induction s as [|c s IH]; [done|]. simpl.
  pose proof (split_nonempty sep s) as Hne.
  destruct (decide (c = sep)) as [->|Hc].
  - destruct (py_split sep s) as [|h t]; [done|].
    change (String.concat (String sep "") ("" :: h :: t))
      with ("" +:+ String sep "" +:+ String.concat (String sep "") (h :: t)).
    by rewrite IH.
  - destruct (py_split sep s) as [|h t]; [done|].
    destruct t as [|h' t]; simpl in *; by rewrite <- IH.
Qed.

Lemma levels_means_roots (objs : SubtypeObjects) l o :
  well_formed objs → dict_get objs l = Some o → level o = 1%Z → parent o = None.
Proof.
  intros Hwf Hl Hlevel. destruct (Hwf l o Hl) as [_ Hparent].
  destruct (parent o) as [p|] eqn:Hp; [|done].
  destruct (Hparent p eq_refl) as (po & Hpo & Hlev).
  destruct (Hwf p po Hpo) as [Hge _]. lia.
Qed.

Lemma label_components pre n p :
  underscore ∉ chars pre → underscore ∉ chars n →
  py_split underscore (pre +:+ "_" +:+ n +:+ "_" +:+ p) = pre :: n :: py_split underscore p.
Proof.
  intros Hpre Hn.
  change (pre +:+ "_" +:+ n +:+ "_" +:+ p)
    with (pre +:+ String underscore (n +:+ String underscore p)).
  by rewrite !split_app.
Qed.

(** X24. For a level name made of a prefix, a number and a parent label
    joined by underscores, with a number other than 1,
    [get_children_of_label] looks up the whole parent label, underscores
    included, and returns the children of that object; it ends in a
    [KeyError] when the parent label is not an object. *)
Theorem get_children_of_label_parent (int_of : string → option Z)
    (subtypeObjects : SubtypeObjects) (pre n parent_label : string) (level_num : Z) :
  underscore ∉ chars pre → underscore ∉ chars n →
  int_of n = Some level_num → level_num ≠ 1%Z →
  get_children_of_label int_of subtypeObjects (pre +:+ "_" +:+ n +:+ "_" +:+ parent_label)
  = match dict_get subtypeObjects parent_label with
    | Some parent_obj => Ret (children parent_obj)
    | None => Raise (KeyError parent_label)
    end.
Proof.
  intros Hpre Hn Hint Hlevel. unfold get_children_of_label.
  rewrite label_components by done. cbn [lookup list_lookup drop].
  rewrite Hint. cbn [converted]. rewrite bind_Ret, decide_False by done.
  pose proof (concat_split underscore parent_label) as Hjoin.
  change (String underscore EmptyString) with ("_" : string) in Hjoin.
  rewrite drop_0, Hjoin. unfold subscript.
  by destruct (dict_get subtypeObjects parent_label).
Qed.

Lemma get_children_of_label_parent_witness :
  get_children_of_label (λ s, if decide (s = "2") then Some 2%Z else None)
    objects_A_B_A1 "Level_2_A"
  = Ret ["A1"].
Proof.
  apply (get_children_of_label_parent _ objects_A_B_A1 "Level" "2" "A" 2%Z).
  - by apply (bool_decide_unpack _).
  - by apply (bool_decide_unpack _).
  - reflexivity.
  - lia.
Defined.

(** X25. For a level name whose number is 1, [get_children_of_label]
    ignores the rest of the name and returns the labels of the objects of
    level 1, in ascending order; in a well-formed hierarchy these objects
    have no parent. *)
Theorem get_children_of_label_level_one (int_of : string → option Z)
    (subtypeObjects : SubtypeObjects) (label_name component : string) :
  py_split underscore label_name !! 1%nat = Some component →
  int_of component = Some 1%Z →
  ∃ labels,
    get_children_of_label int_of subtypeObjects label_name = Ret labels ∧
    Sorted (decided String.leb) labels ∧
    (∀ l, l ∈ labels ↔ ∃ o, dict_get subtypeObjects l = Some o ∧ level o = 1%Z) ∧
    (well_formed subtypeObjects →
     ∀ l o, l ∈ labels → dict_get subtypeObjects l = Some o → parent o = None).
Proof.
  intros Hcomp Hint. unfold get_children_of_label. rewrite Hcomp, Hint.
  cbn [converted]. rewrite bind_Ret, decide_True by done. eexists. split; [done|].
  assert (∀ l, l ∈ sort_by String.leb
                     (filter (λ i, level <$> dict_get subtypeObjects i = Some 1%Z)
                             subtypeObjects.*1)
               ↔ ∃ o, dict_get subtypeObjects l = Some o ∧ level o = 1%Z) as Hmem.
  { intros l. rewrite sort_by_Permutation, list_elem_of_filter. split.
    - intros [Hl _]. destruct (dict_get subtypeObjects l) as [o|]; [|done].
      injection Hl as Hl. eauto.
    - intros (o & Ho & Hlevel). rewrite Ho. simpl. split; [by rewrite Hlevel|].
      clear Hcomp. induction subtypeObjects as [|[k v] objs IH]; [done|].
      simpl in Ho |- *. destruct (decide (k = l)) as [->|]; [left|right; by apply IH]. }
  split_and!.
  - apply sort_by_Sorted, String.leb_total.
  - done.
  - intros Hwf l o [o' [Ho' Hlevel]]%Hmem Ho. rewrite Ho in Ho'. injection Ho' as <-.
    by eapply levels_means_roots.
Qed.

Lemma get_children_of_label_level_one_witness :
  ∃ labels,
    get_children_of_label (λ s, if decide (s = "1") then Some 1%Z else None)
      objects_A_B_A1 "Level_1_" = Ret labels ∧
    (∀ l, l ∈ labels ↔ ∃ o, dict_get objects_A_B_A1 l = Some o ∧ level o = 1%Z).
Proof.
  destruct (get_children_of_label_level_one
              (λ s, if decide (s = "1") then Some 1%Z else None)
              objects_A_B_A1 "Level_1_" "1")
    as (labels & Hres & _ & Hmem & _); [reflexivity|reflexivity|].
  by exists labels.
Defined.

(** X26. [get_children_of_label] ends in an [IndexError] exactly when
    the level name has no underscore, and it never leaves through
    [sys.exit()]. *)
Theorem get_children_of_label_index_error (int_of : string → option Z)
    (subtypeObjects : SubtypeObjects) (label_name : string) :
  ((get_children_of_label int_of subtypeObjects label_name = Raise IndexError)
   ↔ (underscore ∉ chars label_name)) ∧
  (∀ e, get_children_of_label int_of subtypeObjects label_name ≠ Exit e).
Proof.
  unfold get_children_of_label.
  destruct (decide (underscore ∈ chars label_name)) as [Hin|Hnot].
  - assert (∃ c, py_split underscore label_name !! 1%nat = Some c) as [c ->].
    { apply lookup_lt_is_Some_2. rewrite split_length.
      destruct (filter _ _) eqn:Hf; simpl; [|lia].
      assert (underscore ∈ filter (λ c, c = underscore) (chars label_name)) as Hu
        by (by apply list_elem_of_filter).
      rewrite Hf in Hu. by apply elem_of_nil in Hu. }
    destruct (int_of c) as [k|]; simpl.
    + destruct (decide (k = 1%Z)).
      * split; [split; [done|intros Hn; by destruct Hn]|done].
      * unfold subscript. destruct (dict_get _ _); simpl;
          (split; [split; [done|intros Hn; by destruct Hn]|done]).
    + split; [split; [done|intros Hn; by destruct Hn]|done].
  - rewrite split_no_separator by done. simpl. by split; [split|].
Qed.

Lemma replace_char_chars old new s :
  chars (replace_char old new s) = (λ c, if decide (c = old) then new else c) <$> chars s.
Proof. induction s as [|c s IH]; [done|]. unfold chars in *. simpl. by rewrite IH. Qed.

(** X27. The directory name that [clean_label] makes of a level name has
    no slash and as many characters as the name; a name without a slash
    stays as it is, and only such a name does. *)
Theorem clean_label_no_slash (label : string) :
  (slash ∉ chars (clean_label label)) ∧
  String.length (clean_label label) = String.length label ∧
  (clean_label label = label ↔ (slash ∉ chars label)) ∧
  clean_label (clean_label label) = clean_label label.
Proof.
  assert (∀ s, slash ∉ chars s → clean_label s = s) as Hfix.
  { induction s as [|c s IH]; [done|]. unfold chars, clean_label in *. simpl.
    intros Hs. rewrite decide_False by (intros ->; apply Hs; left).
    rewrite IH; [done|]. intros ?. apply Hs. by right. }
  assert (slash ∉ chars (clean_label label)) as Hclean.
  { unfold clean_label. rewrite replace_char_chars.
    intros (c & Hc & _)%list_elem_of_fmap.
    destruct (decide (c = slash)); [|congruence].
    unfold slash, underscore in Hc. discriminate. }
  split; [done|]. split; [|split].
  - clear. unfold clean_label. induction label as [|c s IH]; [done|]. simpl.
    by rewrite IH.
  - split; [|apply Hfix]. intros Heq. by rewrite <- Heq.
  - exact (Hfix _ Hclean).
Qed.

(** ** [get_colours_for_labels] *)

Lemma default_loop label_list colours un :
  (foldl default_step (colours, un) label_list).2
  = un ++ filter (λ i, default_label_colours !! i = None) label_list ∧
  ∀ l, (foldl default_step (colours, un) label_list).1 !! l
       = if decide (l ∈ label_list ∧ is_Some (default_label_colours !! l))
         then default_label_colours !! l else colours !! l.
Proof.
  revert colours un. induction label_list as [|i rest IH]; intros colours un.
  - cbn [foldl fst snd filter list_filter]. split; [by rewrite app_nil_r|]. intros l.
    rewrite decide_False; [done|]. by intros [?%elem_of_nil _].
  - cbn [foldl]. unfold default_step at 2 4. rewrite filter_cons.
    destruct (default_label_colours !! i) as [colour|] eqn:Hi; cbn [fst snd].
    + destruct (IH (<[i := colour]> colours) un) as [-> Hl].
      rewrite decide_False by (by intros ?). split; [done|].
      intros l. rewrite Hl.
      destruct (decide (l ∈ rest ∧ _)) as [[Hr Hd]|Hno].
      * rewrite decide_True; [done|]. split; [by right|done].
      * destruct (decide (l = i)) as [->|Hne].
        -- rewrite lookup_insert_eq. rewrite decide_True; [done|].
           split; [left|]. by rewrite Hi.
        -- rewrite lookup_insert_ne by done. rewrite decide_False; [done|].
           intros [[->|Hr]%elem_of_cons Hd]; [done|]. by apply Hno.
    + destruct (IH colours (un ++ [i])) as [-> Hl].
      rewrite decide_True by done. split; [by rewrite <- app_assoc|].
      intros l. rewrite Hl.
      destruct (decide (l ∈ rest ∧ _)) as [[Hr Hd]|Hno].
      * rewrite decide_True; [done|]. split; [by right|done].
      * rewrite decide_False; [done|].
        intros [[->|Hr]%elem_of_cons Hd]; [|by apply Hno].
        rewrite Hi in Hd. by destruct Hd.
Qed.

Lemma hue_loop (colours : gmap string string) (labels : list string) (hues : list string) :
  length labels ≤ length hues →
  ∀ l, (l ∉ labels →
        foldl (λ colours lh, <[lh.1 := lh.2]> colours) colours (zip labels hues) !! l
        = colours !! l) ∧
       (l ∈ labels →
        is_Some (foldl (λ colours lh, <[lh.1 := lh.2]> colours) colours
                   (zip labels hues) !! l)) ∧
       (NoDup labels → ∀ k, labels !! k = Some l →
        foldl (λ colours lh, <[lh.1 := lh.2]> colours) colours (zip labels hues) !! l
        = hues !! k).
Proof.
  revert colours hues. induction labels as [|i rest IH]; intros colours hues Hlen l.
  - simpl. split_and!; [done|by intros ?%elem_of_nil|done].
  - destruct hues as [|h hues]; [simpl in Hlen; lia|]. simpl in Hlen.
    cbn [zip zip_with foldl fst snd].
    destruct (IH (<[i := h]> colours) hues ltac:(lia) l) as (Hout & Hin & Hpos).
    split_and!.
    + intros Hl. rewrite Hout by (intros ?; apply Hl; by right).
      rewrite lookup_insert_ne; [done|]. intros ->. apply Hl. left.
    + intros Hl. destruct (decide (l ∈ rest)) as [Hr|Hr]; [by apply Hin|].
      rewrite Hout by done. apply elem_of_cons in Hl as [->|?]; [|done].
      rewrite lookup_insert_eq. eauto.
    + intros [Hi Hnd]%NoDup_cons [|k] Hk; simpl in Hk.
      * injection Hk as ->. rewrite Hout by done. by rewrite lookup_insert_eq.
      * by apply Hpos.
Qed.

Lemma get_colours_for_labels_loops hue_colour label_list use_default :
  get_colours_for_labels hue_colour label_list use_default
  = foldl (λ colours lh, <[lh.1 := lh.2]> colours)
      (if use_default then (foldl default_step (∅, []) label_list).1 else ∅)
      (zip (unaccounted label_list use_default)
           (hue_colour (length (unaccounted label_list use_default) + 1)
              <$> seq 0 (length (unaccounted label_list use_default) + 1))).
Proof.
  unfold get_colours_for_labels, unaccounted.
  destruct use_default.
  - destruct (default_loop label_list ∅ []) as [Hun _]. rewrite Hun. simpl.
    by destruct (filter _ label_list).
  - simpl. by destruct label_list.
Qed.

(** X28. [get_colours_for_labels] gives a colour to every label of the
    list and to no other label; with [use_default], a label of the list
    that has a default colour gets that colour.  In particular the call
    ['Unclassified'], which the waterfall plot adds to the labels, is
    always grey. *)
Theorem get_colours_for_labels_keys (hue_colour : nat → nat → string)
    (label_list : list string) (use_default : bool) :
  (∀ l, is_Some (get_colours_for_labels hue_colour label_list use_default !! l)
        ↔ l ∈ label_list) ∧
  (∀ l colour, l ∈ label_list → default_label_colours !! l = Some colour →
     get_colours_for_labels hue_colour label_list true !! l = Some colour) ∧
  get_colours_for_labels hue_colour (label_list ++ ["Unclassified"]) true
    !! "Unclassified" = Some "#808080".
Proof.
  assert (∀ labels l colour, l ∈ labels → default_label_colours !! l = Some colour →
            get_colours_for_labels hue_colour labels true !! l = Some colour) as Hdefault.
  { intros labels l colour Hl Hd. rewrite get_colours_for_labels_loops.
    destruct (default_loop labels ∅ []) as [_ Hfirst].
    destruct (hue_loop (foldl default_step (∅, []) labels).1 (unaccounted labels true)
                (hue_colour (length (unaccounted labels true) + 1)
                   <$> seq 0 (length (unaccounted labels true) + 1)) ) with (l := l)
      as (Hout & _); [rewrite length_fmap, length_seq; lia|].
    rewrite Hout.
    - rewrite Hfirst, decide_True; [done|]. split; [done|]. by rewrite Hd.
    - unfold unaccounted. intros [Hnone _]%list_elem_of_filter. congruence. }
  split_and!; [|by apply Hdefault|].
  - intros l. rewrite get_colours_for_labels_loops.
    set (un := unaccounted label_list use_default).
    destruct (hue_loop (if use_default then (foldl default_step (∅, []) label_list).1 else ∅)
                un (hue_colour (length un + 1) <$> seq 0 (length un + 1))) with (l := l)
      as (Hout & Hin & _); [rewrite length_fmap, length_seq; lia|].
    destruct (default_loop label_list ∅ []) as [_ Hfirst].
    destruct (decide (l ∈ un)) as [Hun|Hun].
    + split; [intros _|by intros _; apply Hin].
      unfold un, unaccounted in Hun. destruct use_default; [|done].
      by apply list_elem_of_filter in Hun as [_ ?].
    + rewrite Hout by done. unfold un, unaccounted in Hun.
      destruct use_default.
      * rewrite Hfirst. destruct (decide (l ∈ label_list ∧ _)) as [[Hl Hd]|Hno].
        -- by split.
        -- rewrite lookup_empty. split; [by intros [? ?]|]. intros Hl.
           destruct (default_label_colours !! l) as [colour|] eqn:Hd.
           ++ destruct Hno. split; [done|]. eauto.
           ++ destruct Hun. by apply list_elem_of_filter.
      * rewrite lookup_empty. split; [by intros [? ?]|done].
  - apply Hdefault; [|reflexivity]. apply elem_of_app. right. left.
Qed.

(** X29. When no label is listed twice, the labels without a default
    colour get their colours by position: the [k]-th of [n] such labels
    gets the [k]-th of [n + 1] hues, so that the last hue, which closes
    the colour circle, is never used. *)
Theorem get_colours_for_labels_hues (hue_colour : nat → nat → string)
    (label_list : list string) (use_default : bool) (k : nat) (l : string) :
  NoDup label_list →
  unaccounted label_list use_default !! k = Some l →
  get_colours_for_labels hue_colour label_list use_default !! l
  = Some (hue_colour (length (unaccounted label_list use_default) + 1) k).
Proof.
  intros Hnd Hk. rewrite get_colours_for_labels_loops.
  set (un := unaccounted label_list use_default) in *.
  destruct (hue_loop (if use_default then (foldl default_step (∅, []) label_list).1 else ∅)
              un (hue_colour (length un + 1) <$> seq 0 (length un + 1))) with (l := l)
    as (_ & _ & Hpos); [rewrite length_fmap, length_seq; lia|].
  rewrite (Hpos ltac:(unfold un, unaccounted; destruct use_default;
                       [by apply NoDup_filter|done]) k Hk).
  rewrite list_lookup_fmap, lookup_seq_lt; [done|].
  apply lookup_lt_Some in Hk. lia.
Qed.

Lemma get_colours_for_labels_hues_witness :
  get_colours_for_labels (λ n k, if decide (k = 0)%nat then "#FF0000" else "#00FFFF")
    ["TLX1"; "ETP"; "TLX3"; "Other"] true !! "Other"
  = Some "#00FFFF".
Proof.
  rewrite (get_colours_for_labels_hues _ ["TLX1"; "ETP"; "TLX3"; "Other"] true 1 "Other").
  - reflexivity.
  - by apply (bool_decide_unpack _).
  - reflexivity.
Defined.

Lemma get_colours_for_labels_keys_witness :
  get_colours_for_labels (λ _ _, "#FF0000") ["ETP"; "TLX1"] true !! "TLX1"
  = Some "#367BD8".
Proof.
  apply (proj1 (proj2 (get_colours_for_labels_keys (λ _ _, "#FF0000") ["ETP"; "TLX1"] true))).
  - by apply (bool_decide_unpack _).
  - reflexivity.
Defined.
